(** * csv_to_json.py: a shallow embedding and its specification

    The script reads a CSV file with [csv.DictReader], collects the rows in a
    list and writes that list with [json.dump (ensure_ascii=False, indent=2)].
    This development embeds the script together with the parts of the Python
    runtime it runs through:

    - text files opened with [encoding="utf-8"] (strict UTF-8 codec) and
      iterated line by line with an empty [newline] argument;
    - the [_csv] reader state machine under the default [excel] dialect;
    - [csv.DictReader.__next__];
    - the pure-Python JSON encoder ([json.encoder._make_iterencode] and
      [py_encode_basestring]).

    A Python [str] is a sequence of code points, a file holds bytes; both are
    lists of [Z].  A path leads to a place of the file system, several paths
    may lead to the same place, and the file system is a finite map from
    places to nodes.  Standard output is the list of messages printed so
    far, with the set of characters that its encoding can write. *)

From Stdlib Require Import ZArith Lia String Ascii DecimalString.
From stdpp Require Import base option list gmap.

Local Open Scope Z_scope.

(** ** Python strings *)

Abbreviation str := (list Z) (only parsing).
Abbreviation bytes := (list Z) (only parsing).

(** An ASCII literal of the script or of the runtime, as code points. *)
Definition lit (s : string) : str :=
  (fun a => Z.of_nat (nat_of_ascii a)) <$> list_ascii_of_string s.

Definition LF : Z := 10.
Definition CR : Z := 13.
Definition QUOTE : Z := 34.
Definition BACKSLASH : Z := 92.
Definition COMMA : Z := 44.

(** ** The UTF-8 codec ([encoding="utf-8"], [errors="strict"]) *)

Module Utf8.

(** Unicode scalar values: what a strictly decoded [str] is made of. *)
Definition scalar (c : Z) : Prop :=
  (0 <= c < 55296) \/ (57343 < c <= 1114111).

Definition in_range (lo hi b : Z) : bool := (lo <=? b) && (b <=? hi).

Definition is_cont (b : Z) : bool := in_range 128 191 b.

(** Allowed range of the second byte, which excludes overlong forms,
    surrogates and code points above U+10FFFF. *)
Definition second_ok (b0 b1 : Z) : bool :=
  if b0 =? 224 then in_range 160 191 b1
  else if b0 =? 237 then in_range 128 159 b1
  else if b0 =? 240 then in_range 144 191 b1
  else if b0 =? 244 then in_range 128 143 b1
  else is_cont b1.

(** [None] stands for [UnicodeDecodeError]. *)
Fixpoint decode (bs : bytes) : option str :=
  match bs with
  | [] => Some []
  | b0 :: bs1 =>
    if in_range 0 127 b0 then cons b0 <$> decode bs1
    else if in_range 194 223 b0 then
      match bs1 with
      | b1 :: bs2 =>
        if is_cont b1
        then cons ((b0 - 192) * 64 + (b1 - 128)) <$> decode bs2
        else None
      | _ => None
      end
    else if in_range 224 239 b0 then
      match bs1 with
      | b1 :: b2 :: bs3 =>
        if second_ok b0 b1 && is_cont b2
        then cons ((b0 - 224) * 4096 + (b1 - 128) * 64 + (b2 - 128))
               <$> decode bs3
        else None
      | _ => None
      end
    else if in_range 240 244 b0 then
      match bs1 with
      | b1 :: b2 :: b3 :: bs4 =>
        if second_ok b0 b1 && is_cont b2 && is_cont b3
        then cons ((b0 - 240) * 262144 + (b1 - 128) * 4096
                   + (b2 - 128) * 64 + (b3 - 128))
               <$> decode bs4
        else None
      | _ => None
      end
    else None
  end.

(** [None] stands for [UnicodeEncodeError] (lone surrogate, or not a code
    point at all). *)
Definition encode_char (c : Z) : option bytes :=
  if in_range 0 127 c then Some [c]
  else if in_range 128 2047 c then Some [192 + c / 64; 128 + c mod 64]
  else if in_range 2048 65535 c then
    if in_range 55296 57343 c then None
    else Some [224 + c / 4096; 128 + (c / 64) mod 64; 128 + c mod 64]
  else if in_range 65536 1114111 c then
    Some [240 + c / 262144; 128 + (c / 4096) mod 64;
          128 + (c / 64) mod 64; 128 + c mod 64]
  else None.

Fixpoint encode (s : str) : option bytes :=
  match s with
  | [] => Some []
  | c :: s' =>
    match encode_char c, encode s' with
    | Some b, Some bs => Some (b ++ bs)
    | _, _ => None
    end
  end.

End Utf8.

(** ** Text files iterated with an empty [newline] argument

    Universal newlines without translation: a line ends after LF, after
    CR LF, or after a lone CR, and keeps its terminator. *)

Fixpoint readlines_from (cur : str) (t : str) : list str :=
  match t with
  | [] => match cur with [] => [] | _ => [cur] end
  | c :: t' =>
    if c =? LF then (cur ++ [c]) :: readlines_from [] t'
    else if c =? CR then
      match t' with
      | c' :: t'' =>
        if c' =? LF then (cur ++ [c; c']) :: readlines_from [] t''
        else (cur ++ [c]) :: readlines_from [] t'
      | [] => [cur ++ [c]]
      end
    else readlines_from (cur ++ [c]) t'
  end.

Definition readlines (t : str) : list str := readlines_from [] t.

(** ** The [_csv] reader, [excel] dialect

    The delimiter is the comma, the quotechar the double quote; doublequote
    is set; there is no escapechar and no skipinitialspace; the dialect is
    not strict and quoting is QUOTE_MINIMAL.  The three parser states
    that only an escapechar can enter are left out.  The reader is the one
    of CPython 3.11 and later, where a NUL character in a line is an
    ordinary character. *)

Module Csv.

Inductive ParserState :=
| START_RECORD | START_FIELD | IN_FIELD
| IN_QUOTED_FIELD | QUOTE_IN_QUOTED_FIELD | EAT_CRNL.

Global Instance ParserState_eq_dec : EqDecision ParserState.
Proof. solve_decision. Defined.

(** What [parse_process_char] is fed: a character of the line, or the
    end-of-line marker sent after each line. *)
Inductive input := Ch (c : Z) | EOL.

Record ReaderObj := mkReader {
  state : ParserState;
  fields : list str;   (* fields of the record being read *)
  field : str          (* characters of the field being read *)
}.

(** [csv.field_size_limit()], 128 KiB by default. *)
Definition field_limit : Z := 131072.

Definition field_len (self : ReaderObj) : Z := Z.of_nat (length (field self)).

Definition set_state (st : ParserState) (self : ReaderObj) : ReaderObj :=
  mkReader st (fields self) (field self).

Definition parse_reset : ReaderObj := mkReader START_RECORD [] [].

Definition parse_save_field (self : ReaderObj) : ReaderObj :=
  mkReader (state self) (fields self ++ [field self]) [].

(** [None] is "field larger than field limit". *)
Definition parse_add_char (self : ReaderObj) (c : Z) : option ReaderObj :=
  if field_limit <=? field_len self then None
  else Some (mkReader (state self) (fields self) (field self ++ [c])).

Definition is_newline (c : Z) : bool := (c =? LF) || (c =? CR).

(** End of a record: save the field, then wait for the next record (after
    the end-of-line marker) or swallow the rest of the terminator. *)
Definition end_of_line (self : ReaderObj) (c : input) : ReaderObj :=
  set_state (match c with EOL => START_RECORD | Ch _ => EAT_CRNL end)
            (parse_save_field self).

Definition start_field (self : ReaderObj) (c : input) : option ReaderObj :=
  match c with
  | EOL => Some (end_of_line self c)
  | Ch x =>
    if is_newline x then Some (end_of_line self c)
    else if x =? QUOTE then Some (set_state IN_QUOTED_FIELD self)
    else if x =? COMMA then Some (parse_save_field self)
    else set_state IN_FIELD <$> parse_add_char self x
  end.

(** [None] is a [csv.Error]. *)
Definition parse_process_char (self : ReaderObj) (c : input)
  : option ReaderObj :=
  match state self with
  | START_RECORD =>
    match c with
    | EOL => Some self
    | Ch x =>
      if is_newline x then Some (set_state EAT_CRNL self)
      else start_field (set_state START_FIELD self) c
    end
  | START_FIELD => start_field self c
  | IN_FIELD =>
    match c with
    | EOL => Some (end_of_line self c)
    | Ch x =>
      if is_newline x then Some (end_of_line self c)
      else if x =? COMMA
      then Some (set_state START_FIELD (parse_save_field self))
      else parse_add_char self x
    end
  | IN_QUOTED_FIELD =>
    match c with
    | EOL => Some self
    | Ch x =>
      if x =? QUOTE then Some (set_state QUOTE_IN_QUOTED_FIELD self)
      else parse_add_char self x
    end
  | QUOTE_IN_QUOTED_FIELD =>
    match c with
    | EOL => Some (end_of_line self c)
    | Ch x =>
      if x =? QUOTE then set_state IN_QUOTED_FIELD <$> parse_add_char self x
      else if x =? COMMA
      then Some (set_state START_FIELD (parse_save_field self))
      else if is_newline x then Some (end_of_line self c)
      else set_state IN_FIELD <$> parse_add_char self x
    end
  | EAT_CRNL =>
    match c with
    | EOL => Some (set_state START_RECORD self)
    | Ch x => if is_newline x then Some self else None
    end
  end.

(** One line of input: its characters, then the end-of-line marker. *)
Fixpoint process_chars (self : ReaderObj) (cs : str) : option ReaderObj :=
  match cs with
  | [] => Some self
  | c :: cs' =>
    match parse_process_char self (Ch c) with
    | Some self' => process_chars self' cs'
    | None => None
    end
  end.

Definition process_line (self : ReaderObj) (line : str) : option ReaderObj :=
  match process_chars self line with
  | Some self' => parse_process_char self' EOL
  | None => None
  end.

(** How the iteration over the reader ends. *)
Inductive ending := StopIteration | Error.

(** The rows that successive [next(reader)] calls return ([Reader_iternext]),
    and how the iteration ends.  A record is complete when the parser is back
    in [START_RECORD] after a line; the parser is reset before each record.
    When the lines run out inside a record, the pending field is saved and
    the record returned (the dialect is not strict). *)
Fixpoint Reader_rows (self : ReaderObj) (lines : list str)
  : list (list str) * ending :=
  match lines with
  | [] =>
    if (negb (field_len self =? 0)) || bool_decide (state self = IN_QUOTED_FIELD)
    then ([fields (parse_save_field self)], StopIteration)
    else ([], StopIteration)
  | line :: lines' =>
    match process_line self line with
    | None => ([], Error)
    | Some self' =>
      if bool_decide (state self' = START_RECORD)
      then let (rows, e) := Reader_rows parse_reset lines' in
           (fields self' :: rows, e)
      else Reader_rows self' lines'
    end
  end.

Definition reader (lines : list str) : list (list str) * ending :=
  Reader_rows parse_reset lines.

(** What holds of every character the parser has stored. *)
Definition holds (P : Z -> Prop) (self : ReaderObj) : Prop :=
  Forall (Forall P) (fields self) /\ Forall P (field self).

End Csv.

(** ** Python values that the script builds

    A row dictionary has [str] keys plus possibly the key [None]; its values
    are [str], [None] or a list of [str].  A [dict] keeps insertion order, so
    it is an association list with distinct keys: assigning to a key that is
    present replaces the value in place, a new key goes to the end. *)

Inductive key := KStr (s : str) | KNone.
Inductive value := VStr (s : str) | VNone | VList (l : list str).

Global Instance key_eq_dec : EqDecision key.
Proof. solve_decision. Defined.
Global Instance value_eq_dec : EqDecision value.
Proof. solve_decision. Defined.

Abbreviation pydict := (list (key * value)) (only parsing).

Fixpoint dict_setitem (d : pydict) (k : key) (v : value) : pydict :=
  match d with
  | [] => [(k, v)]
  | (k', v') :: d' =>
    if decide (k' = k) then (k', v) :: d'
    else (k', v') :: dict_setitem d' k v
  end.

Fixpoint dict_getitem (d : pydict) (k : key) : option value :=
  match d with
  | [] => None
  | (k', v') :: d' => if decide (k' = k) then Some v' else dict_getitem d' k
  end.

Definition dict_keys (d : pydict) : list key := fst <$> d.

(** [dict(pairs)] *)
Definition dict (pairs : list (key * value)) : pydict :=
  foldl (fun d kv => dict_setitem d (fst kv) (snd kv)) [] pairs.

(** Assigning a run of pairs, one after the other, to a dictionary. *)
Definition update (d : list (key * value)) (pairs : list (key * value))
  : list (key * value) :=
  foldl (fun d kv => dict_setitem d (fst kv) (snd kv)) d pairs.

(** What holds of every character stored in a dictionary. *)
Definition key_chars (P : Z -> Prop) (k : key) : Prop :=
  match k with KStr s => Forall P s | KNone => True end.
Definition value_chars (P : Z -> Prop) (v : value) : Prop :=
  match v with
  | VStr s => Forall P s
  | VNone => True
  | VList l => Forall (Forall P) l
  end.
Definition dict_chars (P : Z -> Prop) (d : list (key * value)) : Prop :=
  Forall (fun kv => key_chars P kv.1 /\ value_chars P kv.2) d.

(** ** [csv.DictReader] with its defaults ([restkey=None], [restval=None]) *)

Module DictReader.

Definition restkey : key := KNone.
Definition restval : value := VNone.

(** The body of [__next__] once a non-empty row has been read. *)
Definition row_to_dict (fieldnames row : list str) : pydict :=
  let d := dict (zip (KStr <$> fieldnames) (VStr <$> row)) in
  let lf := length fieldnames in
  let lr := length row in
  if (lf <? lr)%nat then dict_setitem d restkey (VList (drop lf row))
  else if (lr <? lf)%nat then
    foldl (fun d k => dict_setitem d (KStr k) restval) d (drop lr fieldnames)
  else d.

(** The dictionaries that successive [__next__] calls return over the rows
    left in the reader: empty rows are passed over. *)
Fixpoint records (fieldnames : list str) (rows : list (list str))
  : list pydict :=
  match rows with
  | [] => []
  | [] :: rows' => records fieldnames rows'
  | row :: rows' => row_to_dict fieldnames row :: records fieldnames rows'
  end.

(** [[row for row in csv.DictReader(f)]].  The first row of the reader is
    taken as [fieldnames], whatever it holds; with no row at all
    [fieldnames] stays [None] and the iteration stops at once.  [None] is a
    [csv.Error] raised on the way. *)
Definition read_all (lines : list str) : option (list pydict) :=
  match Csv.reader lines with
  | (_, Csv.Error) => None
  | ([], Csv.StopIteration) => Some []
  | (fieldnames :: rows, Csv.StopIteration) => Some (records fieldnames rows)
  end.

(** The pairs that [zip(fieldnames, row)] yields. *)
Definition zipped (fieldnames row : list (list Z)) : list (key * value) :=
  zip (KStr <$> fieldnames) (VStr <$> row).

(** The assignments of the loop over [fieldnames[lr:]]. *)
Definition filled (fieldnames row : list (list Z)) : list (key * value) :=
  (fun k => (KStr k, restval)) <$> drop (length row) fieldnames.

End DictReader.

(** ** [json.dump(data, f, ensure_ascii=False, indent=2)] *)

Module Json.

Definition hex_digit (n : Z) : Z := if n <? 10 then 48 + n else 87 + n.

(** The replacement of a character that the [ESCAPE] pattern matches;
    [None] for a character it does not match. *)
Definition ESCAPE_DCT (c : Z) : option str :=
  if c =? BACKSLASH then Some [BACKSLASH; BACKSLASH]
  else if c =? QUOTE then Some [BACKSLASH; QUOTE]
  else if c =? 8 then Some (lit "\b")
  else if c =? 12 then Some (lit "\f")
  else if c =? LF then Some (lit "\n")
  else if c =? CR then Some (lit "\r")
  else if c =? 9 then Some (lit "\t")
  else if (0 <=? c) && (c <? 32)
  then Some (lit "\u00" ++ [hex_digit (c / 16); hex_digit (c mod 16)])
  else None.

Definition replace (c : Z) : str := default [c] (ESCAPE_DCT c).

Definition py_encode_basestring (s : str) : str :=
  [QUOTE] ++ mbind (M := list) replace s ++ [QUOTE].

Definition item_separator : str := lit ",".
Definition key_separator : str := lit ": ".

(** ['\n' + _indent * _current_indent_level] with [_indent = ' ' * 2] *)
Definition newline_indent (level : nat) : str :=
  LF :: concat (replicate level (lit "  ")).

(** The chunks of a non-empty container body: the first item as it is, each
    later one after the separator. *)
Fixpoint separated (separator : str) (items : list str) : str :=
  match items with
  | [] => []
  | [x] => x
  | x :: items' => x ++ separator ++ separated separator items'
  end.

(** [_iterencode_list]; [item v level] is what the loop body yields for the
    element [v]. *)
Definition iterencode_list {A} (item : A -> nat -> str)
    (lst : list A) (level : nat) : str :=
  match lst with
  | [] => lit "[]"
  | _ =>
    let level' := S level in
    lit "[" ++ newline_indent level'
      ++ separated (item_separator ++ newline_indent level')
                   ((fun v => item v level') <$> lst)
      ++ newline_indent level ++ lit "]"
  end.

Definition iterencode_str (s : str) (level : nat) : str :=
  py_encode_basestring s.

Definition iterencode_value (v : value) (level : nat) : str :=
  match v with
  | VStr s => py_encode_basestring s
  | VNone => lit "null"
  | VList l => iterencode_list iterencode_str l level
  end.

(** A key that is [None] is written as the string [null]. *)
Definition key_text (k : key) : str :=
  match k with KStr s => s | KNone => lit "null" end.

Definition iterencode_item (kv : key * value) (level : nat) : str :=
  py_encode_basestring (key_text (fst kv)) ++ key_separator
    ++ iterencode_value (snd kv) level.

(** [_iterencode_dict] *)
Definition iterencode_dict (dct : pydict) (level : nat) : str :=
  match dct with
  | [] => lit "{}"
  | _ =>
    let level' := S level in
    lit "{" ++ newline_indent level'
      ++ separated (item_separator ++ newline_indent level')
                   ((fun kv => iterencode_item kv level') <$> dct)
      ++ newline_indent level ++ lit "}"
  end.

(** The whole text that [json.dump] writes for a list of dictionaries. *)
Definition dumps (data : list pydict) : str :=
  iterencode_list iterencode_dict data 0.

End Json.

(** ** The world the script runs in

    A path leads to a place, or nowhere.  A place is a file or a directory
    that exists, or a free entry of a directory, where a file can be
    created.  Two paths that lead to the same place name the same file: one
    name written in two ways, a symbolic link and its target, two hard
    links.  A path leads nowhere when it is empty or when a directory on the
    way is missing.  The script creates no directory and no link, so where
    the paths lead is the same before and after a run.

    The process may or may not be allowed to read or to write a place, and
    the encoding of standard output can write some characters and not
    others. *)

Abbreviation place := N (only parsing).

Inductive node := File (content : bytes) | Dir.

Record world := mkWorld {
  resolve : str -> option place;  (* where a path leads *)
  fs : gmap place node;           (* what is at a place *)
  may_read : place -> bool;       (* opening it for reading is allowed *)
  may_write : place -> bool;      (* opening or creating it for writing is *)
  console : Z -> bool;            (* the characters that stdout can encode *)
  stdout : list str               (* one entry per [print] call *)
}.

(** What a path holds: a file, a directory or nothing. *)
Definition at_path (w : world) (path : str) : option node :=
  match resolve w path with
  | Some l => fs w !! l
  | None => None
  end.

(** The world after a file was created or overwritten at a place. *)
Definition with_file (w : world) (l : place) (content : bytes) : world :=
  mkWorld (resolve w) (<[l := File content]> (fs w))
          (may_read w) (may_write w) (console w) (stdout w).

(** The world after a line was printed. *)
Definition with_line (w : world) (msg : str) : world :=
  mkWorld (resolve w) (fs w) (may_read w) (may_write w) (console w)
          (stdout w ++ [msg]).

(** Where an exception that nobody catches comes from. *)
Inductive failure :=
| Printing         (* [print] raised [UnicodeEncodeError] *)
| OpenForReading   (* [open(csv_file, ...)] raised *)
| Reading          (* decoding or [csv.Error] inside the first [with] *)
| OpenForWriting   (* [open(json_file, "w", ...)] raised *)
| Writing.         (* encoding inside the second [with] *)

(** A computation changes the world and returns a value or raises. *)
Definition M (A : Type) : Type := world -> (failure + A) * world.

Definition ret {A} (a : A) : M A := fun w => (inr a, w).
Definition bind {A B} (m : M A) (k : A -> M B) : M B :=
  fun w =>
    match m w with
    | (inr a, w') => k a w'
    | (inl e, w') => (inl e, w')
    end.

Global Instance M_ret : MRet M := @ret.
Global Instance M_bind : MBind M := fun A B k m => bind m k.

(** [os.path.exists] *)
Definition os_path_exists (path : str) : M bool :=
  fun w => (inr (bool_decide (is_Some (at_path w path))), w).

(** Standard output can encode every character of the message.  The line
    feed that [print] adds is in every encoding. *)
Definition can_print (w : world) (msg : str) : bool :=
  forallb (console w) msg.

(** [print(msg)]: the message is encoded as a whole before any of it is
    written. *)
Definition print (msg : str) : M unit :=
  fun w =>
    if can_print w msg then (inr tt, with_line w msg)
    else (inl Printing, w).

(** What the first [with] block computes from the bytes of the file: the
    text is decoded and the list comprehension runs over
    [csv.DictReader(f)].  [None] is an exception on the way
    ([UnicodeDecodeError] or [csv.Error]). *)
Definition load (content : bytes) : option (list (list (key * value))) :=
  match Utf8.decode content with
  | Some text => DictReader.read_all (readlines text)
  | None => None
  end.

(** [open(path, ...)] for reading gives the bytes of a file that is there
    and may be read; [None] is [OSError]. *)
Definition open_read (w : world) (path : str) : option bytes :=
  match resolve w path with
  | Some l =>
    match fs w !! l with
    | Some (File content) => if may_read w l then Some content else None
    | _ => None
    end
  | None => None
  end.

(** [open(path, "w", ...)] gives the place that will be written: the path
    leads somewhere, no directory is there and writing is allowed; [None]
    is [OSError]. *)
Definition open_write (w : world) (path : str) : option place :=
  match resolve w path with
  | Some l =>
    match fs w !! l with
    | Some Dir => None
    | _ => if may_write w l then Some l else None
    end
  | None => None
  end.

(** The first [with] block: [open] for reading, then [load]. *)
Definition read_csv (path : str) : M (list (list (key * value))) :=
  fun w =>
    match open_read w path with
    | Some content =>
      match load content with
      | Some data => (inr data, w)
      | None => (inl Reading, w)
      end
    | None => (inl OpenForReading, w)
    end.

(** [with open(path, "w", encoding="utf-8") as f: json.dump(data, f, ...)].
    Opening creates the file or truncates it.  The last branch leaves the
    file empty; [load_encodable] shows it is never taken for what [read_csv]
    returns. *)
Definition write_json (path : str) (data : list pydict) : M unit :=
  fun w =>
    match open_write w path with
    | Some l =>
      match Utf8.encode (Json.dumps data) with
      | Some content => (inr tt, with_file w l content)
      | None => (inl Writing, with_file w l [])
      end
    | None => (inl OpenForWriting, w)
    end.

(** [str(n)] for a length *)
Definition str_of_nat (n : nat) : str :=
  lit (DecimalString.NilEmpty.string_of_uint (Nat.to_uint n)).

(** ** The script *)

Definition CSV_FILE : str := lit "marketdata.csv".
Definition JSON_FILE : str := lit "marketdata.json".

Definition not_found_message (csv_file : str) : str :=
  lit "ERROR: CSV file not found: " ++ csv_file.

(** U+2705, then the text, with U+2192 between the two quoted paths. *)
Definition converted_message (n : nat) (csv_file json_file : str) : str :=
  [9989] ++ lit " Converted " ++ str_of_nat n ++ lit " rows from '"
    ++ csv_file ++ lit "' " ++ [8594] ++ lit " '" ++ json_file ++ lit "'".

Definition csv_to_json (csv_file json_file : str) : M Z :=
  found ← os_path_exists csv_file;
  if negb found then
    print (not_found_message csv_file);;
    mret 1
  else
    data ← read_csv csv_file;
    write_json json_file data;;
    print (converted_message (length data) csv_file json_file);;
    mret 0.

(** The [__main__] block; the exit code goes to [sys.exit]. *)
Definition main : M Z := csv_to_json CSV_FILE JSON_FILE.

(** ** Vocabulary of the specification *)

(** The content is UTF-8 text which the reader splits, without error, into a
    header row and data rows. *)
Definition parses (content : bytes) (fieldnames : list (list Z))
    (rows : list (list (list Z))) : Prop :=
  exists text,
    Utf8.decode content = Some text /\
    Csv.reader (readlines text) = (fieldnames :: rows, Csv.StopIteration).

(** The input path can be opened for reading, and what is read is a table
    with this header and these rows. *)
Definition input_file (csv_file : str) (w : world)
    (fieldnames : list (list Z)) (rows : list (list (list Z))) : Prop :=
  exists content,
    open_read w csv_file = Some content /\ parses content fieldnames rows.

(** Opening the output for writing succeeds. *)
Definition writable (json_file : str) (w : world) : Prop :=
  is_Some (open_write w json_file).

(** Standard output can show the report of a conversion, whatever the
    count. *)
Definition reports (csv_file json_file : str) (w : world) : Prop :=
  forall n, can_print w (converted_message n csv_file json_file) = true.

(** The run succeeds with the dataset [data]: the first [with] block read
    [data] from the input file, the exit code is 0, the place to which the
    output path leads holds the UTF-8 bytes of the JSON text of [data],
    nothing else changed on disk and one line was printed. *)
Definition converted (csv_file json_file : str) (w : world)
    (data : list (list (key * value))) : Prop :=
  exists content out l,
    open_read w csv_file = Some content /\
    load content = Some data /\
    Utf8.encode (Json.dumps data) = Some out /\
    open_write w json_file = Some l /\
    csv_to_json csv_file json_file w
    = (inr 0,
       with_line (with_file w l out)
                 (converted_message (length data) csv_file json_file)).

(** The value of a dictionary entry is a string. *)
Definition is_str (kv : key * value) : Prop := exists s, kv.2 = VStr s.

(** Characters that [py_encode_basestring] leaves as they are. *)
Definition plain (c : Z) : Prop := 32 <= c /\ c <> QUOTE /\ c <> BACKSLASH.

(** A sample directory.  The input of the script has two names, the output
    of the script is a free entry, and there is a third name. *)
Definition sample_names : list (str * N) :=
  [ (CSV_FILE, 1%N); (lit "./marketdata.csv", 1%N); (JSON_FILE, 2%N);
    (lit "notes.txt", 3%N) ].

Fixpoint lookup_name (names : list (str * N)) (path : str) : option N :=
  match names with
  | [] => None
  | (name, l) :: names' =>
    if decide (name = path) then Some l else lookup_name names' path
  end.

(** A world with a single file, under the script's input name; everything
    may be read and written, and standard output encodes every character. *)
Definition only_input (content : bytes) : world :=
  mkWorld (lookup_name sample_names) {[ 1%N := File content ]}
          (fun _ => true) (fun _ => true) (fun _ => true) [].

(** The same with a standard output that encodes ASCII only. *)
Definition ascii_console (w : world) : world :=
  mkWorld (resolve w) (fs w) (may_read w) (may_write w)
          (fun c => (0 <=? c) && (c <? 128)) (stdout w).

(** The key set of a record is the set of header fields. *)
Definition same_keys (fieldnames : list (list Z)) (d : list (key * value))
  : Prop :=
  forall k, k ∈ dict_keys d <-> k ∈ KStr <$> fieldnames.

(** CSV text as a writer with no quoting produces it: cells joined by commas,
    one line per row, each ended by LF.  Cells hold no comma, quote or line
    end and are within the field limit; a row has at least one cell and is
    not a single empty cell, which would make a blank line. *)

(** A character of an unquoted cell. *)
Definition cell_char (c : Z) : Prop :=
  c <> COMMA /\ c <> QUOTE /\ c <> LF /\ c <> CR.

Definition simple_cell (cell : list Z) : Prop :=
  Forall cell_char cell /\ (Z.of_nat (length cell) <= Csv.field_limit).

(** A row of simple cells that does not make a blank line. *)
Definition simple_row (row : list (list Z)) : Prop :=
  Forall simple_cell row /\ row <> [] /\ row <> [[]].

Fixpoint join_cells (row : list (list Z)) : list Z :=
  match row with
  | [] => []
  | [cell] => cell
  | cell :: row' => cell ++ [COMMA] ++ join_cells row'
  end.

Definition write_row (row : list (list Z)) : list Z := join_cells row ++ [LF].

Definition write_rows (rows : list (list (list Z))) : list Z :=
  concat (write_row <$> rows).

(** Sample inputs.  The second data row of [sample_csv] starts with the
    word "caf" followed by U+00E9, two bytes in UTF-8. *)
Definition sample_csv : bytes :=
  lit "symbol,price" ++ [LF] ++ lit "AAPL,$189.50" ++ [LF]
    ++ lit "caf" ++ [195; 169] ++ lit ", 7 " ++ [LF].
Definition sample_fieldnames : list (list Z) := [lit "symbol"; lit "price"].
Definition sample_rows : list (list (list Z)) :=
  [[lit "AAPL"; lit "$189.50"]; [lit "caf" ++ [233]; lit " 7 "]].

(** A data row with fewer cells than the header, and one with more. *)
Definition short_csv : bytes := lit "a,b,c" ++ [LF] ++ lit "1" ++ [LF].
Definition long_csv : bytes := lit "a,b" ++ [LF] ++ lit "1,2,3" ++ [LF].

(** Every way a run can go. *)
Inductive csv_to_json_spec (csv_file json_file : str) (w : world)
  : (failure + Z) * world -> Prop :=
| run_not_found :
    at_path w csv_file = None ->
    can_print w (not_found_message csv_file) = true ->
    csv_to_json_spec csv_file json_file w
      (inr 1, with_line w (not_found_message csv_file))
| run_not_found_silent :
    at_path w csv_file = None ->
    can_print w (not_found_message csv_file) = false ->
    csv_to_json_spec csv_file json_file w (inl Printing, w)
| run_open_for_reading :
    at_path w csv_file <> None ->
    open_read w csv_file = None ->
    csv_to_json_spec csv_file json_file w (inl OpenForReading, w)
| run_reading content :
    open_read w csv_file = Some content ->
    load content = None ->
    csv_to_json_spec csv_file json_file w (inl Reading, w)
| run_open_for_writing content data :
    open_read w csv_file = Some content ->
    load content = Some data ->
    open_write w json_file = None ->
    csv_to_json_spec csv_file json_file w (inl OpenForWriting, w)
| run_converted content data l out :
    open_read w csv_file = Some content ->
    load content = Some data ->
    open_write w json_file = Some l ->
    Utf8.encode (Json.dumps data) = Some out ->
    can_print w (converted_message (length data) csv_file json_file)
    = true ->
    csv_to_json_spec csv_file json_file w
      (inr 0,
       with_line (with_file w l out)
                 (converted_message (length data) csv_file json_file))
| run_converted_silent content data l out :
    open_read w csv_file = Some content ->
    load content = Some data ->
    open_write w json_file = Some l ->
    Utf8.encode (Json.dumps data) = Some out ->
    can_print w (converted_message (length data) csv_file json_file)
    = false ->
    csv_to_json_spec csv_file json_file w
      (inl Printing, with_file w l out).

(** ** Further sample inputs *)

(** A header in which the field [a] occurs twice. *)
Definition dup_csv : bytes := lit "a,b,a" ++ [LF] ++ lit "1,2,3" ++ [LF].

(** A header with a field called [null], and a data row that is too long. *)
Definition null_csv : bytes := lit "id,null" ++ [LF] ++ lit "1,2,3" ++ [LF].

(** ** Reading a JSON string body back

    The inverse of the replacements of [py_encode_basestring], as a JSON
    reader undoes them: a backslash starts an escape, any other character
    stands for itself.  [None] is an escape that the encoder never writes.
    It serves to show that the encoder loses nothing. *)

Module JsonText.

Definition unhex (d : Z) : option Z :=
  if (48 <=? d) && (d <=? 57) then Some (d - 48)
  else if (97 <=? d) && (d <=? 102) then Some (d - 87)
  else None.

Fixpoint unescape (s : list Z) : option (list Z) :=
  match s with
  | [] => Some []
  | c :: s1 =>
    if c =? BACKSLASH then
      match s1 with
      | e :: s2 =>
        if e =? BACKSLASH then cons BACKSLASH <$> unescape s2
        else if e =? QUOTE then cons QUOTE <$> unescape s2
        else if e =? 98 then cons 8 <$> unescape s2
        else if e =? 102 then cons 12 <$> unescape s2
        else if e =? 110 then cons LF <$> unescape s2
        else if e =? 114 then cons CR <$> unescape s2
        else if e =? 116 then cons 9 <$> unescape s2
        else if e =? 117 then
          match s2 with
          | z1 :: z2 :: h1 :: h2 :: s3 =>
            match unhex h1, unhex h2 with
            | Some x, Some y =>
              if (z1 =? 48) && (z2 =? 48)
              then cons (16 * x + y) <$> unescape s3
              else None
            | _, _ => None
            end
          | _ => None
          end
        else None
      | [] => None
      end
    else cons c <$> unescape s1
  end.

(** *** Reading a JSON text

    A reader for the JSON texts that are made of strings, [null], arrays
    and objects, written from the grammar of JSON: white space between the
    tokens, a string between two quotes with its escapes and no control
    character, the items of an array and the members of an object separated
    by commas.  The members of an object are kept in the order of the text,
    a name that occurs twice is kept twice.  Numbers and the two booleans,
    which the script never writes, are not read. *)

Unset Elimination Schemes.
Inductive json :=
| JNull
| JString (s : list Z)
| JArray (items : list json)
| JObject (members : list (list Z * json)).
Set Elimination Schemes.

Definition is_ws (c : Z) : bool :=
  (c =? 32) || (c =? 9) || (c =? LF) || (c =? CR).

Fixpoint skip_ws (t : list Z) : list Z :=
  match t with
  | c :: t' => if is_ws c then skip_ws t' else t
  | [] => []
  end.

(** A hexadecimal digit, in either case. *)
Definition hex (d : Z) : option Z :=
  if (48 <=? d) && (d <=? 57) then Some (d - 48)
  else if (97 <=? d) && (d <=? 102) then Some (d - 87)
  else if (65 <=? d) && (d <=? 70) then Some (d - 55)
  else None.

(** The character that stands after the backslash of a short escape. *)
Definition escaped (e : Z) : option Z :=
  if e =? QUOTE then Some QUOTE
  else if e =? BACKSLASH then Some BACKSLASH
  else if e =? 47 then Some 47
  else if e =? 98 then Some 8
  else if e =? 102 then Some 12
  else if e =? 110 then Some LF
  else if e =? 114 then Some CR
  else if e =? 116 then Some 9
  else None.

(** The rest of a string after its opening quote: the characters it stands
    for, and the text after the closing quote.  An escape with four
    hexadecimal digits stands for that code; the codes of surrogates, which
    come in pairs, are not read. *)
Fixpoint read_string (t : list Z) : option (list Z * list Z) :=
  match t with
  | [] => None
  | c :: t1 =>
    if c =? QUOTE then Some ([], t1)
    else if c =? BACKSLASH then
      match t1 with
      | [] => None
      | e :: t2 =>
        if e =? 117 then
          match t2 with
          | h1 :: h2 :: h3 :: h4 :: t3 =>
            match hex h1, hex h2, hex h3, hex h4 with
            | Some a, Some b, Some x, Some y =>
              let code := 4096 * a + 256 * b + 16 * x + y in
              if (55296 <=? code) && (code <=? 57343) then None
              else
                match read_string t3 with
                | Some (s, r) => Some (code :: s, r)
                | None => None
                end
            | _, _, _, _ => None
            end
          | _ => None
          end
        else
          match escaped e with
          | Some x =>
            match read_string t2 with
            | Some (s, r) => Some (x :: s, r)
            | None => None
            end
          | None => None
          end
      end
    else if c <? 32 then None
    else
      match read_string t1 with
      | Some (s, r) => Some (c :: s, r)
      | None => None
      end
  end.

(** A value, the items of an array after its opening bracket, and the
    members of an object after its opening brace, each with the text that
    follows.  The first argument bounds the number of nested calls. *)
Fixpoint read_value (fuel : nat) (t : list Z) {struct fuel}
  : option (json * list Z) :=
  match fuel with
  | O => None
  | S fuel' =>
    match skip_ws t with
    | [] => None
    | c :: t1 =>
      if c =? QUOTE then
        match read_string t1 with
        | Some (s, r) => Some (JString s, r)
        | None => None
        end
      else if c =? 110 then
        match t1 with
        | c1 :: c2 :: c3 :: r =>
          if (c1 =? 117) && (c2 =? 108) && (c3 =? 108)
          then Some (JNull, r) else None
        | _ => None
        end
      else if c =? 91 then
        match skip_ws t1 with
        | [] => None
        | c' :: r =>
          if c' =? 93 then Some (JArray [], r)
          else
            match read_items fuel' t1 with
            | Some (vs, r') => Some (JArray vs, r')
            | None => None
            end
        end
      else if c =? 123 then
        match skip_ws t1 with
        | [] => None
        | c' :: r =>
          if c' =? 125 then Some (JObject [], r)
          else
            match read_members fuel' t1 with
            | Some (ms, r') => Some (JObject ms, r')
            | None => None
            end
        end
      else None
    end
  end
with read_items (fuel : nat) (t : list Z) {struct fuel}
  : option (list json * list Z) :=
  match fuel with
  | O => None
  | S fuel' =>
    match read_value fuel' t with
    | None => None
    | Some (v, r) =>
      match skip_ws r with
      | [] => None
      | c :: r1 =>
        if c =? COMMA then
          match read_items fuel' r1 with
          | Some (vs, r2) => Some (v :: vs, r2)
          | None => None
          end
        else if c =? 93 then Some ([v], r1)
        else None
      end
    end
  end
with read_members (fuel : nat) (t : list Z) {struct fuel}
  : option (list (list Z * json) * list Z) :=
  match fuel with
  | O => None
  | S fuel' =>
    match skip_ws t with
    | [] => None
    | q :: t1 =>
      if q =? QUOTE then
        match read_string t1 with
        | None => None
        | Some (name, r) =>
          match skip_ws r with
          | [] => None
          | c :: r1 =>
            if c =? 58 then
              match read_value fuel' r1 with
              | None => None
              | Some (v, r2) =>
                match skip_ws r2 with
                | [] => None
                | c' :: r3 =>
                  if c' =? COMMA then
                    match read_members fuel' r3 with
                    | Some (ms, r4) => Some ((name, v) :: ms, r4)
                    | None => None
                    end
                  else if c' =? 125 then Some ([(name, v)], r3)
                  else None
                end
              end
            else None
          end
        end
      else None
    end
  end.

(** A whole text: one value, then nothing but white space.  The length of
    the text is given as the bound on the nested calls; [read_dumps] shows
    that it is enough for every text that the script writes. *)
Definition read (t : list Z) : option json :=
  match read_value (length t) t with
  | Some (v, r) => match skip_ws r with [] => Some v | _ => None end
  | None => None
  end.

(** The JSON value that a Python value of the script stands for: a string
    for [str], [null] for [None], an array for a list; an object for a
    dictionary, the key [None] giving the member name [null]. *)
Definition of_value (v : value) : json :=
  match v with
  | VStr s => JString s
  | VNone => JNull
  | VList l => JArray (JString <$> l)
  end.

Definition member_name (k : key) : list Z :=
  match k with KStr s => s | KNone => [110; 117; 108; 108] end.

Definition of_dict (d : list (key * value)) : json :=
  JObject ((fun kv => (member_name kv.1, of_value kv.2)) <$> d).

Definition of_data (data : list (list (key * value))) : json :=
  JArray (of_dict <$> data).

End JsonText.

(** ** Written files, in general

    A cell is written as it is or between quotes with its quotes doubled; a
    row ends with LF or with CR LF; a row without cells is a blank line.  A
    cell written as it is holds no comma, quote or line break; a quoted cell
    may hold any character, line breaks included, so that a row may run over
    several lines.  The one row left out is the single empty unquoted cell,
    which would be written as a blank line. *)

Module Written.

Inductive cell := Plain (s : list Z) | Quoted (s : list Z).

Definition cell_text (c : cell) : list Z :=
  match c with Plain s => s | Quoted s => s end.

Definition double_quotes (s : list Z) : list Z :=
  s ≫= (fun c => if c =? QUOTE then [QUOTE; QUOTE] else [c]).

Definition cell_source (c : cell) : list Z :=
  match c with
  | Plain s => s
  | Quoted s => [QUOTE] ++ double_quotes s ++ [QUOTE]
  end.

Inductive line_end := Unix | Dos.

Definition line_end_text (e : line_end) : list Z :=
  match e with Unix => [LF] | Dos => [CR; LF] end.

Record row := mkRow { cells : list cell; ending : line_end }.

Definition row_texts (r : row) : list (list Z) := cell_text <$> cells r.

Definition row_source (r : row) : list Z :=
  join_cells (cell_source <$> cells r) ++ line_end_text (ending r).

Definition file_source (rows : list row) : list Z :=
  concat (row_source <$> rows).

Definition no_line_break (c : Z) : Prop := c <> LF /\ c <> CR.

Definition well_written_cell (c : cell) : Prop :=
  match c with
  | Plain s => simple_cell s
  | Quoted s => Z.of_nat (length s) <= Csv.field_limit
  end.

Definition well_written (r : row) : Prop :=
  Forall well_written_cell (cells r) /\ cells r <> [Plain []].

(** The parser state in which the last character of a written cell leaves
    the reader. *)
Definition state_after (c : cell) : Csv.ParserState :=
  match c with
  | Plain [] => Csv.START_FIELD
  | Plain _ => Csv.IN_FIELD
  | Quoted _ => Csv.QUOTE_IN_QUOTED_FIELD
  end.

End Written.

(** Two ways to write the same table: cells as they are where that is
    possible and LF after each row; or cells in quotes, CR LF after each row
    and blank lines.  The last cell holds a comma, a quote and a line
    break. *)
Definition table_odd_cell : list Z :=
  lit "a,b " ++ [QUOTE] ++ lit "c" ++ [QUOTE; CR; LF] ++ lit "d".
Definition table_plain_header : Written.row :=
  Written.mkRow [Written.Plain (lit "name"); Written.Plain (lit "note")]
                Written.Unix.
Definition table_plain_rows : list Written.row :=
  [ Written.mkRow [Written.Plain (lit "Ann"); Written.Plain (lit " x ")]
                  Written.Unix;
    Written.mkRow [Written.Plain (lit "Bob"); Written.Quoted table_odd_cell]
                  Written.Unix ].
Definition table_quoted_header : Written.row :=
  Written.mkRow [Written.Quoted (lit "name"); Written.Plain (lit "note")]
                Written.Dos.
Definition table_quoted_rows : list Written.row :=
  [ Written.mkRow [] Written.Dos;
    Written.mkRow [Written.Quoted (lit "Ann"); Written.Quoted (lit " x ")]
                  Written.Dos;
    Written.mkRow [] Written.Unix;
    Written.mkRow [Written.Quoted (lit "Bob"); Written.Quoted table_odd_cell]
                  Written.Dos ].

(** A character that ends a line. *)
Definition line_break (c : Z) : Prop := c = LF \/ c = CR.

(** The byte order mark U+FEFF and its three bytes in UTF-8. *)
Definition BOM : Z := 65279.
Definition BOM_bytes : list Z := [239; 187; 191].

(** What the layout of the output is made of: a visible character (or a
    byte of one), or the line feed of the indentation. *)
Definition visible_or_lf (c : Z) : Prop := 32 <= c \/ c = LF.

(** No decoded character is negative. *)
Definition zero_up (c : Z) : Prop := 0 <= c.

(** A quoted cell that holds a tab, a line feed and the control character
    U+0001. *)
Definition control_csv : list Z :=
  lit "a" ++ [LF] ++ [QUOTE] ++ lit "x" ++ [9; LF; 1] ++ lit "y"
    ++ [QUOTE; LF].

(** The last line of a file in which a quote is opened and never closed:
    some written cells, each followed by a comma, then the quote and the
    text [s] up to the end of the file. *)
Definition unclosed_source (cs : list Written.cell) (s : list Z) : list Z :=
  concat ((fun c => Written.cell_source c ++ [COMMA]) <$> cs) ++ QUOTE :: s.

(** A file whose second data row opens a quote that is never closed. *)
Definition unclosed_csv : list Z :=
  lit "a,b" ++ [LF] ++ lit "1,2" ++ [LF] ++ lit "3," ++ [QUOTE]
    ++ lit "4" ++ [LF] ++ lit "5,6" ++ [LF].

(** After the run the output path holds a file whose bytes are UTF-8 for a
    JSON text, and that text reads as the array of these values. *)
Definition output_reads (csv_file json_file : str) (w : world)
    (objects : list JsonText.json) : Prop :=
  exists out text,
    at_path (csv_to_json csv_file json_file w).2 json_file
    = Some (File out) /\
    Utf8.decode out = Some text /\
    JsonText.read text = Some (JsonText.JArray objects).

(** * Properties *)

(** ** Boolean tests on integers, as propositions *)

Ltac bool_to_prop :=
  repeat match goal with
  | H : _ && _ = true |- _ => apply andb_true_iff in H; destruct H
  | H : _ && _ = false |- _ => apply andb_false_iff in H; destruct H
  | H : _ || _ = false |- _ => apply orb_false_iff in H; destruct H
  | H : (_ <=? _) = true |- _ => apply Z.leb_le in H
  | H : (_ <=? _) = false |- _ => apply Z.leb_gt in H
  | H : (_ <? _) = true |- _ => apply Z.ltb_lt in H
  | H : (_ <? _) = false |- _ => apply Z.ltb_ge in H
  | H : (_ =? _) = true |- _ => apply Z.eqb_eq in H
  | H : (_ =? _) = false |- _ => apply Z.eqb_neq in H
  end.

(** ** The codec *)

Module Utf8Facts.
Import Utf8.

Lemma second_ok_3 b0 b1 b2 :
  in_range 224 239 b0 = true -> second_ok b0 b1 = true ->
  is_cont b2 = true ->
  scalar ((b0 - 224) * 4096 + (b1 - 128) * 64 + (b2 - 128)).
Proof.
  unfold second_ok, is_cont, in_range, scalar. intros H0 H1 H2.
  repeat case_match; bool_to_prop; lia.
Qed.

Lemma second_ok_4 b0 b1 b2 b3 :
  in_range 240 244 b0 = true -> second_ok b0 b1 = true ->
  is_cont b2 = true -> is_cont b3 = true ->
  scalar ((b0 - 240) * 262144 + (b1 - 128) * 4096
          + (b2 - 128) * 64 + (b3 - 128)).
Proof.
  unfold second_ok, is_cont, in_range, scalar. intros H0 H1 H2 H3.
  repeat case_match; bool_to_prop; lia.
Qed.

(** A strictly decoded text consists of scalar values. *)
Lemma decode_scalar_le n : forall bs t,
  (length bs <= n)%nat -> decode bs = Some t -> Forall scalar t.
Proof.
  induction n as [|n IH]; intros bs t Hn Hd.
  - destruct bs; simpl in *; [|lia]. by simplify_eq.
  - destruct bs as [|b0 bs1]; simpl in Hd; [by simplify_eq|].
    simpl in Hn.
    destruct (in_range 0 127 b0) eqn:E1.
    { destruct (decode bs1) as [t1|] eqn:D; simplify_eq/=.
      constructor; [|eapply IH; [|done]; lia].
      unfold in_range, scalar in *; bool_to_prop; lia. }
    destruct (in_range 194 223 b0) eqn:E2.
    { destruct bs1 as [|b1 bs2]; [done|].
      destruct (is_cont b1) eqn:C1; [|done].
      destruct (decode bs2) as [t1|] eqn:D; simplify_eq/=.
      constructor; [|eapply IH; [|done]; lia].
      unfold is_cont, in_range, scalar in *; bool_to_prop; lia. }
    destruct (in_range 224 239 b0) eqn:E3.
    { destruct bs1 as [|b1 [|b2 bs3]]; [done..|].
      destruct (second_ok b0 b1) eqn:C1; [|done].
      destruct (is_cont b2) eqn:C2; [|done]. simpl in Hd.
      destruct (decode bs3) as [t1|] eqn:D; simplify_eq/=.
      constructor; [by apply second_ok_3|eapply IH; [|done]; lia]. }
    destruct (in_range 240 244 b0) eqn:E4; [|done].
    destruct bs1 as [|b1 [|b2 [|b3 bs4]]]; [done..|].
    destruct (second_ok b0 b1) eqn:C1; [|done].
    destruct (is_cont b2) eqn:C2; [|done].
    destruct (is_cont b3) eqn:C3; [|done]. simpl in Hd.
    destruct (decode bs4) as [t1|] eqn:D; simplify_eq/=.
    constructor; [by apply second_ok_4|eapply IH; [|done]; lia].
Qed.

Lemma decode_scalar bs t : decode bs = Some t -> Forall scalar t.
Proof. by apply (decode_scalar_le (length bs)). Qed.

Lemma encode_char_scalar c : scalar c -> is_Some (encode_char c).
Proof.
  unfold scalar, encode_char, in_range. intros Hc.
  repeat case_match; bool_to_prop; eauto; lia.
Qed.

(** Scalar values can always be encoded. *)
Lemma encode_scalar s : Forall scalar s -> is_Some (encode s).
Proof.
  induction 1 as [|c s Hc _ [bs IH]]; simpl; [eauto|].
  destruct (encode_char_scalar c Hc) as [b ->]. rewrite IH. eauto.
Qed.

Lemma encode_app s1 s2 b1 b2 :
  encode s1 = Some b1 -> encode s2 = Some b2 ->
  encode (s1 ++ s2) = Some (b1 ++ b2).
Proof.
  revert b1. induction s1 as [|c s1 IH]; intros b1 H1 H2; simpl in *.
  - by simplify_eq.
  - destruct (encode_char c) as [b|]; [|done].
    destruct (encode s1) as [bs|]; [|done]. simplify_eq.
    rewrite (IH bs eq_refl H2). by rewrite app_assoc.
Qed.

Lemma encode_ascii s :
  Forall (fun c => 0 <= c <= 127) s -> encode s = Some s.
Proof.
  induction 1 as [|c s Hc _ IH]; simpl; [done|].
  unfold encode_char, in_range.
  replace ((0 <=? c) && (c <=? 127)) with true
    by (symmetry; apply andb_true_iff; split; apply Z.leb_le; lia).
  by rewrite IH.
Qed.

(** What is encoded decodes to the same text. *)
Lemma in_range_spec lo hi b : in_range lo hi b = true <-> lo <= b <= hi.
Proof. unfold in_range. rewrite andb_true_iff, !Z.leb_le. done. Qed.

Lemma in_range_true lo hi b : lo <= b <= hi -> in_range lo hi b = true.
Proof. apply in_range_spec. Qed.

Lemma in_range_false lo hi b : b < lo \/ hi < b -> in_range lo hi b = false.
Proof.
  intros. destruct (in_range lo hi b) eqn:E; [|done].
  apply in_range_spec in E. lia.
Qed.

Lemma decode_encode_char c b rest :
  encode_char c = Some b -> decode (b ++ rest) = cons c <$> decode rest.
Proof.
  unfold encode_char. intros Hc.
  destruct (in_range 0 127 c) eqn:E1.
  { simplify_eq. simpl. by rewrite E1. }
  destruct (in_range 128 2047 c) eqn:E2.
  { simplify_eq. apply in_range_spec in E2. cbn [app decode].
    rewrite (in_range_false 0 127) by (Z.div_mod_to_equations; lia).
    rewrite (in_range_true 194 223) by (Z.div_mod_to_equations; lia).
    unfold is_cont.
    rewrite (in_range_true 128 191) by (Z.div_mod_to_equations; lia).
    do 2 f_equal. Z.div_mod_to_equations; lia. }
  destruct (in_range 2048 65535 c) eqn:E3.
  { destruct (in_range 55296 57343 c) eqn:E4; simplify_eq.
    apply in_range_spec in E3.
    assert (c < 55296 \/ 57343 < c) as Hs.
    { destruct (decide (c < 55296)); [by left|right].
      destruct (decide (57343 < c)); [done|].
      rewrite in_range_true in E4 by lia. done. }
    cbn [app decode].
    rewrite (in_range_false 0 127) by (Z.div_mod_to_equations; lia).
    rewrite (in_range_false 194 223) by (Z.div_mod_to_equations; lia).
    rewrite (in_range_true 224 239) by (Z.div_mod_to_equations; lia).
    assert (second_ok (224 + c / 4096) (128 + (c / 64) mod 64) = true) as ->.
    { unfold second_ok, is_cont.
      repeat case_match; bool_to_prop; apply in_range_true;
        Z.div_mod_to_equations; lia. }
    unfold is_cont.
    rewrite (in_range_true 128 191) by (Z.div_mod_to_equations; lia).
    cbn [andb]. do 2 f_equal. Z.div_mod_to_equations; lia. }
  destruct (in_range 65536 1114111 c) eqn:E4; simplify_eq.
  apply in_range_spec in E4. cbn [app decode].
  rewrite (in_range_false 0 127) by (Z.div_mod_to_equations; lia).
  rewrite (in_range_false 194 223) by (Z.div_mod_to_equations; lia).
  rewrite (in_range_false 224 239) by (Z.div_mod_to_equations; lia).
  rewrite (in_range_true 240 244) by (Z.div_mod_to_equations; lia).
  assert (second_ok (240 + c / 262144) (128 + (c / 4096) mod 64) = true) as ->.
  { unfold second_ok, is_cont.
    repeat case_match; bool_to_prop; apply in_range_true;
      Z.div_mod_to_equations; lia. }
  unfold is_cont.
  rewrite !(in_range_true 128 191) by (Z.div_mod_to_equations; lia).
  cbn [andb]. do 2 f_equal. Z.div_mod_to_equations; lia.
Qed.

Lemma decode_encode t bs : encode t = Some bs -> decode bs = Some t.
Proof.
  revert bs. induction t as [|c t IH]; intros bs Henc; simpl in Henc.
  - by simplify_eq.
  - destruct (encode_char c) as [b|] eqn:Hc; [|done].
    destruct (encode t) as [bs'|]; [|done]. simplify_eq.
    rewrite (decode_encode_char c b bs' Hc). by rewrite (IH bs' eq_refl).
Qed.

End Utf8Facts.

(** ** Lines and the reader keep the characters of the text

    Whatever holds of every character of the text holds of every character
    of every field: the reader only moves characters around. *)

Section characters.
Variable P : Z -> Prop.

Lemma readlines_from_Forall_le n : forall t cur,
  (length t <= n)%nat -> Forall P cur -> Forall P t ->
  Forall (Forall P) (readlines_from cur t).
Proof.
  induction n as [|n IH]; intros t cur Hn Hcur Ht.
  - destruct t; simpl in *; [|lia].
    destruct cur; repeat constructor; by inversion Hcur.
  - destruct t as [|c t']; simpl in *.
    { destruct cur; repeat constructor; by inversion Hcur. }
    inversion Ht as [|? ? Hc Ht']; subst.
    assert (Forall P (cur ++ [c])) by (apply Forall_app; auto).
    destruct (c =? LF).
    { constructor; [done|]. apply IH; [lia|constructor|done]. }
    destruct (c =? CR); [|apply IH; [lia|done..]].
    destruct t' as [|c' t'']; [by repeat constructor|].
    inversion Ht' as [|? ? Hc' Ht'']; subst. simpl in Hn.
    destruct (c' =? LF).
    + constructor; [apply Forall_app; auto|].
      apply IH; [lia|constructor|done].
    + constructor; [done|]. apply IH; [simpl; lia|constructor|done].
Qed.

Lemma readlines_Forall t : Forall P t -> Forall (Forall P) (readlines t).
Proof. intros. by apply (readlines_from_Forall_le (length t)). Qed.

Import Csv.

Local Abbreviation holds := (Csv.holds P).

Lemma holds_reset : holds parse_reset.
Proof. by split; constructor. Qed.

Lemma holds_set_state st self : holds self -> holds (set_state st self).
Proof. by intros [? ?]. Qed.

Lemma holds_save self : holds self -> holds (parse_save_field self).
Proof.
  intros [? ?]. split; simpl; [|constructor].
  apply Forall_app; split; [done|]. by constructor.
Qed.

Lemma holds_add self c self' :
  P c -> holds self -> parse_add_char self c = Some self' -> holds self'.
Proof.
  unfold parse_add_char. intros Hc [? ?] Hadd.
  destruct (field_limit <=? field_len self); simplify_eq.
  split; simpl; [done|]. apply Forall_app; split; [done|]. by constructor.
Qed.

Lemma holds_end_of_line self c : holds self -> holds (end_of_line self c).
Proof. intros. by apply holds_set_state, holds_save. Qed.

Lemma holds_add_then st self c self' :
  P c -> holds self ->
  set_state st <$> parse_add_char self c = Some self' -> holds self'.
Proof.
  intros Hc Hs Hadd. destruct (parse_add_char self c) eqn:E; simplify_eq/=.
  eapply holds_set_state, holds_add; eauto.
Qed.

Lemma holds_start_field self c self' :
  (forall x, c = Ch x -> P x) -> holds self ->
  start_field self c = Some self' -> holds self'.
Proof.
  unfold start_field. intros Hc Hs Hstep.
  destruct c as [x|]; [|simplify_eq; by apply holds_end_of_line].
  repeat case_match; simplify_eq;
    eauto using holds_end_of_line, holds_set_state, holds_save,
                holds_add_then.
Qed.

Lemma holds_process_char self c self' :
  (forall x, c = Ch x -> P x) -> holds self ->
  parse_process_char self c = Some self' -> holds self'.
Proof.
  unfold parse_process_char. intros Hc Hs Hstep.
  destruct (state self), c as [x|];
    repeat case_match; simplify_eq;
    eauto using holds_end_of_line, holds_set_state, holds_save,
                holds_add_then, holds_add, holds_start_field.
Qed.

Lemma holds_process_chars cs : forall self self',
  Forall P cs -> holds self ->
  process_chars self cs = Some self' -> holds self'.
Proof.
  induction cs as [|c cs IH]; intros self self' Hcs Hs Hrun; simpl in *.
  - by simplify_eq.
  - inversion Hcs; subst.
    destruct (parse_process_char self (Ch c)) as [self1|] eqn:E; [|done].
    eapply IH; [done| |done].
    eapply holds_process_char; [|done..]. by intros ? [= <-].
Qed.

Lemma holds_process_line self line self' :
  Forall P line -> holds self ->
  process_line self line = Some self' -> holds self'.
Proof.
  unfold process_line. intros Hl Hs Hrun.
  destruct (process_chars self line) as [self1|] eqn:E; [|done].
  eapply holds_process_char; [|by eapply holds_process_chars|done].
  by intros.
Qed.

Lemma Reader_rows_Forall lines : forall self,
  Forall (Forall P) lines -> holds self ->
  Forall (Forall (Forall P)) (Reader_rows self lines).1.
Proof.
  induction lines as [|line lines IH]; intros self Hl Hs; simpl.
  - case_match; simpl; [|constructor].
    repeat constructor. by apply holds_save.
  - inversion Hl; subst.
    destruct (process_line self line) as [self'|] eqn:E; [|constructor].
    assert (holds self') as Hs' by (by eapply holds_process_line).
    case_bool_decide; [|by apply IH].
    specialize (IH parse_reset).
    destruct (Reader_rows parse_reset lines) as [rows e]. simpl in *.
    constructor; [by destruct Hs'|]. by apply IH, holds_reset.
Qed.

End characters.

(** ** Dictionaries *)

Lemma dict_keys_setitem d k v :
  dict_keys (dict_setitem d k v)
  = if decide (k ∈ dict_keys d) then dict_keys d else dict_keys d ++ [k].
Proof.
  unfold dict_keys. induction d as [|[k' v'] d IH].
  - rewrite decide_False; [done|]. by intros ?%elem_of_nil.
  - cbn [dict_setitem fmap list_fmap fst].
    destruct (decide (k' = k)) as [->|Hne].
    + rewrite decide_True; [done|]. by left.
    + cbn [fmap list_fmap fst]. rewrite IH.
      destruct (decide (k ∈ d.*1)) as [Hin|Hin].
      * rewrite decide_True; [done|]. by right.
      * rewrite decide_False; [done|].
        intros [?|?]%elem_of_cons; congruence.
Qed.

Lemma elem_of_dict_keys_setitem d k v k' :
  k' ∈ dict_keys (dict_setitem d k v) <-> k' = k \/ k' ∈ dict_keys d.
Proof.
  rewrite dict_keys_setitem. case_decide.
  - naive_solver.
  - rewrite elem_of_app, list_elem_of_singleton. naive_solver.
Qed.

Lemma dict_getitem_setitem d k v : dict_getitem (dict_setitem d k v) k = Some v.
Proof.
  induction d as [|[k' v'] d IH]; simpl.
  - by rewrite decide_True.
  - destruct (decide (k' = k)) as [->|Hne]; simpl.
    + by rewrite decide_True.
    + by rewrite decide_False.
Qed.

Lemma dict_getitem_setitem_ne d k v k' :
  k <> k' -> dict_getitem (dict_setitem d k v) k' = dict_getitem d k'.
Proof.
  intros Hne. induction d as [|[k1 v1] d IH]; simpl.
  - by rewrite decide_False.
  - destruct (decide (k1 = k)) as [->|Hne1]; simpl.
    + by rewrite !decide_False.
    + by rewrite IH.
Qed.

Lemma dict_getitem_None d k : k ∉ dict_keys d -> dict_getitem d k = None.
Proof.
  unfold dict_keys. induction d as [|[k1 v1] d IH]; simpl; [done|].
  rewrite not_elem_of_cons. intros [? ?]. by rewrite decide_False; auto.
Qed.

Lemma elem_of_dict_keys_update pairs : forall d k,
  k ∈ dict_keys (update d pairs) <-> k ∈ dict_keys d \/ k ∈ pairs.*1.
Proof.
  induction pairs as [|[k1 v1] pairs IH]; intros d k; simpl.
  - rewrite elem_of_nil. naive_solver.
  - unfold update in *. simpl. rewrite IH, elem_of_dict_keys_setitem, elem_of_cons.
    naive_solver.
Qed.

(** New, distinct keys are appended in the order of assignment. *)
Lemma dict_keys_update_fresh pairs : forall d,
  NoDup (dict_keys d ++ pairs.*1) ->
  dict_keys (update d pairs) = dict_keys d ++ pairs.*1.
Proof.
  induction pairs as [|[k1 v1] pairs IH]; intros d Hnd; simpl.
  - by rewrite app_nil_r.
  - unfold update in *. simpl.
    assert (k1 ∉ dict_keys d) as Hk1.
    { apply NoDup_app in Hnd as (_ & Hdis & _). intros Hin.
      apply (Hdis _ Hin). by left. }
    assert (dict_keys (dict_setitem d k1 v1) = dict_keys d ++ [k1]) as Hkeys.
    { rewrite dict_keys_setitem. by rewrite decide_False. }
    rewrite IH; rewrite Hkeys, <- app_assoc; [done|]. exact Hnd.
Qed.

Lemma dict_getitem_update_old pairs : forall d k,
  k ∉ pairs.*1 -> dict_getitem (update d pairs) k = dict_getitem d k.
Proof.
  induction pairs as [|[k1 v1] pairs IH]; intros d k Hk; simpl; [done|].
  simpl in Hk. apply not_elem_of_cons in Hk as [? ?].
  unfold update in *. simpl. rewrite IH by done.
  by apply dict_getitem_setitem_ne.
Qed.

(** With distinct keys, every pair assigned can be read back. *)
Lemma dict_getitem_update_new pairs : forall d k v,
  NoDup pairs.*1 -> (k, v) ∈ pairs -> dict_getitem (update d pairs) k = Some v.
Proof.
  induction pairs as [|[k1 v1] pairs IH]; intros d k v Hnd Hin; simpl in *.
  - by apply elem_of_nil in Hin.
  - apply NoDup_cons in Hnd as [Hk1 Hnd]. unfold update in *. simpl.
    apply elem_of_cons in Hin as [[= -> ->]|Hin].
    + rewrite dict_getitem_update_old by done. apply dict_getitem_setitem.
    + by apply IH.
Qed.

Lemma dict_unfold pairs : dict pairs = update [] pairs.
Proof. done. Qed.

Lemma dict_chars_setitem P d k v :
  dict_chars P d -> key_chars P k -> value_chars P v ->
  dict_chars P (dict_setitem d k v).
Proof.
  unfold dict_chars. intros Hd Hk Hv.
  induction Hd as [|[k1 v1] d [Hk1 Hv1] Hd IH]; simpl.
  - by repeat constructor.
  - destruct (decide (k1 = k)); constructor; auto.
Qed.

Lemma dict_chars_update P pairs : forall d,
  dict_chars P d -> dict_chars P pairs -> dict_chars P (update d pairs).
Proof.
  induction pairs as [|[k1 v1] pairs IH]; intros d Hd Hp; simpl; [done|].
  inversion Hp as [|? ? [? ?] ?]; subst. unfold update in *. simpl.
  apply IH; [|done]. by apply dict_chars_setitem.
Qed.

Lemma dict_getitem_update_const pairs v :
  Forall (fun kv => kv.2 = v) pairs ->
  forall d k, k ∈ pairs.*1 -> dict_getitem (update d pairs) k = Some v.
Proof.
  induction 1 as [|[k1 v1] pairs Hv _ IH]; intros d k Hk; simpl in *.
  - by apply elem_of_nil in Hk.
  - unfold update in *. simpl. subst v1.
    destruct (decide (k ∈ pairs.*1)) as [Hin|Hout]; [by apply IH|].
    apply elem_of_cons in Hk as [->|?]; [|done].
    rewrite dict_getitem_update_old by done. apply dict_getitem_setitem.
Qed.

(** ** One row of the [DictReader] *)

Module DictReaderFacts.
Import DictReader.

Lemma zipped_keys fieldnames : forall row,
  (zipped fieldnames row).*1 = KStr <$> take (length row) fieldnames.
Proof.
  unfold zipped.
  induction fieldnames as [|k ks IH]; intros [|c row]; simpl; try done.
  by rewrite IH.
Qed.

Lemma filled_keys fieldnames row :
  (filled fieldnames row).*1 = KStr <$> drop (length row) fieldnames.
Proof. unfold filled. rewrite <- list_fmap_compose. done. Qed.

Lemma elem_of_zipped fieldnames : forall row j k cell,
  fieldnames !! j = Some k -> row !! j = Some cell ->
  (KStr k, VStr cell) ∈ zipped fieldnames row.
Proof.
  unfold zipped.
  induction fieldnames as [|k1 ks IH]; intros [|c row] [|j] k cell Hk Hc;
    simplify_eq/=.
  - by left.
  - right. by eapply IH.
Qed.

Lemma foldl_restval d ks :
  foldl (fun d k => dict_setitem d (KStr k) restval) d ks
  = update d ((fun k => (KStr k, restval)) <$> ks).
Proof.
  revert d. induction ks as [|k ks IH]; intros d; simpl; [done|].
  by rewrite IH.
Qed.

(** [row_to_dict], one case per branch. *)
Lemma row_to_dict_long fieldnames row :
  (length fieldnames < length row)%nat ->
  row_to_dict fieldnames row
  = dict_setitem (dict (zipped fieldnames row)) restkey
                 (VList (drop (length fieldnames) row)).
Proof.
  intros Hlt. unfold row_to_dict.
  by rewrite (proj2 (Nat.ltb_lt _ _) Hlt).
Qed.

Lemma row_to_dict_short fieldnames row :
  (length row <= length fieldnames)%nat ->
  row_to_dict fieldnames row
  = update (dict (zipped fieldnames row)) (filled fieldnames row).
Proof.
  intros Hle. unfold row_to_dict, filled.
  rewrite (proj2 (Nat.ltb_ge _ _) Hle).
  destruct (length row <? length fieldnames)%nat eqn:E.
  - apply foldl_restval.
  - apply Nat.ltb_ge in E. by rewrite drop_ge by lia.
Qed.

Lemma KStr_inj_list (l1 l2 : list (list Z)) :
  KStr <$> l1 = KStr <$> l2 -> l1 = l2.
Proof.
  revert l2. induction l1 as [|x l1 IH]; intros [|y l2] Heq; simplify_eq/=;
    [done|]. f_equal. by apply IH.
Qed.

Global Instance KStr_inj : Inj (=) (=) KStr.
Proof. by intros ? ? [= ->]. Qed.

(** A row that is not longer than the header: the key set is the set of the
    header fields. *)
Lemma row_to_dict_short_keys fieldnames row k :
  (length row <= length fieldnames)%nat ->
  k ∈ dict_keys (row_to_dict fieldnames row) <-> k ∈ KStr <$> fieldnames.
Proof.
  intros Hle. rewrite row_to_dict_short by done.
  rewrite dict_unfold, !elem_of_dict_keys_update, zipped_keys, filled_keys.
  rewrite <- (take_drop (length row) fieldnames) at 3.
  rewrite fmap_app, elem_of_app.
  split; [intros [[[]%elem_of_nil|]|]; auto|intros [|]; auto].
Qed.

(** ... and with distinct header fields the keys are the header, in order. *)
Lemma row_to_dict_short_keys_order fieldnames row :
  NoDup fieldnames -> (length row <= length fieldnames)%nat ->
  dict_keys (row_to_dict fieldnames row) = KStr <$> fieldnames.
Proof.
  intros Hnd Hle. rewrite row_to_dict_short by done.
  assert (NoDup ((KStr <$> take (length row) fieldnames)
                 ++ (KStr <$> drop (length row) fieldnames))) as Hnd'.
  { rewrite <- fmap_app, take_drop. by apply (NoDup_fmap_2 _). }
  rewrite dict_keys_update_fresh, dict_unfold, dict_keys_update_fresh.
  - simpl. by rewrite zipped_keys, filled_keys, <- fmap_app, take_drop.
  - simpl. rewrite zipped_keys. by apply NoDup_app in Hnd' as (? & _ & _).
  - rewrite dict_unfold, dict_keys_update_fresh.
    + simpl. by rewrite zipped_keys, filled_keys.
    + simpl. rewrite zipped_keys. by apply NoDup_app in Hnd' as (? & _ & _).
Qed.

(** A row longer than the header: the keys of the zipped part, then
    [None]. *)
Lemma row_to_dict_long_keys fieldnames row :
  (length fieldnames < length row)%nat ->
  dict_keys (row_to_dict fieldnames row)
  = dict_keys (dict (zipped fieldnames row)) ++ [KNone] /\
  forall k, k ∈ dict_keys (dict (zipped fieldnames row))
            <-> k ∈ KStr <$> fieldnames.
Proof.
  intros Hlt. rewrite row_to_dict_long by done.
  assert (forall k, k ∈ dict_keys (dict (zipped fieldnames row))
                    <-> k ∈ KStr <$> fieldnames) as Hkeys.
  { intros k. rewrite dict_unfold, elem_of_dict_keys_update, zipped_keys.
    rewrite take_ge by lia. split; [intros [[]%elem_of_nil|]|]; auto. }
  split; [|done]. rewrite dict_keys_setitem, decide_False; [done|].
  rewrite Hkeys. intros (? & ? & _)%list_elem_of_fmap. done.
Qed.

Lemma row_to_dict_long_rest fieldnames row :
  (length fieldnames < length row)%nat ->
  dict_getitem (row_to_dict fieldnames row) KNone
  = Some (VList (drop (length fieldnames) row)).
Proof.
  intros Hlt. rewrite row_to_dict_long by done. apply dict_getitem_setitem.
Qed.

(** The fields that a short row leaves out hold [None]. *)
Lemma row_to_dict_short_rest fieldnames row k :
  k ∈ drop (length row) fieldnames ->
  dict_getitem (row_to_dict fieldnames row) (KStr k) = Some VNone.
Proof.
  intros Hk.
  assert (length row <= length fieldnames)%nat as Hle.
  { destruct (decide (length row <= length fieldnames)%nat); [done|].
    rewrite drop_ge in Hk by lia. by apply elem_of_nil in Hk. }
  rewrite row_to_dict_short by done.
  apply dict_getitem_update_const.
  - unfold filled. by apply Forall_fmap, Forall_true.
  - rewrite filled_keys. by apply list_elem_of_fmap_2.
Qed.

(** With distinct header fields, the cell under a header field is the value
    of that field. *)
Lemma row_to_dict_cell fieldnames row j k cell :
  NoDup fieldnames ->
  fieldnames !! j = Some k -> row !! j = Some cell ->
  dict_getitem (row_to_dict fieldnames row) (KStr k) = Some (VStr cell).
Proof.
  intros Hnd Hk Hc.
  assert (dict_getitem (dict (zipped fieldnames row)) (KStr k)
          = Some (VStr cell)) as Hz.
  { rewrite dict_unfold. apply dict_getitem_update_new.
    - rewrite zipped_keys. apply (NoDup_fmap_2 _).
      eapply sublist_NoDup; [done|apply sublist_take].
    - by eapply elem_of_zipped. }
  destruct (decide (length fieldnames < length row)%nat) as [Hlt|Hge].
  - rewrite row_to_dict_long by done.
    by rewrite dict_getitem_setitem_ne.
  - rewrite row_to_dict_short by lia.
    rewrite dict_getitem_update_old; [done|].
    rewrite filled_keys. intros (k' & [= <-] & Hin)%list_elem_of_fmap.
    apply list_elem_of_lookup in Hin as [i Hi].
    rewrite lookup_drop in Hi.
    apply lookup_lt_Some in Hc.
    pose proof (NoDup_lookup _ _ _ _ Hnd Hk Hi). lia.
Qed.

Lemma row_to_dict_chars P fieldnames row :
  Forall (Forall P) fieldnames -> Forall (Forall P) row ->
  dict_chars P (row_to_dict fieldnames row).
Proof.
  intros Hf Hr.
  assert (dict_chars P (dict (zipped fieldnames row))) as Hz.
  { rewrite dict_unfold. apply dict_chars_update; [constructor|].
    unfold zipped, dict_chars. clear -Hf Hr. revert row Hr.
    induction Hf as [|k ks Hk _ IH]; intros row Hr; [constructor|].
    destruct Hr as [|c row Hc Hr]; [constructor|].
    simpl. constructor; [done|]. by apply IH. }
  destruct (decide (length fieldnames < length row)%nat) as [Hlt|Hge].
  - rewrite row_to_dict_long by done.
    apply dict_chars_setitem; [done|done|]. simpl. by apply Forall_drop.
  - rewrite row_to_dict_short by lia. apply dict_chars_update; [done|].
    unfold filled, dict_chars. apply Forall_fmap, Forall_forall.
    intros k Hk. simpl. split; [|done].
    apply (proj1 (Forall_forall _ _) Hf).
    eapply elem_of_sublist; [done|]. apply sublist_drop.
Qed.

(** The dictionaries come from the rows that are not empty, in order. *)
Lemma records_filter fieldnames rows :
  records fieldnames rows
  = row_to_dict fieldnames <$> filter (fun row => row <> []) rows.
Proof.
  induction rows as [|[|c row] rows IH]; [done| |].
  - rewrite filter_cons_False by (by intros ?). exact IH.
  - rewrite filter_cons_True by done. cbn [records fmap list_fmap].
    by rewrite IH.
Qed.

Lemma records_no_blank fieldnames rows :
  Forall (fun row => row <> []) rows ->
  records fieldnames rows = row_to_dict fieldnames <$> rows.
Proof.
  intros Hne. rewrite records_filter. f_equal.
  induction Hne as [|row rows Hrow _ IH]; [done|].
  by rewrite filter_cons_True, IH.
Qed.

Lemma records_blank fieldnames rows :
  Forall (fun row => row = []) rows -> records fieldnames rows = [].
Proof. induction 1 as [|row rows -> _ IH]; simpl; done. Qed.

Lemma records_chars P fieldnames rows :
  Forall (Forall P) fieldnames -> Forall (Forall (Forall P)) rows ->
  Forall (dict_chars P) (records fieldnames rows).
Proof.
  intros Hf Hr. rewrite records_filter. apply Forall_fmap.
  apply Forall_forall. intros row [_ Hin]%list_elem_of_filter. simpl.
  apply row_to_dict_chars; [done|].
  by apply (proj1 (Forall_forall _ _) Hr).
Qed.

Lemma read_all_chars P lines data :
  Forall (Forall P) lines -> read_all lines = Some data ->
  Forall (dict_chars P) data.
Proof.
  unfold read_all, Csv.reader. intros Hl Hread.
  pose proof (Reader_rows_Forall P lines Csv.parse_reset Hl (holds_reset P))
    as Hrows.
  destruct (Csv.Reader_rows Csv.parse_reset lines) as [[|h rows] []];
    simplify_eq/=; [constructor|].
  inversion Hrows; subst. by apply records_chars.
Qed.

End DictReaderFacts.

(** ** The encoder writes the characters it is given, and ASCII *)

Module JsonFacts.
Import Json.

Lemma lit_byte s : Forall (fun c => 0 <= c <= 255) (lit s).
Proof.
  unfold lit. induction s as [|a s IH]; simpl; constructor; [|done].
  pose proof (nat_ascii_bounded a). lia.
Qed.

Lemma hex_digit_ascii n : 0 <= n < 16 -> 0 <= hex_digit n <= 127.
Proof. unfold hex_digit. intros. case_match; lia. Qed.

(** The replacements are ASCII text. *)
Lemma ESCAPE_DCT_ascii c r :
  ESCAPE_DCT c = Some r -> Forall (fun x => 0 <= x <= 127) r.
Proof.
  unfold ESCAPE_DCT, BACKSLASH, QUOTE, LF, CR.
  repeat case_match; intros [= <-]; repeat constructor;
    try (cbv; discriminate).
  all: bool_to_prop; apply hex_digit_ascii.
  all: first [ apply Z.mod_pos_bound; lia
             | split; [apply Z.div_pos; lia|apply Z.div_lt_upper_bound; lia] ].
Qed.

Section characters.
Variable P : Z -> Prop.
Hypothesis P_byte : forall c, 0 <= c <= 255 -> P c.

Lemma lit_chars s : Forall P (lit s).
Proof. eapply Forall_impl; [apply lit_byte|]. auto. Qed.

Lemma replace_chars c : P c -> Forall P (replace c).
Proof.
  intros Hc. unfold replace. destruct (ESCAPE_DCT c) as [r|] eqn:E; simpl.
  - eapply Forall_impl; [by eapply ESCAPE_DCT_ascii|].
    intros x ?. apply P_byte. simpl in *. lia.
  - by constructor.
Qed.

Lemma py_encode_basestring_chars s :
  Forall P s -> Forall P (py_encode_basestring s).
Proof.
  intros Hs. unfold py_encode_basestring.
  apply Forall_app; split; [constructor; [by apply P_byte|constructor]|].
  apply Forall_app; split; [|constructor; [by apply P_byte|constructor]].
  induction Hs as [|c s Hc _ IH]; simpl; [constructor|].
  apply Forall_app; split; [by apply replace_chars|done].
Qed.

Lemma newline_indent_chars level : Forall P (newline_indent level).
Proof.
  unfold newline_indent. constructor; [by apply P_byte|].
  induction level as [|n IH]; simpl; [constructor|].
  repeat (constructor; [by apply P_byte|]). exact IH.
Qed.

Lemma separated_chars separator items :
  Forall P separator -> Forall (Forall P) items ->
  Forall P (separated separator items).
Proof.
  intros Hsep Hitems.
  induction Hitems as [|x items Hx Hrest IH]; simpl; [constructor|].
  destruct items; [done|].
  apply Forall_app; split; [done|]. by apply Forall_app.
Qed.

Lemma iterencode_list_chars {A} (Q : A -> Prop) item lst level :
  (forall v lvl, Q v -> Forall P (item v lvl)) -> Forall Q lst ->
  Forall P (iterencode_list item lst level).
Proof.
  intros Hitem Hlst. unfold iterencode_list.
  destruct lst as [|v lst]; [apply lit_chars|].
  repeat (apply Forall_app; split);
    auto using lit_chars, newline_indent_chars.
  apply separated_chars.
  - apply Forall_app; split; [apply lit_chars|apply newline_indent_chars].
  - apply Forall_fmap. eapply Forall_impl; [exact Hlst|]. simpl. auto.
Qed.

Lemma iterencode_value_chars v level :
  value_chars P v -> Forall P (iterencode_value v level).
Proof.
  destruct v as [s| |l]; simpl; intros Hv.
  - by apply py_encode_basestring_chars.
  - apply lit_chars.
  - apply (iterencode_list_chars (Forall P)); [|done].
    intros. by apply py_encode_basestring_chars.
Qed.

Lemma iterencode_dict_chars d level :
  dict_chars P d -> Forall P (iterencode_dict d level).
Proof.
  intros Hd. unfold iterencode_dict.
  destruct d as [|kv d]; [apply lit_chars|].
  repeat (apply Forall_app; split);
    auto using lit_chars, newline_indent_chars.
  apply separated_chars.
  - apply Forall_app; split; [apply lit_chars|apply newline_indent_chars].
  - apply Forall_fmap. eapply Forall_impl; [exact Hd|]. simpl.
    intros [k v] [Hk Hv]. unfold iterencode_item.
    apply Forall_app; split.
    { apply py_encode_basestring_chars.
      destruct k; simpl in *; auto using lit_chars. }
    apply Forall_app; split; [apply lit_chars|].
    by apply iterencode_value_chars.
Qed.

Lemma dumps_chars data :
  Forall (dict_chars P) data -> Forall P (dumps data).
Proof.
  intros. apply (iterencode_list_chars (dict_chars P)); [|done].
  intros. by apply iterencode_dict_chars.
Qed.

End characters.
End JsonFacts.

(** ** The script *)

Lemma scalar_byte c : 0 <= c <= 255 -> Utf8.scalar c.
Proof. unfold Utf8.scalar. lia. Qed.

(** What the reader hands over can always be written: the text to write
    consists of characters of the decoded input and of ASCII. *)
Lemma load_encodable content data :
  load content = Some data -> is_Some (Utf8.encode (Json.dumps data)).
Proof.
  unfold load. intros Hload.
  destruct (Utf8.decode content) as [text|] eqn:Hdec; [|done].
  apply Utf8Facts.encode_scalar, JsonFacts.dumps_chars; [apply scalar_byte|].
  eapply DictReaderFacts.read_all_chars; [|done].
  by apply readlines_Forall, Utf8Facts.decode_scalar with content.
Qed.

Lemma parses_load content fieldnames rows :
  parses content fieldnames rows ->
  load content = Some (DictReader.records fieldnames rows).
Proof.
  intros (text & Hdec & Hrows). unfold load, DictReader.read_all.
  by rewrite Hdec, Hrows.
Qed.

Ltac run_script :=
  unfold csv_to_json, mbind, M_bind, bind, os_path_exists, read_csv,
    write_json, print, mret, M_ret, ret;
  cbv beta iota.

Lemma open_read_at_path w path content :
  open_read w path = Some content -> at_path w path = Some (File content).
Proof.
  unfold open_read, at_path. intros Hopen.
  destruct (resolve w path) as [l|]; [|done].
  destruct (fs w !! l) as [[c|]|]; [|done..].
  destruct (may_read w l); by simplify_eq.
Qed.

Lemma open_write_resolve w path l :
  open_write w path = Some l -> resolve w path = Some l.
Proof.
  unfold open_write. intros Hopen.
  destruct (resolve w path) as [l'|]; [|done].
  destruct (fs w !! l') as [[c|]|]; [|done|];
    destruct (may_write w l'); by simplify_eq.
Qed.

Lemma at_path_with_file w l out path :
  resolve w path = Some l -> at_path (with_file w l out) path = Some (File out).
Proof.
  intros Hl. unfold at_path, with_file. cbn [resolve fs]. rewrite Hl.
  apply lookup_insert_eq.
Qed.

Lemma csv_to_json_cases csv_file json_file w :
  csv_to_json_spec csv_file json_file w (csv_to_json csv_file json_file w).
Proof.
  run_script.
  destruct (at_path w csv_file) as [n|] eqn:Hat.
  - rewrite bool_decide_true by eauto. cbv beta iota delta [negb].
    destruct (open_read w csv_file) as [content|] eqn:Hcsv;
      [|apply run_open_for_reading; congruence].
    destruct (load content) as [data|] eqn:Hload;
      [|by eapply run_reading].
    destruct (open_write w json_file) as [l|] eqn:Hjson;
      [|by eapply run_open_for_writing].
    destruct (load_encodable _ _ Hload) as [out Hout]. rewrite Hout.
    change (can_print (with_file w l out)) with (can_print w).
    destruct (can_print w (converted_message (length data) csv_file
                             json_file)) eqn:Hprint.
    + by eapply run_converted.
    + by eapply run_converted_silent.
  - rewrite bool_decide_false by (by intros [? ?]).
    cbv beta iota delta [negb].
    destruct (can_print w (not_found_message csv_file)) eqn:Hprint.
    + by apply run_not_found.
    + by apply run_not_found_silent.
Qed.

Lemma input_file_converted csv_file json_file w fieldnames rows :
  input_file csv_file w fieldnames rows ->
  writable json_file w ->
  reports csv_file json_file w ->
  converted csv_file json_file w (DictReader.records fieldnames rows).
Proof.
  intros (content & Hcsv & Hparse) [l Hl] Hprint. apply parses_load in Hparse.
  unfold converted.
  destruct (csv_to_json_cases csv_file json_file w) as
    [Hat Hp|Hat Hp|Hat Hno|c Hc Hload|c d Hc Hload Hno
    |c d l' out Hc Hload Hl' Hout Hp|c d l' out Hc Hload Hl' Hout Hp];
    try (apply open_read_at_path in Hcsv; congruence);
    try congruence.
  exists c, out, l'. by simplify_eq.
Qed.

Lemma replace_plain c : plain c -> Json.replace c = [c].
Proof.
  unfold plain, Json.replace, Json.ESCAPE_DCT, BACKSLASH, QUOTE, LF, CR.
  intros (? & ? & ?).
  repeat case_match; bool_to_prop; try done; lia.
Qed.

Lemma py_encode_basestring_plain s :
  Forall plain s -> Json.py_encode_basestring s = [QUOTE] ++ s ++ [QUOTE].
Proof.
  intros Hs. unfold Json.py_encode_basestring. do 2 f_equal.
  induction Hs as [|c s Hc _ IH]; [done|].
  cbn [mbind list_bind]. by rewrite replace_plain, IH.
Qed.

(** Rows as long as the header give dictionaries of strings only. *)
Lemma Forall_dict_setitem (Q : key * value -> Prop) d k v :
  Forall Q d -> Q (k, v) -> Forall Q (dict_setitem d k v).
Proof.
  intros Hd Hkv. induction Hd as [|[k1 v1] d H1 Hd IH]; simpl.
  - by repeat constructor.
  - destruct (decide (k1 = k)) as [->|]; constructor; auto.
Qed.

Lemma Forall_update (Q : key * value -> Prop) pairs : forall d,
  Forall Q d -> Forall Q pairs -> Forall Q (update d pairs).
Proof.
  induction pairs as [|[k1 v1] pairs IH]; intros d Hd Hp; simpl; [done|].
  inversion Hp; subst. unfold update in *. simpl.
  apply IH; [|done]. by apply Forall_dict_setitem.
Qed.

Lemma row_to_dict_strings fieldnames row :
  length row = length fieldnames ->
  Forall is_str (DictReader.row_to_dict fieldnames row).
Proof.
  intros Hlen. rewrite DictReaderFacts.row_to_dict_short by lia.
  unfold DictReader.filled. rewrite drop_ge by lia.
  apply Forall_update; [|constructor].
  rewrite dict_unfold. apply Forall_update; [constructor|].
  unfold DictReader.zipped. clear Hlen. revert row.
  induction fieldnames as [|k ks IH]; intros [|c row]; simpl;
    try constructor; [by eexists|apply IH].
Qed.

(** ** Reading back written rows *)

Module CsvFacts.
Import Csv.

Lemma cell_char_tests c :
  cell_char c ->
  is_newline c = false /\ (c =? QUOTE) = false /\ (c =? COMMA) = false
  /\ (c =? LF) = false /\ (c =? CR) = false.
Proof.
  unfold cell_char, is_newline. intros (? & ? & ? & ?).
  rewrite !(proj2 (Z.eqb_neq _ _)) by done. done.
Qed.

(** Inside an unquoted field, cell characters pile up. *)
Lemma process_chars_in_field s : forall fs f,
  Forall cell_char s ->
  Z.of_nat (length (f ++ s)) <= field_limit ->
  process_chars (mkReader IN_FIELD fs f) s = Some (mkReader IN_FIELD fs (f ++ s)).
Proof.
  induction s as [|c s IH]; intros fs f Hs Hlen.
  - by rewrite app_nil_r.
  - inversion Hs as [|? ? Hc Hs']; subst.
    destruct (cell_char_tests c Hc) as (Hnl & _ & Hco & _).
    cbn [process_chars].
    unfold parse_process_char, parse_add_char, field_len.
    cbn [state field fields]. rewrite Hnl, Hco.
    rewrite length_app in Hlen. cbn [length] in Hlen.
    rewrite (proj2 (Z.leb_gt _ _)) by lia.
    rewrite IH; [by rewrite <- app_assoc|done|].
    rewrite <- app_assoc. by rewrite length_app.
Qed.

(** A cell read from the start of a field, up to the character that ends
    it. *)
Lemma process_chars_cell cell fs :
  simple_cell cell ->
  process_chars (mkReader START_FIELD fs []) cell
  = Some (mkReader (match cell with [] => START_FIELD | _ => IN_FIELD end)
                   fs cell).
Proof.
  intros [Hs Hlen]. destruct cell as [|c s]; [done|].
  inversion Hs as [|? ? Hc Hs']; subst. cbn [process_chars].
  destruct (cell_char_tests c Hc) as (Hnl & Hq & Hco & _).
  unfold parse_process_char, start_field, parse_add_char, field_len.
  cbn [state field fields length]. rewrite Hnl, Hq, Hco.
  rewrite (proj2 (Z.leb_gt _ _)) by (unfold field_limit; lia).
  cbn [fmap option_fmap option_map set_state state fields field].
  unfold set_state. cbn [state fields field app].
  by rewrite (process_chars_in_field s fs [c]).
Qed.

Lemma process_chars_app s1 s2 self :
  process_chars self (s1 ++ s2)
  = match process_chars self s1 with
    | Some self' => process_chars self' s2
    | None => None
    end.
Proof.
  revert self. induction s1 as [|c s1 IH]; intros self; simpl; [done|].
  destruct (parse_process_char self (Ch c)); [apply IH|done].
Qed.

Lemma join_cells_cons cell cell2 row :
  join_cells (cell :: cell2 :: row)
  = cell ++ COMMA :: join_cells (cell2 :: row).
Proof. done. Qed.

(** The cells of a line, from the start of a field to the end of the line. *)
Lemma process_line_cells row : forall fs,
  Forall simple_cell row -> row <> [] ->
  process_line (mkReader START_FIELD fs []) (write_row row)
  = Some (mkReader START_RECORD (fs ++ row) []).
Proof.
  unfold process_line, write_row.
  induction row as [|cell row IH]; intros fs Hrow Hne; [done|].
  inversion Hrow as [|? ? Hcell Hrow']; subst.
  destruct row as [|cell2 row].
  - cbn [join_cells]. rewrite process_chars_app, process_chars_cell by done.
    destruct cell; reflexivity.
  - rewrite join_cells_cons, <- app_assoc, <- app_comm_cons.
    rewrite process_chars_app, process_chars_cell by done.
    cbn [process_chars].
    assert (parse_process_char
              (mkReader (match cell with [] => START_FIELD | _ => IN_FIELD end)
                        fs cell) (Ch COMMA)
            = Some (mkReader START_FIELD (fs ++ [cell]) [])) as ->
      by (by destruct cell).
    rewrite IH by done. by rewrite <- app_assoc.
Qed.

Lemma write_row_head row :
  simple_row row ->
  exists c s, write_row row = c :: s /\ is_newline c = false.
Proof.
  intros (Hcells & Hne & Hblank). unfold write_row.
  destruct row as [|cell row]; [done|].
  inversion Hcells as [|? ? [Hcell _] _]; subst.
  destruct cell as [|c s].
  - destruct row as [|cell2 row]; [done|].
    cbn [join_cells app]. eauto.
  - inversion Hcell as [|? ? Hc _]; subst.
    destruct (cell_char_tests c Hc) as (Hnl & _).
    destruct row; [|rewrite join_cells_cons]; cbn [join_cells];
      rewrite <- ?app_assoc, <- ?app_comm_cons; eauto.
Qed.

(** A line written from a simple row is read back as that row. *)
Lemma process_line_row row :
  simple_row row ->
  process_line parse_reset (write_row row)
  = Some (mkReader START_RECORD row []).
Proof.
  intros Hrow. destruct (write_row_head row Hrow) as (c & s & Hw & Hnl).
  destruct Hrow as (Hcells & Hne & _).
  transitivity (process_line (mkReader START_FIELD [] []) (write_row row));
    [|by apply (process_line_cells row [])].
  unfold process_line. rewrite Hw. cbn [process_chars].
  unfold parse_process_char at 1 3. cbn [state parse_reset].
  by rewrite Hnl.
Qed.

Lemma Reader_rows_written rows :
  Forall simple_row rows ->
  Reader_rows parse_reset (write_row <$> rows) = (rows, StopIteration).
Proof.
  induction 1 as [|row rows Hrow _ IH]; [done|].
  cbn [fmap list_fmap Reader_rows].
  rewrite process_line_row by done. cbn [state].
  rewrite bool_decide_true by done.
  change (list_fmap _ _ write_row rows) with (write_row <$> rows).
  by rewrite IH.
Qed.

(** The text written from simple rows splits into one line per row. *)
Lemma readlines_from_line s : forall cur rest,
  Forall (fun c => c <> LF /\ c <> CR) s ->
  readlines_from cur (s ++ LF :: rest)
  = (cur ++ s ++ [LF]) :: readlines_from [] rest.
Proof.
  induction s as [|c s IH]; intros cur rest Hs; [done|].
  inversion Hs as [|? ? [Hlf Hcr] Hs']; subst.
  rewrite <- app_comm_cons. cbn [readlines_from].
  rewrite !(proj2 (Z.eqb_neq _ _)) by done.
  rewrite IH by done. by rewrite <- app_assoc.
Qed.

Lemma join_cells_no_newline row :
  Forall simple_cell row ->
  Forall (fun c => c <> LF /\ c <> CR) (join_cells row).
Proof.
  induction 1 as [|cell row [Hcell _] _ IH]; [constructor|].
  assert (Forall (fun c => c <> LF /\ c <> CR) cell) as Hc.
  { eapply Forall_impl; [exact Hcell|]. by intros c (_ & _ & ? & ?). }
  destruct row as [|cell2 row]; [done|].
  rewrite join_cells_cons. apply Forall_app; split; [done|].
  by constructor.
Qed.

Lemma readlines_written rows :
  Forall simple_row rows ->
  readlines (write_rows rows) = write_row <$> rows.
Proof.
  unfold readlines, write_rows.
  induction 1 as [|row rows (Hcells & _) _ IH]; [done|].
  cbn [fmap list_fmap concat]. unfold write_row at 1.
  rewrite <- app_assoc. cbn [app].
  rewrite readlines_from_line by (by apply join_cells_no_newline).
  cbn [app]. by rewrite IH.
Qed.

(** A file written from simple rows is read back as these rows: header and
    data rows are what the text shows between commas and line ends. *)
Lemma written_parses fieldnames rows content :
  Forall simple_row (fieldnames :: rows) ->
  Utf8.encode (write_rows (fieldnames :: rows)) = Some content ->
  parses content fieldnames rows.
Proof.
  intros Hrows Henc. exists (write_rows (fieldnames :: rows)).
  split; [by apply Utf8Facts.decode_encode|].
  unfold reader. rewrite readlines_written by done.
  by apply Reader_rows_written.
Qed.

End CsvFacts.

(** ** Reading back the JSON text that is written *)

Module JsonTextFacts.
Import Json JsonText.

Ltac solve_length :=
  repeat match goal with
         | H : context [length (_ ++ _)] |- _ => rewrite length_app in H
         end;
  rewrite ?length_app; simpl in *; lia.

Lemma skip_ws_indent level t : skip_ws (newline_indent level ++ t) = skip_ws t.
Proof.
  unfold newline_indent. rewrite <- app_comm_cons. cbn [skip_ws].
  change (is_ws LF) with true. cbv iota.
  induction level as [|level IH]; [done|].
  cbn [replicate concat]. rewrite <- app_assoc. exact IH.
Qed.

Lemma hex_hex_digit n : 0 <= n < 16 -> hex (hex_digit n) = Some n.
Proof.
  intros Hn. unfold hex, hex_digit.
  repeat case_match; bool_to_prop; try lia; f_equal; lia.
Qed.

Lemma read_string_replace c t :
  0 <= c ->
  read_string (replace c ++ t)
  = match read_string t with
    | Some (s, r) => Some (c :: s, r)
    | None => None
    end.
Proof.
  intros Hc. unfold replace, ESCAPE_DCT.
  destruct (c =? BACKSLASH) eqn:E1;
    [apply Z.eqb_eq in E1 as ->; reflexivity|].
  destruct (c =? QUOTE) eqn:E2;
    [apply Z.eqb_eq in E2 as ->; reflexivity|].
  destruct (c =? 8) eqn:E3; [apply Z.eqb_eq in E3 as ->; reflexivity|].
  destruct (c =? 12) eqn:E4; [apply Z.eqb_eq in E4 as ->; reflexivity|].
  destruct (c =? LF) eqn:E5; [apply Z.eqb_eq in E5 as ->; reflexivity|].
  destruct (c =? CR) eqn:E6; [apply Z.eqb_eq in E6 as ->; reflexivity|].
  destruct (c =? 9) eqn:E7; [apply Z.eqb_eq in E7 as ->; reflexivity|].
  destruct ((0 <=? c) && (c <? 32)) eqn:E8.
  - bool_to_prop.
    change (read_string
              (default [c]
                 (Some (lit "\u00"
                        ++ [hex_digit (c / 16); hex_digit (c mod 16)]))
               ++ t))
      with (match hex (hex_digit (c / 16)), hex (hex_digit (c mod 16)) with
            | Some x, Some y =>
              if (55296 <=? 4096 * 0 + 256 * 0 + 16 * x + y)
                 && (4096 * 0 + 256 * 0 + 16 * x + y <=? 57343)
              then None
              else
                match read_string t with
                | Some (s, r) =>
                  Some (4096 * 0 + 256 * 0 + 16 * x + y :: s, r)
                | None => None
                end
            | _, _ => None
            end).
    rewrite !hex_hex_digit by (Z.div_mod_to_equations; lia).
    replace (4096 * 0 + 256 * 0 + 16 * (c / 16) + c mod 16) with c
      by (Z.div_mod_to_equations; lia).
    replace (55296 <=? c) with false by (symmetry; apply Z.leb_gt; lia).
    done.
  - cbn [default app read_string]. rewrite E1, E2.
    replace (c <? 32) with false; [done|].
    symmetry. apply Z.ltb_ge.
    apply andb_false_iff in E8 as [E8|E8];
      [apply Z.leb_gt in E8|apply Z.ltb_ge in E8]; lia.
Qed.

Lemma read_string_body s r :
  Forall zero_up s -> read_string ((s ≫= replace) ++ QUOTE :: r) = Some (s, r).
Proof.
  induction 1 as [|c s Hc _ IH]; [done|].
  cbn [mbind list_bind]. rewrite <- app_assoc.
  rewrite read_string_replace by done. by rewrite IH.
Qed.

Lemma py_encode_basestring_unfold s r :
  py_encode_basestring s ++ r = QUOTE :: (s ≫= replace) ++ QUOTE :: r.
Proof.
  unfold py_encode_basestring. cbn [app]. by rewrite <- app_assoc.
Qed.

(** One step of each reader. *)
Lemma read_value_indent fuel level t :
  read_value fuel (newline_indent level ++ t) = read_value fuel t.
Proof. destruct fuel; [done|]. cbn [read_value]. by rewrite skip_ws_indent. Qed.

Lemma read_value_space fuel t : read_value fuel (32 :: t) = read_value fuel t.
Proof. by destruct fuel. Qed.

Lemma read_value_str fuel s r :
  Forall zero_up s ->
  read_value (S fuel) (py_encode_basestring s ++ r) = Some (JString s, r).
Proof.
  intros Hs. rewrite py_encode_basestring_unfold.
  cbn [read_value skip_ws]. change (is_ws QUOTE) with false. cbv iota.
  rewrite Z.eqb_refl. by rewrite read_string_body.
Qed.

(** Arrays, whatever the items are: each item is written by [text], starts
    with the character [first] and is read back as [js] says. *)
Section arrays.
Context {A : Type} (P : A -> Prop) (text : A -> nat -> list Z)
  (js : A -> json) (first : Z).
Hypothesis first_ws : is_ws first = false.
Hypothesis first_quote_or_brace : first = QUOTE \/ first = 123.
Hypothesis text_first : forall x level, exists t, text x level = first :: t.
Hypothesis read_text : forall x level fuel r,
  P x -> (length (text x level) <= fuel)%nat ->
  read_value fuel (text x level ++ r) = Some (js x, r).

Lemma skip_ws_first t : skip_ws (first :: t) = first :: t.
Proof. cbn [skip_ws]. by rewrite first_ws. Qed.

Lemma read_items_separated level level' l : forall fuel r,
  l <> [] -> Forall P l ->
  (length (separated (item_separator ++ newline_indent level')
             ((fun v => text v level') <$> l)
           ++ newline_indent level ++ lit "]") <= fuel)%nat ->
  read_items fuel
    (newline_indent level'
     ++ separated (item_separator ++ newline_indent level')
          ((fun v => text v level') <$> l)
     ++ newline_indent level ++ lit "]" ++ r)
  = Some (js <$> l, r).
Proof.
  induction l as [|x l IH]; intros fuel r Hne Hl Hlen; [done|].
  inversion Hl as [|? ? Hx Hl']; subst.
  destruct fuel as [|fuel]; [simpl in Hlen; solve_length|].
  cbn [read_items]. rewrite read_value_indent.
  destruct l as [|y l].
  - cbn [fmap list_fmap separated] in *.
    rewrite read_text by (done || solve_length).
    rewrite skip_ws_indent. by cbn.
  - change (separated (item_separator ++ newline_indent level')
              ((fun v => text v level') <$> x :: y :: l))
      with (text x level'
            ++ (item_separator ++ newline_indent level')
            ++ separated (item_separator ++ newline_indent level')
                 ((fun v => text v level') <$> y :: l)) in *.
    rewrite <- !app_assoc.
    rewrite read_text by (done || solve_length).
    change (item_separator ++ ?t) with (COMMA :: t).
    cbn [skip_ws]. change (is_ws COMMA) with false. cbv iota.
    rewrite Z.eqb_refl, IH; [done|done|done|]. solve_length.
Qed.

Lemma read_value_list l level fuel r :
  Forall P l ->
  (length (iterencode_list text l level) <= fuel)%nat ->
  read_value fuel (iterencode_list text l level ++ r)
  = Some (JArray (js <$> l), r).
Proof.
  intros Hl Hlen. destruct l as [|x l].
  - do 2 (destruct fuel as [|fuel]; [simpl in Hlen; lia|]). done.
  - unfold iterencode_list in *.
    destruct fuel as [|fuel]; [simpl in Hlen; lia|].
    rewrite <- !app_assoc.
    change (lit "[" ++ ?t) with (91 :: t).
    cbn [read_value skip_ws]. change (is_ws 91) with false. cbv iota.
    change (91 =? QUOTE) with false. change (91 =? 110) with false.
    change (91 =? 91) with true. cbv iota.
    rewrite skip_ws_indent.
    destruct (text_first x (S level)) as [t Ht].
    assert (exists t', separated (item_separator ++ newline_indent (S level))
                         ((fun v => text v (S level)) <$> x :: l)
                       = first :: t') as [t' Ht'].
    { cbn [fmap list_fmap separated]. rewrite Ht.
      destruct (_ <$> l); by eauto. }
    rewrite Ht' at 1. rewrite <- app_comm_cons, skip_ws_first.
    replace (first =? 93) with false
      by (by destruct first_quote_or_brace as [-> | ->]).
    rewrite read_items_separated; [done|done|done|].
    simpl in Hlen. solve_length.
Qed.

End arrays.

Lemma read_value_value v level fuel r :
  value_chars zero_up v ->
  (length (iterencode_value v level) <= fuel)%nat ->
  read_value fuel (iterencode_value v level ++ r) = Some (of_value v, r).
Proof.
  intros Hv Hlen. destruct v as [s| |l]; cbn [iterencode_value of_value] in *.
  - destruct fuel as [|fuel]; [simpl in Hlen; lia|]. by apply read_value_str.
  - destruct fuel as [|fuel]; [simpl in Hlen; lia|]. done.
  - apply (read_value_list (Forall zero_up) iterencode_str JString QUOTE);
      try done; [by left| |].
    + intros x lvl. unfold iterencode_str, py_encode_basestring. by eexists.
    + intros x lvl f r' Hx Hf. unfold iterencode_str in *.
      destruct f as [|f]; [simpl in Hf; lia|]. by apply read_value_str.
Qed.

Lemma read_members_separated level level' d : forall fuel r,
  d <> [] -> dict_chars zero_up d ->
  (length (separated (item_separator ++ newline_indent level')
             ((fun kv => iterencode_item kv level') <$> d)
           ++ newline_indent level ++ lit "}") <= fuel)%nat ->
  read_members fuel
    (newline_indent level'
     ++ separated (item_separator ++ newline_indent level')
          ((fun kv => iterencode_item kv level') <$> d)
     ++ newline_indent level ++ lit "}" ++ r)
  = Some ((fun kv => (member_name kv.1, of_value kv.2)) <$> d, r).
Proof.
  assert (forall k, key_chars zero_up k -> Forall zero_up (key_text k))
    as Hkey.
  { intros [s|]; [done|]. intros _. unfold zero_up.
    repeat constructor; by cbv. }
  assert (forall k, key_text k = member_name k) as Hname by (by intros []).
  induction d as [|[k v] d IH]; intros fuel r Hne Hd Hlen; [done|].
  inversion Hd as [|? ? [Hk Hv] Hd']; subst. cbn [fst snd] in *.
  destruct fuel as [|fuel]; [simpl in Hlen; solve_length|].
  cbn [read_members]. rewrite skip_ws_indent.
  assert (forall rest,
    match skip_ws (iterencode_item (k, v) level' ++ rest) with
    | [] => None
    | q :: t1 =>
      if q =? QUOTE then
        match read_string t1 with
        | None => None
        | Some (name, r0) =>
          match skip_ws r0 with
          | [] => None
          | c :: r1 =>
            if c =? 58 then
              match read_value fuel r1 with
              | None => None
              | Some (v0, r2) =>
                match skip_ws r2 with
                | [] => None
                | c' :: r3 =>
                  if c' =? COMMA then
                    match read_members fuel r3 with
                    | Some (ms, r4) => Some ((name, v0) :: ms, r4)
                    | None => None
                    end
                  else if c' =? 125 then Some ([(name, v0)], r3)
                  else None
                end
              end
            else None
          end
        end
      else None
    end
    = match skip_ws rest with
      | [] => None
      | c' :: r3 =>
        if c' =? COMMA then
          match read_members fuel r3 with
          | Some (ms, r4) => Some ((member_name k, of_value v) :: ms, r4)
          | None => None
          end
        else if c' =? 125 then Some ([(member_name k, of_value v)], r3)
        else None
      end) as Hstep.
  { intros rest. unfold iterencode_item. cbn [fst snd].
    rewrite <- !app_assoc, py_encode_basestring_unfold.
    cbn [skip_ws]. change (is_ws QUOTE) with false. cbv iota.
    rewrite Z.eqb_refl, read_string_body by auto.
    change (key_separator ++ ?t) with (58 :: 32 :: t).
    cbn [skip_ws]. change (is_ws 58) with false. cbv iota.
    change (58 =? 58) with true. cbv iota.
    rewrite read_value_space, read_value_value, Hname; [done|done|].
    revert Hlen. clear. destruct d; cbn [fmap list_fmap separated];
      unfold iterencode_item; cbn [fst snd]; intros; solve_length. }
  destruct d as [|kv d].
  - cbn [fmap list_fmap separated] in *.
    rewrite Hstep, skip_ws_indent. by cbn.
  - change (separated (item_separator ++ newline_indent level')
              ((fun kv => iterencode_item kv level') <$> (k, v) :: kv :: d))
      with (iterencode_item (k, v) level'
            ++ (item_separator ++ newline_indent level')
            ++ separated (item_separator ++ newline_indent level')
                 ((fun kv => iterencode_item kv level') <$> kv :: d)) in *.
    rewrite <- !app_assoc, Hstep.
    change (item_separator ++ ?t) with (COMMA :: t).
    cbn [skip_ws]. change (is_ws COMMA) with false. cbv iota.
    rewrite Z.eqb_refl, IH; [done|done|done|]. solve_length.
Qed.

Lemma read_value_dict d level fuel r :
  dict_chars zero_up d ->
  (length (iterencode_dict d level) <= fuel)%nat ->
  read_value fuel (iterencode_dict d level ++ r) = Some (of_dict d, r).
Proof.
  intros Hd Hlen. destruct d as [|kv d].
  - do 2 (destruct fuel as [|fuel]; [simpl in Hlen; lia|]). done.
  - unfold iterencode_dict, of_dict in *.
    destruct fuel as [|fuel]; [simpl in Hlen; lia|].
    rewrite <- !app_assoc.
    change (lit "{" ++ ?t) with (123 :: t).
    cbn [read_value skip_ws]. change (is_ws 123) with false. cbv iota.
    change (123 =? QUOTE) with false. change (123 =? 110) with false.
    change (123 =? 91) with false. change (123 =? 123) with true. cbv iota.
    rewrite skip_ws_indent.
    assert (exists t', separated (item_separator ++ newline_indent (S level))
                         ((fun kv => iterencode_item kv (S level))
                            <$> kv :: d)
                       = QUOTE :: t') as [t' Ht'].
    { cbn [fmap list_fmap separated].
      unfold iterencode_item, py_encode_basestring.
      destruct (_ <$> d); by eauto. }
    rewrite Ht' at 1. rewrite <- app_comm_cons.
    cbn [skip_ws]. change (is_ws QUOTE) with false. cbv iota.
    change (QUOTE =? 125) with false. cbv iota.
    rewrite read_members_separated; [done|done|done|].
    simpl in Hlen. solve_length.
Qed.

(** The text that [json.dump] writes for a dataset is read back as the
    array of the objects of its records. *)
Lemma read_dumps data :
  Forall (dict_chars zero_up) data ->
  read (dumps data) = Some (of_data data).
Proof.
  intros Hdata. unfold read, dumps, of_data.
  rewrite <- (app_nil_r (iterencode_list iterencode_dict data 0)) at 2.
  rewrite (read_value_list (dict_chars zero_up) iterencode_dict of_dict 123);
    try done.
  - by right.
  - intros [|kv d] lvl; unfold iterencode_dict; by eexists.
  - intros. by apply read_value_dict.
Qed.

End JsonTextFacts.

(** ** The world before and after *)

Lemma at_path_with_line w msg path :
  at_path (with_line w msg) path = at_path w path.
Proof. done. Qed.

Lemma open_read_with_line w msg path :
  open_read (with_line w msg) path = open_read w path.
Proof. done. Qed.

Lemma open_write_with_line w msg path :
  open_write (with_line w msg) path = open_write w path.
Proof. done. Qed.

Lemma can_print_with_line w msg msg' :
  can_print (with_line w msg) msg' = can_print w msg'.
Proof. done. Qed.

Lemma can_print_with_file w l out msg :
  can_print (with_file w l out) msg = can_print w msg.
Proof. done. Qed.

Lemma open_write_with_file w l out path :
  open_write w path = Some l -> open_write (with_file w l out) path = Some l.
Proof.
  unfold open_write, with_file. cbn [resolve fs may_write]. intros Hopen.
  destruct (resolve w path) as [l'|]; [|done].
  assert (l' = l) as ->.
  { destruct (fs w !! l') as [[c|]|]; [|done|];
      destruct (may_write w l'); by simplify_eq. }
  rewrite lookup_insert_eq.
  destruct (fs w !! l) as [[c|]|]; [|done|];
    destruct (may_write w l); by simplify_eq.
Qed.

(** A place other than the one that is written holds what it held. *)
Lemma at_path_with_file_ne w l out path :
  resolve w path <> Some l ->
  at_path (with_file w l out) path = at_path w path.
Proof.
  intros Hne. unfold at_path, with_file. cbn [resolve fs].
  destruct (resolve w path) as [l'|]; [|done].
  apply lookup_insert_ne. congruence.
Qed.

Lemma open_read_with_file_ne w l out path :
  resolve w path <> Some l ->
  open_read (with_file w l out) path = open_read w path.
Proof.
  intros Hne. unfold open_read, with_file. cbn [resolve fs may_read].
  destruct (resolve w path) as [l'|]; [|done].
  rewrite lookup_insert_ne by congruence. done.
Qed.

(** What can be read is what is there. *)
Lemma open_read_same w w' path :
  resolve w' = resolve w -> may_read w' = may_read w ->
  at_path w' path = at_path w path ->
  open_read w' path = open_read w path.
Proof.
  unfold open_read, at_path. intros -> ->.
  destruct (resolve w path) as [l|]; [|done]. by intros ->.
Qed.

Lemma forallb_always (l : list Z) : forallb (fun _ => true) l = true.
Proof. by induction l. Qed.

(** ** What was read back from the input *)

Lemma loaded_zero_up content data :
  load content = Some data -> Forall (dict_chars zero_up) data.
Proof.
  unfold load. intros Hload.
  destruct (Utf8.decode content) as [text|] eqn:Hdec; [|done].
  eapply DictReaderFacts.read_all_chars; [|done].
  apply readlines_Forall.
  eapply Forall_impl; [by apply Utf8Facts.decode_scalar with content|].
  unfold Utf8.scalar, zero_up. lia.
Qed.

(** Whenever the output file is written, it holds a JSON text that reads
    as the array of the objects of the records. *)
Lemma written_reads content data out :
  load content = Some data ->
  Utf8.encode (Json.dumps data) = Some out ->
  Utf8.decode out = Some (Json.dumps data) /\
  JsonText.read (Json.dumps data) = Some (JsonText.of_data data).
Proof.
  intros Hload Hout. split; [by apply Utf8Facts.decode_encode|].
  by eapply JsonTextFacts.read_dumps, loaded_zero_up.
Qed.

Lemma converted_reads csv_file json_file w data :
  converted csv_file json_file w data ->
  output_reads csv_file json_file w (JsonText.of_dict <$> data).
Proof.
  intros (content & out & l & Hcsv & Hload & Hout & Hl & Hrun).
  exists out, (Json.dumps data). rewrite Hrun. cbn [snd].
  rewrite at_path_with_line.
  split; [by apply at_path_with_file, open_write_resolve|].
  by apply (written_reads content).
Qed.

(** ** Records under a header of distinct fields *)

Lemma dict_setitem_fresh d k v :
  k ∉ dict_keys d -> dict_setitem d k v = d ++ [(k, v)].
Proof.
  unfold dict_keys. induction d as [|[k1 v1] d IH]; intros Hk; [done|].
  cbn [dict_setitem fmap list_fmap fst app] in *.
  apply not_elem_of_cons in Hk as [Hne Hk].
  destruct (decide (k1 = k)); [done|]. by rewrite IH.
Qed.

Lemma update_fresh pairs : forall d,
  NoDup (dict_keys d ++ pairs.*1) -> update d pairs = d ++ pairs.
Proof.
  unfold update, dict_keys.
  induction pairs as [|[k v] pairs IH]; intros d Hnd.
  - by rewrite app_nil_r.
  - cbn [foldl fst snd fmap list_fmap] in *.
    apply NoDup_app in Hnd as (Hd & Hdis & Hp).
    apply NoDup_cons in Hp as [Hk Hp].
    rewrite dict_setitem_fresh by (intros Hin; apply (Hdis _ Hin); by left).
    rewrite IH; [by rewrite <- app_assoc|].
    rewrite fmap_app. cbn [fmap list_fmap fst].
    apply NoDup_app. split; [|split; [|done]].
    + apply NoDup_app. split; [done|]. split; [|apply NoDup_singleton].
      intros k' Hin ->%list_elem_of_singleton. apply (Hdis _ Hin). by left.
    + intros k' [Hin| ->%list_elem_of_singleton]%elem_of_app Hin'.
      * apply (Hdis _ Hin). by right.
      * done.
Qed.

Lemma NoDup_KStr (l : list (list Z)) : NoDup l -> NoDup (KStr <$> l).
Proof. apply NoDup_fmap_2. by intros ? ? [= ->]. Qed.

(** With distinct header fields a record is the pairs of header fields and
    cells, in the order of the header, followed by the surplus cells under
    [None] or by the missing fields with [None]. *)
Lemma row_to_dict_distinct fieldnames row :
  NoDup fieldnames ->
  DictReader.row_to_dict fieldnames row
  = DictReader.zipped fieldnames row
    ++ (if (length fieldnames <? length row)%nat
        then [(KNone, VList (drop (length fieldnames) row))]
        else DictReader.filled fieldnames row).
Proof.
  intros Hnd.
  assert (NoDup (KStr <$> take (length row) fieldnames)) as Htake.
  { apply NoDup_KStr. eapply sublist_NoDup; [done|apply sublist_take]. }
  assert (dict (DictReader.zipped fieldnames row)
          = DictReader.zipped fieldnames row) as Hzip.
  { rewrite dict_unfold, update_fresh; [done|].
    by rewrite DictReaderFacts.zipped_keys. }
  destruct (length fieldnames <? length row)%nat eqn:Hlen.
  - apply Nat.ltb_lt in Hlen.
    rewrite DictReaderFacts.row_to_dict_long, Hzip by done.
    apply dict_setitem_fresh. unfold dict_keys.
    rewrite DictReaderFacts.zipped_keys.
    by intros (? & ? & _)%list_elem_of_fmap.
  - apply Nat.ltb_ge in Hlen.
    rewrite DictReaderFacts.row_to_dict_short, Hzip by done.
    apply update_fresh. unfold dict_keys.
    rewrite DictReaderFacts.zipped_keys, DictReaderFacts.filled_keys.
    rewrite <- fmap_app, take_drop. by apply NoDup_KStr.
Qed.

Lemma zipped_lookup fieldnames : forall row j k cell,
  fieldnames !! j = Some k -> row !! j = Some cell ->
  DictReader.zipped fieldnames row !! j = Some (KStr k, VStr cell).
Proof.
  unfold DictReader.zipped.
  induction fieldnames as [|f fs IH]; intros [|c row] [|j] k cell Hk Hc;
    simplify_eq/=; [done|]. by apply IH.
Qed.

(** The members of the object of a row as long as the header. *)
Lemma of_dict_zipped fieldnames : forall row,
  length row = length fieldnames ->
  (fun kv => (JsonText.member_name kv.1, JsonText.of_value kv.2))
    <$> DictReader.zipped fieldnames row
  = zip fieldnames (JsonText.JString <$> row).
Proof.
  unfold DictReader.zipped.
  induction fieldnames as [|f fs IH]; intros [|c row] Hlen;
    simplify_eq/=; [done|]. f_equal. by apply IH.
Qed.

(** ** Sample worlds *)

Lemma sample_parses : parses sample_csv sample_fieldnames sample_rows.
Proof.
  exists (lit "symbol,price" ++ [LF] ++ lit "AAPL,$189.50" ++ [LF]
          ++ lit "caf" ++ [233] ++ lit ", 7 " ++ [LF]).
  split; vm_compute; reflexivity.
Defined.

Lemma sample_input :
  input_file CSV_FILE (only_input sample_csv) sample_fieldnames sample_rows.
Proof. exists sample_csv. split; [reflexivity|exact sample_parses]. Defined.

Lemma sample_writable content : writable JSON_FILE (only_input content).
Proof. exists 2%N. reflexivity. Defined.

Lemma sample_reports content : reports CSV_FILE JSON_FILE (only_input content).
Proof. intros n. apply forallb_always. Defined.

Lemma long_input :
  input_file CSV_FILE (only_input long_csv)
    [lit "a"; lit "b"] [[lit "1"; lit "2"; lit "3"]].
Proof.
  exists long_csv. split; [reflexivity|].
  exists long_csv. split; vm_compute; reflexivity.
Defined.

Lemma short_input :
  input_file CSV_FILE (only_input short_csv)
    [lit "a"; lit "b"; lit "c"] [[lit "1"]].
Proof.
  exists short_csv. split; [reflexivity|].
  exists short_csv. split; vm_compute; reflexivity.
Defined.

(** ** The claims *)

(** C2. When the input file does not exist (nothing is where the input path
    leads, or it leads nowhere) and standard output can encode the error
    message, the run returns exit code 1 and prints one error message that
    names the missing path; the file system, hence the output file, is left
    as it was: nothing is created and nothing is modified. *)
Theorem convert_missing_input csv_file json_file w :
  at_path w csv_file = None ->
  can_print w (lit "ERROR: CSV file not found: " ++ csv_file) = true ->
  csv_to_json csv_file json_file w
  = (inr 1, with_line w (lit "ERROR: CSV file not found: " ++ csv_file)) /\
  fs (csv_to_json csv_file json_file w).2 = fs w.
Proof.
  intros Hcsv Hprint.
  destruct (csv_to_json_cases csv_file json_file w) as
    [Hat Hp|Hat Hp|Hat Hno|c Hc Hload|c d Hc Hload Hno
    |c d l' out Hc Hload Hl' Hout Hp|c d l' out Hc Hload Hl' Hout Hp];
    unfold not_found_message in *;
    try (apply open_read_at_path in Hc); try congruence.
  done.
Qed.

(** The sample directory without any file in it. *)
Lemma convert_missing_input_witness :
  let w := mkWorld (lookup_name sample_names) ∅ (fun _ => true)
                   (fun _ => true) (fun _ => true) [] in
  csv_to_json CSV_FILE JSON_FILE w
  = (inr 1, with_line w (lit "ERROR: CSV file not found: " ++ CSV_FILE)) /\
  fs (csv_to_json CSV_FILE JSON_FILE w).2 = fs w.
Proof.
  intros w. apply (convert_missing_input CSV_FILE JSON_FILE w);
    reflexivity.
Defined.

(** C5. When the input file holds a header row and no data row (blank lines
    after the header, if any, do not count), the output can be opened at
    some place and standard output can encode the report, the run succeeds
    with exit code 0 and the output file holds exactly the two bytes of the
    JSON text for the empty array. *)
Theorem convert_header_only csv_file json_file w fieldnames rows l :
  input_file csv_file w fieldnames rows ->
  Forall (fun row => row = []) rows ->
  open_write w json_file = Some l ->
  can_print w (converted_message 0 csv_file json_file) = true ->
  csv_to_json csv_file json_file w
  = (inr 0,
     with_line (with_file w l (lit "[]"))
               (converted_message 0 csv_file json_file)) /\
  at_path (csv_to_json csv_file json_file w).2 json_file
  = Some (File (lit "[]")).
Proof.
  intros (content & Hcsv & Hparse) Hblank Hl Hprint.
  apply parses_load in Hparse.
  rewrite DictReaderFacts.records_blank in Hparse by done.
  assert (csv_to_json csv_file json_file w
          = (inr 0,
             with_line (with_file w l (lit "[]"))
                       (converted_message 0 csv_file json_file))) as Hrun.
  { destruct (csv_to_json_cases csv_file json_file w) as
      [Hat Hp|Hat Hp|Hat Hno|c Hc Hload|c d Hc Hload Hno
      |c d l' out Hc Hload Hl' Hout Hp|c d l' out Hc Hload Hl' Hout Hp];
      try (apply open_read_at_path in Hcsv; congruence);
      simplify_eq/=; try congruence. done. }
  split; [done|]. rewrite Hrun. cbn [snd]. rewrite at_path_with_line.
  by apply at_path_with_file, open_write_resolve.
Qed.

Lemma convert_header_only_witness :
  let w := only_input (lit "symbol,price" ++ [LF]) in
  csv_to_json CSV_FILE JSON_FILE w
  = (inr 0,
     with_line (with_file w 2%N (lit "[]"))
               (converted_message 0 CSV_FILE JSON_FILE)) /\
  at_path (csv_to_json CSV_FILE JSON_FILE w).2 JSON_FILE
  = Some (File (lit "[]")).
Proof.
  intros w.
  apply (convert_header_only CSV_FILE JSON_FILE w
           [lit "symbol"; lit "price"] [] 2%N).
  - exists (lit "symbol,price" ++ [LF]). split; [reflexivity|].
    exists (lit "symbol,price" ++ [LF]). split; vm_compute; reflexivity.
  - constructor.
  - reflexivity.
  - reflexivity.
Defined.

(** The objects of the records of rows that are as long as the header. *)
Lemma object_of_row fieldnames row :
  length row = length fieldnames ->
  exists members,
    JsonText.of_dict (DictReader.row_to_dict fieldnames row)
    = JsonText.JObject members /\
    (forall k, k ∈ members.*1 <-> k ∈ fieldnames) /\
    Forall (fun m => exists s, m.2 = JsonText.JString s) members /\
    (NoDup fieldnames ->
     members = zip fieldnames (JsonText.JString <$> row)).
Proof.
  intros Hlen. eexists. split; [reflexivity|]. split; [|split].
  - intros k. rewrite <- list_fmap_compose.
    change (fst ∘ _) with (JsonText.member_name ∘ (fst : key * value -> key)).
    rewrite list_fmap_compose.
    change (fst <$> DictReader.row_to_dict fieldnames row)
      with (dict_keys (DictReader.row_to_dict fieldnames row)).
    rewrite list_elem_of_fmap. split.
    + intros (key & -> & Hkey).
      apply DictReaderFacts.row_to_dict_short_keys in Hkey; [|lia].
      by apply list_elem_of_fmap in Hkey as (f & -> & Hf).
    + intros Hk. exists (KStr k). split; [done|].
      apply DictReaderFacts.row_to_dict_short_keys; [lia|].
      by apply list_elem_of_fmap_2.
  - apply Forall_fmap.
    eapply Forall_impl; [by apply row_to_dict_strings|].
    intros [k v] [s Hs]. simpl in *. subst. by eexists.
  - intros Hnd. rewrite row_to_dict_distinct by done.
    replace (length fieldnames <? length row)%nat with false
      by (symmetry; apply Nat.ltb_ge; lia).
    unfold DictReader.filled. rewrite drop_ge by lia.
    rewrite app_nil_r. by apply of_dict_zipped.
Qed.

(** C1. For a valid CSV input whose header row is [fieldnames] (not empty)
    and whose [N] data rows all have as many cells as the header, an output
    path that can be opened and a standard output that can encode the
    report, the run succeeds with a dataset of exactly [N] records; the key
    set of each record is the set of header fields, every value is a string,
    and with distinct header fields the keys appear in header order.  The
    output file then holds a JSON text that reads as an array of exactly [N]
    objects, one per data row and in the order of the rows: the member names
    of each object are the header fields, every member value is a string,
    and with distinct header fields the members are the header fields in
    header order, each with the cell of its column. *)
Theorem convert_valid_csv csv_file json_file w fieldnames rows :
  input_file csv_file w fieldnames rows ->
  fieldnames <> [] ->
  Forall (fun row => length row = length fieldnames) rows ->
  writable json_file w ->
  reports csv_file json_file w ->
  exists data objects,
    converted csv_file json_file w data /\
    length data = length rows /\
    Forall (fun d => same_keys fieldnames d /\
                     Forall is_str d /\
                     (NoDup fieldnames -> dict_keys d = KStr <$> fieldnames))
           data /\
    output_reads csv_file json_file w objects /\
    length objects = length rows /\
    Forall2 (fun row object =>
               exists members,
                 object = JsonText.JObject members /\
                 (forall k, k ∈ members.*1 <-> k ∈ fieldnames) /\
                 Forall (fun m => exists s, m.2 = JsonText.JString s)
                        members /\
                 (NoDup fieldnames ->
                  members = zip fieldnames (JsonText.JString <$> row)))
            rows objects.
Proof.
  intros Hin Hne Hrect Hw Hprint.
  exists (DictReader.records fieldnames rows),
         (JsonText.of_dict <$> DictReader.records fieldnames rows).
  pose proof (input_file_converted _ _ _ _ _ Hin Hw Hprint) as Hconv.
  split; [done|].
  assert (Forall (fun row => row <> []) rows) as Hfull.
  { eapply Forall_impl; [exact Hrect|]. intros row Hlen ->.
    destruct fieldnames; simplify_eq/=. }
  split; [|split; [|split; [by apply converted_reads|split]]].
  - rewrite DictReaderFacts.records_no_blank by done. by rewrite length_fmap.
  - rewrite DictReaderFacts.records_no_blank by done.
    apply Forall_fmap. eapply Forall_impl; [exact Hrect|].
    intros row Hlen. simpl in *. split; [|split].
    + intros k. apply DictReaderFacts.row_to_dict_short_keys. lia.
    + by apply row_to_dict_strings.
    + intros Hnd.
      apply DictReaderFacts.row_to_dict_short_keys_order; [done|lia].
  - rewrite DictReaderFacts.records_no_blank by done.
    by rewrite !length_fmap.
  - rewrite DictReaderFacts.records_no_blank by done.
    rewrite <- list_fmap_compose. apply Forall2_fmap_r, Forall_Forall2_diag.
    eapply Forall_impl; [exact Hrect|].
    intros row Hlen. by apply object_of_row.
Qed.

Lemma convert_valid_csv_witness :
  exists data objects,
    converted CSV_FILE JSON_FILE (only_input sample_csv) data /\
    length data = length sample_rows /\
    Forall (fun d => same_keys sample_fieldnames d /\
                     Forall is_str d /\
                     (NoDup sample_fieldnames ->
                      dict_keys d = KStr <$> sample_fieldnames))
           data /\
    output_reads CSV_FILE JSON_FILE (only_input sample_csv) objects /\
    length objects = length sample_rows /\
    Forall2 (fun row object =>
               exists members,
                 object = JsonText.JObject members /\
                 (forall k, k ∈ members.*1 <-> k ∈ sample_fieldnames) /\
                 Forall (fun m => exists s, m.2 = JsonText.JString s)
                        members /\
                 (NoDup sample_fieldnames ->
                  members = zip sample_fieldnames (JsonText.JString <$> row)))
            sample_rows objects.
Proof.
  apply (convert_valid_csv CSV_FILE JSON_FILE (only_input sample_csv)
           sample_fieldnames sample_rows).
  - exact sample_input.
  - discriminate.
  - repeat constructor.
  - apply sample_writable.
  - apply sample_reports.
Defined.

(** C3, as stated, fails: the record of a data row with more cells than the
    header has the extra key [None], so its key set is not the set of header
    fields.  Input: header [a,b], one data row [1,2,3]. *)
Lemma long_row_breaks_same_keys :
  input_file CSV_FILE (only_input long_csv)
    [lit "a"; lit "b"] [[lit "1"; lit "2"; lit "3"]] /\
  writable JSON_FILE (only_input long_csv) /\
  reports CSV_FILE JSON_FILE (only_input long_csv) /\
  exists d,
    d = [(KStr (lit "a"), VStr (lit "1")); (KStr (lit "b"), VStr (lit "2"));
         (KNone, VList [lit "3"])] /\
    converted CSV_FILE JSON_FILE (only_input long_csv) [d] /\
    ~ same_keys [lit "a"; lit "b"] d.
Proof.
  split; [exact long_input|]. split; [apply sample_writable|].
  split; [apply sample_reports|].
  eexists. split; [reflexivity|]. split.
  - exact (input_file_converted _ _ _ _ _ long_input
             (sample_writable long_csv) (sample_reports long_csv)).
  - intros Hsame. destruct (Hsame KNone) as [Hin _].
    apply list_elem_of_fmap in Hin as (? & ? & _); [done|].
    unfold dict_keys. simpl. set_solver.
Qed.

(** C3, amended.  When no data row has more cells than the header, the run
    produces a dataset in which every record has the same key set, the set of
    header fields; this includes the records of short rows, whose missing
    fields hold [None].
    Here the output can be opened and standard output can encode the
    report. *)
Theorem records_same_keys csv_file json_file w fieldnames rows :
  input_file csv_file w fieldnames rows ->
  Forall (fun row => (length row <= length fieldnames)%nat) rows ->
  writable json_file w ->
  reports csv_file json_file w ->
  exists data,
    converted csv_file json_file w data /\
    data = DictReader.row_to_dict fieldnames
             <$> filter (fun row => row <> []) rows /\
    Forall (same_keys fieldnames) data /\
    forall row k,
      k ∈ drop (length row) fieldnames ->
      dict_getitem (DictReader.row_to_dict fieldnames row) (KStr k)
      = Some VNone.
Proof.
  intros Hin Hshort Hw Hprint. exists (DictReader.records fieldnames rows).
  split; [by apply input_file_converted|].
  split; [apply DictReaderFacts.records_filter|].
  split; [|intros; by apply DictReaderFacts.row_to_dict_short_rest].
  rewrite DictReaderFacts.records_filter. apply Forall_fmap, Forall_forall.
  intros row [_ Hrow]%list_elem_of_filter k. simpl.
  apply DictReaderFacts.row_to_dict_short_keys.
  by apply (proj1 (Forall_forall _ _) Hshort).
Qed.

Lemma records_same_keys_witness :
  exists data,
    converted CSV_FILE JSON_FILE (only_input short_csv) data /\
    data = DictReader.row_to_dict [lit "a"; lit "b"; lit "c"]
             <$> filter (fun row => row <> []) [[lit "1"]] /\
    Forall (same_keys [lit "a"; lit "b"; lit "c"]) data /\
    forall row k,
      k ∈ drop (length row) [lit "a"; lit "b"; lit "c"] ->
      dict_getitem
        (DictReader.row_to_dict [lit "a"; lit "b"; lit "c"] row) (KStr k)
      = Some VNone.
Proof.
  apply (records_same_keys CSV_FILE JSON_FILE (only_input short_csv)
           [lit "a"; lit "b"; lit "c"] [[lit "1"]]).
  - exact short_input.
  - repeat constructor.
  - apply sample_writable.
  - apply sample_reports.
Defined.

Lemma elem_of_records fieldnames rows row :
  row ∈ rows -> row <> [] ->
  DictReader.row_to_dict fieldnames row ∈ DictReader.records fieldnames rows.
Proof.
  intros Hin Hne. rewrite DictReaderFacts.records_filter.
  apply list_elem_of_fmap_2. by apply list_elem_of_filter.
Qed.

(** A pair of a record gives a member of its object. *)
Lemma member_of_pair d k v :
  (k, v) ∈ d ->
  exists members,
    JsonText.of_dict d = JsonText.JObject members /\
    (JsonText.member_name k, JsonText.of_value v) ∈ members.
Proof.
  intros Hin. eexists. split; [reflexivity|].
  by apply (list_elem_of_fmap_2
              (fun kv => (JsonText.member_name kv.1, JsonText.of_value kv.2))
              d (k, v)).
Qed.

Lemma elem_of_dict_getitem d k v : dict_getitem d k = Some v -> (k, v) ∈ d.
Proof.
  induction d as [|[k1 v1] d IH]; [done|]. cbn [dict_getitem].
  destruct (decide (k1 = k)) as [->|].
  - intros [= ->]. by left.
  - intros Hget. right. by apply IH.
Qed.

(** C9. A data row with fewer cells than header fields (and at least one
    cell: a blank line gives no object at all) yields a record in which
    every missing field is present with the value [None], which is written
    as the JSON literal [null]; it is not the empty string.  The output file
    reads as an array that holds the object of that record, and in this
    object the missing field is a member whose value is [null].
    Here the output can be opened and standard output can encode the
    report. *)
Theorem short_row_fills_none csv_file json_file w fieldnames rows row k :
  input_file csv_file w fieldnames rows ->
  writable json_file w ->
  reports csv_file json_file w ->
  row ∈ rows -> row <> [] ->
  (length row < length fieldnames)%nat ->
  k ∈ drop (length row) fieldnames ->
  exists data d objects members,
    converted csv_file json_file w data /\
    d ∈ data /\ d = DictReader.row_to_dict fieldnames row /\
    KStr k ∈ dict_keys d /\
    dict_getitem d (KStr k) = Some VNone /\
    dict_getitem d (KStr k) <> Some (VStr []) /\
    (forall level,
       Json.iterencode_item (KStr k, VNone) level
       = Json.py_encode_basestring k ++ lit ": null") /\
    output_reads csv_file json_file w objects /\
    JsonText.JObject members ∈ objects /\
    members.*1 = JsonText.member_name <$> dict_keys d /\
    (k, JsonText.JNull) ∈ members.
Proof.
  intros Hin Hw Hprint Hrow Hne Hlt Hk.
  pose proof (input_file_converted _ _ _ _ _ Hin Hw Hprint) as Hconv.
  assert (dict_getitem (DictReader.row_to_dict fieldnames row) (KStr k)
          = Some VNone) as Hnone
    by (by apply DictReaderFacts.row_to_dict_short_rest).
  destruct (member_of_pair _ _ _ (elem_of_dict_getitem _ _ _ Hnone))
    as (members & Hobj & Hmem).
  exists (DictReader.records fieldnames rows),
         (DictReader.row_to_dict fieldnames row),
         (JsonText.of_dict <$> DictReader.records fieldnames rows), members.
  split; [done|].
  split; [by apply elem_of_records|]. split; [done|].
  split.
  { apply DictReaderFacts.row_to_dict_short_keys; [lia|].
    apply list_elem_of_fmap_2.
    eapply elem_of_sublist; [done|]. apply sublist_drop. }
  split; [done|]. split; [by rewrite Hnone|]. split; [done|].
  split; [by apply converted_reads|].
  split; [rewrite <- Hobj; by apply list_elem_of_fmap_2, elem_of_records|].
  split; [|done].
  injection Hobj as <-. unfold dict_keys. by rewrite <- !list_fmap_compose.
Qed.

Lemma short_row_fills_none_witness :
  exists data d objects members,
    converted CSV_FILE JSON_FILE (only_input short_csv) data /\
    d ∈ data /\
    d = DictReader.row_to_dict [lit "a"; lit "b"; lit "c"] [lit "1"] /\
    KStr (lit "c") ∈ dict_keys d /\
    dict_getitem d (KStr (lit "c")) = Some VNone /\
    dict_getitem d (KStr (lit "c")) <> Some (VStr []) /\
    (forall level,
       Json.iterencode_item (KStr (lit "c"), VNone) level
       = Json.py_encode_basestring (lit "c") ++ lit ": null") /\
    output_reads CSV_FILE JSON_FILE (only_input short_csv) objects /\
    JsonText.JObject members ∈ objects /\
    members.*1 = JsonText.member_name <$> dict_keys d /\
    (lit "c", JsonText.JNull) ∈ members.
Proof.
  apply (short_row_fills_none CSV_FILE JSON_FILE (only_input short_csv)
           [lit "a"; lit "b"; lit "c"] [[lit "1"]] [lit "1"] (lit "c")).
  - exact short_input.
  - apply sample_writable.
  - apply sample_reports.
  - by left.
  - discriminate.
  - simpl. lia.
  - simpl. right. by left.
Defined.

(** The object of the record of a row that is longer than the header: the
    members of the header fields, then the member [null] with the array of
    the surplus cells. *)
Lemma object_of_long_row fieldnames row :
  (length fieldnames < length row)%nat ->
  exists members,
    JsonText.of_dict (DictReader.row_to_dict fieldnames row)
    = JsonText.JObject
        (members
         ++ [(lit "null",
              JsonText.JArray
                (JsonText.JString <$> drop (length fieldnames) row))]) /\
    (forall k, k ∈ members.*1 <-> k ∈ fieldnames) /\
    Forall (fun m => exists s, m.2 = JsonText.JString s) members /\
    (NoDup fieldnames ->
     members = zip fieldnames (JsonText.JString <$> row)).
Proof.
  intros Hlt.
  rewrite DictReaderFacts.row_to_dict_long by done.
  assert (KNone ∉ dict_keys (dict (DictReader.zipped fieldnames row)))
    as Hfresh.
  { rewrite dict_unfold. intros Hin.
    apply elem_of_dict_keys_update in Hin as [Hin|Hin]; [by inversion Hin|].
    rewrite DictReaderFacts.zipped_keys in Hin.
    by apply list_elem_of_fmap in Hin as (? & ? & _). }
  rewrite dict_setitem_fresh by done.
  unfold JsonText.of_dict. rewrite fmap_app.
  eexists. split; [reflexivity|]. split; [|split].
  - intros k. rewrite <- list_fmap_compose.
    change (fst ∘ _) with (JsonText.member_name ∘ (fst : key * value -> key)).
    rewrite list_fmap_compose.
    change (fst <$> dict (DictReader.zipped fieldnames row))
      with (dict_keys (dict (DictReader.zipped fieldnames row))).
    destruct (DictReaderFacts.row_to_dict_long_keys fieldnames row Hlt)
      as [_ Hkeys].
    rewrite list_elem_of_fmap. split.
    + intros (key & -> & Hkey). apply Hkeys in Hkey.
      by apply list_elem_of_fmap in Hkey as (f & -> & Hf).
    + intros Hk. exists (KStr k). split; [done|].
      apply Hkeys. by apply list_elem_of_fmap_2.
  - apply Forall_fmap. rewrite dict_unfold.
    apply Forall_update; [constructor|].
    unfold DictReader.zipped. clear. revert row.
    induction fieldnames as [|f fs IH]; intros [|c row]; simpl;
      try constructor; [by eexists|apply IH].
  - intros Hnd.
    assert (dict (DictReader.zipped fieldnames row)
            = DictReader.zipped fieldnames row) as ->.
    { rewrite dict_unfold, update_fresh; [done|].
      rewrite DictReaderFacts.zipped_keys. apply NoDup_KStr.
      eapply sublist_NoDup; [done|apply sublist_take]. }
    unfold DictReader.zipped. clear Hfresh Hnd. revert row Hlt.
    induction fieldnames as [|f fs IH]; intros [|c row] Hlt;
      simpl in *; try lia; [done..|]. f_equal. apply IH. lia.
Qed.

(** C10. A data row with more cells than header fields yields a record with
    one key more than the header gives: the [DictReader] [restkey], [None],
    which comes last; its value is the list of the surplus cells, so not
    every value of that record is a string.  The output file reads as an
    array in which the object of the row (the [i]-th row that is not blank
    gives the [i]-th object) has the members of the header fields, all
    strings, followed by one member more, whose name is [null] and whose
    value is the array of the surplus cells, as strings.
    Here the output can be opened and standard output can encode the
    report. *)
Theorem long_row_gets_restkey csv_file json_file w fieldnames rows i row :
  input_file csv_file w fieldnames rows ->
  writable json_file w ->
  reports csv_file json_file w ->
  filter (fun row => row <> []) rows !! i = Some row ->
  (length fieldnames < length row)%nat ->
  exists data d surplus objects members,
    converted csv_file json_file w data /\
    data !! i = Some d /\ d = DictReader.row_to_dict fieldnames row /\
    surplus = drop (length fieldnames) row /\ surplus <> [] /\
    (exists ks, dict_keys d = ks ++ [KNone] /\
                forall k, k ∈ ks <-> k ∈ KStr <$> fieldnames) /\
    (KNone ∉ KStr <$> fieldnames) /\
    dict_getitem d KNone = Some (VList surplus) /\
    (forall s, dict_getitem d KNone <> Some (VStr s)) /\
    output_reads csv_file json_file w objects /\
    length objects = length (filter (fun row => row <> []) rows) /\
    objects !! i
    = Some (JsonText.JObject
              (members
               ++ [(lit "null",
                    JsonText.JArray (JsonText.JString <$> surplus))])) /\
    (forall k, k ∈ members.*1 <-> k ∈ fieldnames) /\
    Forall (fun m => exists s, m.2 = JsonText.JString s) members /\
    (NoDup fieldnames ->
     members = zip fieldnames (JsonText.JString <$> row)).
Proof.
  intros Hin Hw Hprint Hrow Hlt.
  pose proof (input_file_converted _ _ _ _ _ Hin Hw Hprint) as Hconv.
  destruct (object_of_long_row fieldnames row Hlt)
    as (members & Hobj & Hnames & Hstr & Hzip).
  exists (DictReader.records fieldnames rows),
         (DictReader.row_to_dict fieldnames row),
         (drop (length fieldnames) row),
         (JsonText.of_dict <$> DictReader.records fieldnames rows), members.
  destruct (DictReaderFacts.row_to_dict_long_keys fieldnames row Hlt)
    as [Hkeys Hks].
  pose proof (DictReaderFacts.row_to_dict_long_rest fieldnames row Hlt)
    as Hrest.
  assert (DictReader.records fieldnames rows !! i
          = Some (DictReader.row_to_dict fieldnames row)) as Hd.
  { rewrite DictReaderFacts.records_filter, list_lookup_fmap.
    by rewrite Hrow. }
  split; [done|]. split; [done|]. split; [done|]. split; [done|].
  split.
  { intros Hnil. apply (f_equal length) in Hnil.
    rewrite length_drop in Hnil. simpl in Hnil. lia. }
  split; [eauto|].
  split; [by intros (? & ? & _)%list_elem_of_fmap|].
  split; [done|]. split; [by rewrite Hrest|].
  split; [by apply converted_reads|].
  split; [by rewrite DictReaderFacts.records_filter, !length_fmap|].
  split; [by rewrite list_lookup_fmap, Hd, <- Hobj|]. done.
Qed.

Lemma long_row_gets_restkey_witness :
  exists data d surplus objects members,
    converted CSV_FILE JSON_FILE (only_input long_csv) data /\
    data !! 0%nat = Some d /\
    d = DictReader.row_to_dict [lit "a"; lit "b"]
          [lit "1"; lit "2"; lit "3"] /\
    surplus = drop (length [lit "a"; lit "b"])
                [lit "1"; lit "2"; lit "3"] /\
    surplus <> [] /\
    (exists ks, dict_keys d = ks ++ [KNone] /\
                forall k, k ∈ ks <-> k ∈ KStr <$> [lit "a"; lit "b"]) /\
    (KNone ∉ KStr <$> [lit "a"; lit "b"]) /\
    dict_getitem d KNone = Some (VList surplus) /\
    (forall s, dict_getitem d KNone <> Some (VStr s)) /\
    output_reads CSV_FILE JSON_FILE (only_input long_csv) objects /\
    length objects
    = length (filter (fun row => row <> []) [[lit "1"; lit "2"; lit "3"]]) /\
    objects !! 0%nat
    = Some (JsonText.JObject
              (members
               ++ [(lit "null",
                    JsonText.JArray (JsonText.JString <$> surplus))])) /\
    (forall k, k ∈ members.*1 <-> k ∈ [lit "a"; lit "b"]) /\
    Forall (fun m => exists s, m.2 = JsonText.JString s) members /\
    (NoDup [lit "a"; lit "b"] ->
     members = zip [lit "a"; lit "b"]
                   (JsonText.JString <$> [lit "1"; lit "2"; lit "3"])).
Proof.
  apply (long_row_gets_restkey CSV_FILE JSON_FILE (only_input long_csv)
           [lit "a"; lit "b"] [[lit "1"; lit "2"; lit "3"]] 0%nat
           [lit "1"; lit "2"; lit "3"]).
  - exact long_input.
  - apply sample_writable.
  - apply sample_reports.
  - reflexivity.
  - simpl. lia.
Defined.

(** The run on [sample_csv], evaluated: the two bytes of U+00E9 and the
    blanks around the digit reach the output as they are. *)
Example convert_sample :
  csv_to_json CSV_FILE JSON_FILE (only_input sample_csv)
  = (inr 0,
     with_line
       (with_file (only_input sample_csv) 2%N
          (lit "[" ++ [LF]
           ++ lit "  {" ++ [LF]
           ++ lit "    " ++ [QUOTE] ++ lit "symbol" ++ [QUOTE]
           ++ lit ": " ++ [QUOTE] ++ lit "AAPL" ++ [QUOTE]
           ++ lit "," ++ [LF]
           ++ lit "    " ++ [QUOTE] ++ lit "price" ++ [QUOTE]
           ++ lit ": " ++ [QUOTE] ++ lit "$189.50" ++ [QUOTE] ++ [LF]
           ++ lit "  }," ++ [LF]
           ++ lit "  {" ++ [LF]
           ++ lit "    " ++ [QUOTE] ++ lit "symbol" ++ [QUOTE]
           ++ lit ": " ++ [QUOTE] ++ lit "caf" ++ [195; 169]
           ++ [QUOTE] ++ lit "," ++ [LF]
           ++ lit "    " ++ [QUOTE] ++ lit "price" ++ [QUOTE]
           ++ lit ": " ++ [QUOTE] ++ lit " 7 " ++ [QUOTE] ++ [LF]
           ++ lit "  }" ++ [LF]
           ++ lit "]"))
       ([9989] ++ lit " Converted 2 rows from 'marketdata.csv' "
          ++ [8594] ++ lit " 'marketdata.json'")).
Proof. vm_compute. reflexivity. Qed.

(** How a run goes depends on the world through what the input path holds,
    through where the output can be written and through what standard
    output can encode. *)
Lemma csv_to_json_result csv_file json_file w :
  csv_to_json csv_file json_file w
  = match at_path w csv_file with
    | None =>
      if can_print w (not_found_message csv_file)
      then (inr 1, with_line w (not_found_message csv_file))
      else (inl Printing, w)
    | Some _ =>
      match open_read w csv_file with
      | None => (inl OpenForReading, w)
      | Some content =>
        match load content with
        | None => (inl Reading, w)
        | Some data =>
          match open_write w json_file with
          | None => (inl OpenForWriting, w)
          | Some l =>
            match Utf8.encode (Json.dumps data) with
            | None => (inl Writing, with_file w l [])
            | Some out =>
              if can_print w (converted_message (length data) csv_file
                                json_file)
              then (inr 0,
                    with_line (with_file w l out)
                      (converted_message (length data) csv_file json_file))
              else (inl Printing, with_file w l out)
            end
          end
        end
      end
    end.
Proof.
  run_script.
  destruct (at_path w csv_file) as [n|] eqn:Hat.
  - rewrite bool_decide_true by eauto. cbv beta iota delta [negb].
    destruct (open_read w csv_file) as [content|]; [|done].
    destruct (load content) as [data|]; [|done].
    destruct (open_write w json_file) as [l|]; [|done].
    destruct (Utf8.encode (Json.dumps data)) as [out|]; [|done].
    change (can_print (with_file w l out)) with (can_print w).
    by destruct (can_print w _).
  - rewrite bool_decide_false by (by intros [? ?]).
    cbv beta iota delta [negb]. by destruct (can_print w _).
Qed.

(** A run changes neither where the paths lead, nor what may be read or
    written, nor what standard output can encode. *)
Lemma csv_to_json_same_setting csv_file json_file w :
  let w' := (csv_to_json csv_file json_file w).2 in
  resolve w' = resolve w /\ may_read w' = may_read w /\
  may_write w' = may_write w /\ console w' = console w.
Proof. by destruct (csv_to_json_cases csv_file json_file w). Qed.

(** C6. Running the script a second time, on an input file that the first
    run left unchanged, ends the same way and leaves the disk, so the output
    file, byte for byte as the first run left it. *)
Theorem convert_twice_same_output csv_file json_file w r1 w1 r2 w2 :
  csv_to_json csv_file json_file w = (r1, w1) ->
  csv_to_json csv_file json_file w1 = (r2, w2) ->
  at_path w1 csv_file = at_path w csv_file ->
  r2 = r1 /\ at_path w2 json_file = at_path w1 json_file /\ fs w2 = fs w1.
Proof.
  intros Hrun1 Hrun2 Hsame.
  destruct (csv_to_json_same_setting csv_file json_file w)
    as (Hres & Hrd & Hwr & Hcon).
  rewrite Hrun1 in Hres, Hrd, Hwr, Hcon. cbn [snd] in *.
  assert (open_read w1 csv_file = open_read w csv_file) as Hopen
    by (by apply open_read_same).
  assert (forall msg, can_print w1 msg = can_print w msg) as Hprint
    by (intros; unfold can_print; by rewrite Hcon).
  rewrite csv_to_json_result in Hrun2.
  rewrite Hsame, Hopen, !Hprint in Hrun2.
  pose proof (csv_to_json_cases csv_file json_file w) as Hcase.
  rewrite Hrun1 in Hcase.
  inversion Hcase as
    [Hat Hp|Hat Hp|Hat Hno|c Hc Hload|c d Hc Hload Hno
    |c d l out Hc Hload Hl Hout Hp|c d l out Hc Hload Hl Hout Hp];
    subst; try (pose proof (open_read_at_path _ _ _ Hc) as Hat').
  - rewrite Hat, Hp in Hrun2. by simplify_eq.
  - rewrite Hat, Hp in Hrun2. by simplify_eq.
  - destruct (at_path w1 csv_file) eqn:Hat'; [|done].
    rewrite Hno in Hrun2. by simplify_eq.
  - rewrite Hat', Hc, Hload in Hrun2. by simplify_eq.
  - rewrite Hat', Hc, Hload, Hno in Hrun2. by simplify_eq.
  - rewrite Hat', Hc, Hload, open_write_with_line in Hrun2.
    rewrite (open_write_with_file _ _ _ _ Hl), Hout, Hprint, Hp in Hrun2.
    simplify_eq. split; [done|]. unfold at_path.
    cbn [fs resolve with_line with_file]. by rewrite insert_insert_eq.
  - rewrite Hat', Hc, Hload in Hrun2.
    rewrite (open_write_with_file _ _ _ _ Hl), Hout, Hprint, Hp in Hrun2.
    simplify_eq. split; [done|]. unfold at_path.
    cbn [fs resolve with_line with_file]. by rewrite insert_insert_eq.
Qed.

Lemma convert_twice_same_output_witness :
  let run1 := csv_to_json CSV_FILE JSON_FILE (only_input sample_csv) in
  let run2 := csv_to_json CSV_FILE JSON_FILE run1.2 in
  run2.1 = run1.1 /\
  at_path run2.2 JSON_FILE = at_path run1.2 JSON_FILE /\
  fs run2.2 = fs run1.2.
Proof.
  intros run1 run2.
  apply (convert_twice_same_output CSV_FILE JSON_FILE
           (only_input sample_csv) run1.1 run1.2 run2.1 run2.2).
  - apply surjective_pairing.
  - apply surjective_pairing.
  - vm_compute. reflexivity.
Defined.



(** C8, as stated, fails: called with the same path for input and output,
    the script overwrites its input with the JSON text.  Input: a file with
    the lines [a] and [1], passed as both paths. *)
Lemma same_path_overwrites_input :
  let w := only_input (lit "a" ++ [LF] ++ lit "1" ++ [LF]) in
  let run := csv_to_json CSV_FILE CSV_FILE w in
  run.1 = inr 0 /\
  at_path w CSV_FILE = Some (File (lit "a" ++ [LF] ++ lit "1" ++ [LF])) /\
  at_path run.2 CSV_FILE
  = Some (File (lit "[" ++ [LF] ++ lit "  {" ++ [LF] ++ lit "    "
                ++ [QUOTE] ++ lit "a" ++ [QUOTE] ++ lit ": "
                ++ [QUOTE] ++ lit "1" ++ [QUOTE] ++ [LF]
                ++ lit "  }" ++ [LF] ++ lit "]")) /\
  at_path run.2 CSV_FILE <> at_path w CSV_FILE.
Proof.
  intros w run.
  split; [vm_compute; reflexivity|]. split; [vm_compute; reflexivity|].
  split; [vm_compute; reflexivity|]. vm_compute. discriminate.
Qed.

(** The same happens when the output path is another name of the input
    file: here the input is [marketdata.csv] and the output is written to
    [./marketdata.csv]. *)
Lemma other_name_overwrites_input :
  let w := only_input (lit "a" ++ [LF] ++ lit "1" ++ [LF]) in
  let run := csv_to_json CSV_FILE (lit "./marketdata.csv") w in
  CSV_FILE <> lit "./marketdata.csv" /\
  run.1 = inr 0 /\
  at_path run.2 CSV_FILE
  = Some (File (lit "[" ++ [LF] ++ lit "  {" ++ [LF] ++ lit "    "
                ++ [QUOTE] ++ lit "a" ++ [QUOTE] ++ lit ": "
                ++ [QUOTE] ++ lit "1" ++ [QUOTE] ++ [LF]
                ++ lit "  }" ++ [LF] ++ lit "]")).
Proof.
  intros w run.
  split; [vm_compute; discriminate|].
  split; vm_compute; reflexivity.
Qed.

(** C8, amended.  When the output path does not lead to the place of the
    input file, no run, however it ends, changes what the input path holds.
    And the output is overwritten whatever it holds: when the input is a
    table and an output file exists and can be opened, the output path holds
    afterwards the bytes of the JSON text of the records, which do not
    depend on the old content, even when the report cannot be printed. *)
Theorem convert_keeps_input csv_file json_file w r w' :
  (forall l, resolve w csv_file = Some l -> resolve w json_file <> Some l) ->
  csv_to_json csv_file json_file w = (r, w') ->
  at_path w' csv_file = at_path w csv_file /\
  forall fieldnames rows old,
    input_file csv_file w fieldnames rows ->
    writable json_file w ->
    at_path w json_file = Some (File old) ->
    exists out,
      Utf8.encode (Json.dumps (DictReader.records fieldnames rows))
      = Some out /\
      at_path w' json_file = Some (File out) /\
      output_reads csv_file json_file w
        (JsonText.of_dict <$> DictReader.records fieldnames rows).
Proof.
  intros Hne Hrun.
  pose proof (csv_to_json_cases csv_file json_file w) as Hcase.
  assert (forall l out,
            open_write w json_file = Some l ->
            at_path (with_file w l out) csv_file = at_path w csv_file)
    as Hkeep.
  { intros l out Hl%open_write_resolve. apply at_path_with_file_ne.
    intros Hcsv. by apply (Hne l). }
  assert (forall l out,
            open_write w json_file = Some l ->
            at_path (with_file w l out) json_file = Some (File out))
    as Hnew.
  { intros l out Hl%open_write_resolve. by apply at_path_with_file. }
  split.
  - rewrite Hrun in Hcase.
    inversion Hcase; subst; rewrite ?at_path_with_line; auto.
  - intros fieldnames rows old (content & Hc & Hparse) [l Hl] Hold.
    apply parses_load in Hparse.
    unfold output_reads. rewrite Hrun in *. cbn [snd].
    inversion Hcase as
      [Hat Hp|Hat Hp|Hat Hno|c' Hc' Hload|c' d Hc' Hload Hno
      |c' d l' out Hc' Hload Hl' Hout Hp|c' d l' out Hc' Hload Hl' Hout Hp];
      subst; try (pose proof (open_read_at_path _ _ _ Hc)); try congruence;
      simplify_eq; exists out; rewrite ?at_path_with_line;
      (split; [done|]); (split; [by apply Hnew|]);
      exists out, (Json.dumps (DictReader.records fieldnames rows));
      (split; [by apply Hnew|]); by eapply written_reads.
Qed.

(** A world in which the output file exists, with some old content. *)
Lemma convert_keeps_input_witness :
  let w := with_file (only_input sample_csv) 2%N (lit "old") in
  let run := csv_to_json CSV_FILE JSON_FILE w in
  at_path w JSON_FILE = Some (File (lit "old")) /\
  at_path run.2 CSV_FILE = at_path w CSV_FILE /\
  exists out,
    Utf8.encode (Json.dumps (DictReader.records sample_fieldnames sample_rows))
    = Some out /\
    at_path run.2 JSON_FILE = Some (File out) /\
    output_reads CSV_FILE JSON_FILE w
      (JsonText.of_dict <$> DictReader.records sample_fieldnames sample_rows).
Proof.
  intros w run. split; [reflexivity|].
  destruct (convert_keeps_input CSV_FILE JSON_FILE w run.1 run.2)
    as [Hkeep Hover].
  - intros l Hl. vm_compute in Hl. injection Hl as <-.
    vm_compute. discriminate.
  - apply surjective_pairing.
  - split; [exact Hkeep|].
    apply (Hover sample_fieldnames sample_rows (lit "old")).
    + exists sample_csv. split; [reflexivity|exact sample_parses].
    + exists 2%N. reflexivity.
    + reflexivity.
Defined.

(** ** Further properties of the run *)

(** X1. A run changes nothing on disk except, possibly, what is at the
    place to which the output path leads: every other place holds
    afterwards what it held before, however the run ends, and every path
    leads where it led.  (A path that is another name of the output file,
    or a link to it, leads to the same place and shows the new content.) *)
Theorem convert_frame csv_file json_file w l :
  resolve w json_file <> Some l ->
  fs (csv_to_json csv_file json_file w).2 !! l = fs w !! l /\
  forall p, resolve (csv_to_json csv_file json_file w).2 p = resolve w p.
Proof.
  intros Hl.
  destruct (csv_to_json_cases csv_file json_file w) as
    [Hat Hp|Hat Hp|Hat Hno|c Hc Hload|c d Hc Hload Hno
    |c d l' out Hc Hload Hl' Hout Hp|c d l' out Hc Hload Hl' Hout Hp];
    cbn [snd fs resolve with_line with_file]; try done;
    apply open_write_resolve in Hl';
    (split; [|done]); apply lookup_insert_ne; congruence.
Qed.

Lemma convert_frame_witness :
  fs (csv_to_json CSV_FILE JSON_FILE (only_input sample_csv)).2 !! 1%N
  = fs (only_input sample_csv) !! 1%N /\
  forall p,
    resolve (csv_to_json CSV_FILE JSON_FILE (only_input sample_csv)).2 p
    = resolve (only_input sample_csv) p.
Proof.
  apply (convert_frame CSV_FILE JSON_FILE (only_input sample_csv) 1%N).
  vm_compute. discriminate.
Defined.

(** X2. A run that ends before the output is opened leaves the whole disk
    as it was: the output file is neither created nor truncated when the
    input is missing, cannot be opened or cannot be read, or when the output
    cannot be opened, because the input is read to the end before the output
    is opened.  Such a run, when it raises, prints nothing. *)
Theorem convert_failure_keeps_disk csv_file json_file w :
  (csv_to_json csv_file json_file w).1 = inr 1 \/
  (csv_to_json csv_file json_file w).1 = inl OpenForReading \/
  (csv_to_json csv_file json_file w).1 = inl Reading \/
  (csv_to_json csv_file json_file w).1 = inl OpenForWriting \/
  at_path w csv_file = None ->
  fs (csv_to_json csv_file json_file w).2 = fs w /\
  ((forall code, (csv_to_json csv_file json_file w).1 <> inr code) ->
   (csv_to_json csv_file json_file w).2 = w).
Proof.
  destruct (csv_to_json_cases csv_file json_file w) as
    [Hat Hp|Hat Hp|Hat Hno|c Hc Hload|c d Hc Hload Hno
    |c d l' out Hc Hload Hl' Hout Hp|c d l' out Hc Hload Hl' Hout Hp];
    cbn [fst snd fs with_line];
    try (pose proof (open_read_at_path _ _ _ Hc));
    intros Hfail; try done;
    try (by destruct Hfail as [?|[?|[?|[?|?]]]]; congruence).
  split; [done|]. intros Hraise. by destruct (Hraise 1).
Qed.

(** A world where the input is not valid UTF-8 and an output exists. *)
Lemma convert_failure_keeps_disk_witness :
  let w := with_file (only_input [255]) 2%N (lit "[]") in
  fs (csv_to_json CSV_FILE JSON_FILE w).2 = fs w /\
  ((forall code, (csv_to_json CSV_FILE JSON_FILE w).1 <> inr code) ->
   (csv_to_json CSV_FILE JSON_FILE w).2 = w).
Proof.
  intros w. apply (convert_failure_keeps_disk CSV_FILE JSON_FILE w).
  right. right. left. vm_compute. reflexivity.
Defined.

(** X3. The outcomes of a run.  It returns 1 exactly when nothing is at the
    input path and the error message can be printed; the only other exit
    code is 0; it never raises while writing the JSON text, since whatever
    was decoded and read can be encoded again.  What was printed before
    stays, and the run adds one message when it returns and none when it
    raises. *)
Theorem convert_outcomes csv_file json_file w :
  (csv_to_json csv_file json_file w).1 <> inl Writing /\
  ((csv_to_json csv_file json_file w).1 = inr 1
   <-> at_path w csv_file = None /\
       can_print w (not_found_message csv_file) = true) /\
  (forall code, (csv_to_json csv_file json_file w).1 = inr code ->
                code = 0 \/ code = 1) /\
  exists msgs,
    stdout (csv_to_json csv_file json_file w).2 = stdout w ++ msgs /\
    length msgs
    = match (csv_to_json csv_file json_file w).1 with
      | inl _ => 0%nat
      | inr _ => 1%nat
      end.
Proof.
  destruct (csv_to_json_cases csv_file json_file w) as
    [Hat Hp|Hat Hp|Hat Hno|c Hc Hload|c d Hc Hload Hno
    |c d l' out Hc Hload Hl' Hout Hp|c d l' out Hc Hload Hl' Hout Hp];
    cbn [fst snd stdout with_line with_file];
    try (pose proof (open_read_at_path _ _ _ Hc));
    (split; [done|]);
    (split; [split; [intros ?; first [congruence|split; congruence]
                    |intros [? ?]; congruence]|]);
    (split; [intros code [= <-]; auto|]);
    first [ by eexists [_] | exists []; by rewrite app_nil_r ].
Qed.

(** X4. The script as it is invoked, with its two fixed file names, on a
    table that can be read and with an output that can be opened: afterwards
    [marketdata.json] holds the JSON text, and [marketdata.csv] holds what
    it held before, unless the two names lead to the same place (one is a
    link to the other); then [marketdata.csv] holds the JSON text and the
    table is lost.  The report plays no part in this. *)
Theorem main_input_after_run w fieldnames rows :
  input_file CSV_FILE w fieldnames rows ->
  writable JSON_FILE w ->
  exists out,
    Utf8.encode (Json.dumps (DictReader.records fieldnames rows))
    = Some out /\
    at_path (main w).2 JSON_FILE = Some (File out) /\
    at_path (main w).2 CSV_FILE
    = if decide (resolve w JSON_FILE = resolve w CSV_FILE)
      then Some (File out) else at_path w CSV_FILE.
Proof.
  intros (content & Hcsv & Hparse) [l Hl]. apply parses_load in Hparse.
  unfold main.
  assert (forall out,
            at_path (with_file w l out) JSON_FILE = Some (File out) /\
            at_path (with_file w l out) CSV_FILE
            = if decide (resolve w JSON_FILE = resolve w CSV_FILE)
              then Some (File out) else at_path w CSV_FILE) as Hafter.
  { intros out. pose proof (open_write_resolve _ _ _ Hl) as Hres.
    split; [by apply at_path_with_file|].
    destruct (decide (resolve w JSON_FILE = resolve w CSV_FILE)) as [Heq|Hne].
    - apply at_path_with_file. congruence.
    - apply at_path_with_file_ne. congruence. }
  destruct (csv_to_json_cases CSV_FILE JSON_FILE w) as
    [Hat Hp|Hat Hp|Hat Hno|c Hc Hload|c d Hc Hload Hno
    |c d l' out Hc Hload Hl' Hout Hp|c d l' out Hc Hload Hl' Hout Hp];
    try (pose proof (open_read_at_path _ _ _ Hcsv)); try congruence;
    simplify_eq; exists out; cbn [snd]; rewrite ?at_path_with_line;
    (split; [done|]); apply Hafter.
Qed.

(** A world in which [marketdata.json] is a link to [marketdata.csv]. *)
Lemma main_input_after_run_witness :
  let w := mkWorld (fun p => if decide (p = CSV_FILE) then Some 1%N
                             else if decide (p = JSON_FILE) then Some 1%N
                             else None)
                   {[ 1%N := File sample_csv ]}
                   (fun _ => true) (fun _ => true) (fun _ => true) [] in
  exists out,
    Utf8.encode (Json.dumps (DictReader.records sample_fieldnames sample_rows))
    = Some out /\
    at_path (main w).2 JSON_FILE = Some (File out) /\
    at_path (main w).2 CSV_FILE
    = if decide (resolve w JSON_FILE = resolve w CSV_FILE)
      then Some (File out) else at_path w CSV_FILE.
Proof.
  intros w. apply (main_input_after_run w sample_fieldnames sample_rows).
  - exists sample_csv. split; [reflexivity|exact sample_parses].
  - exists 1%N. reflexivity.
Defined.

(** X17. A run can raise and still leave a new output file.  When the
    table is read and the output is opened but standard output cannot
    encode the report (its first character is U+2705), the file is written
    first, then [print] raises: no exit code is returned and nothing is
    printed, and the output holds the JSON text. *)
Theorem convert_unprintable_report csv_file json_file w fieldnames rows l :
  input_file csv_file w fieldnames rows ->
  open_write w json_file = Some l ->
  can_print w (converted_message
                 (length (DictReader.records fieldnames rows))
                 csv_file json_file) = false ->
  exists out,
    Utf8.encode (Json.dumps (DictReader.records fieldnames rows))
    = Some out /\
    csv_to_json csv_file json_file w = (inl Printing, with_file w l out) /\
    at_path (csv_to_json csv_file json_file w).2 json_file
    = Some (File out).
Proof.
  intros (content & Hcsv & Hparse) Hl Hprint. apply parses_load in Hparse.
  destruct (csv_to_json_cases csv_file json_file w) as
    [Hat Hp|Hat Hp|Hat Hno|c Hc Hload|c d Hc Hload Hno
    |c d l' out Hc Hload Hl' Hout Hp|c d l' out Hc Hload Hl' Hout Hp];
    try (pose proof (open_read_at_path _ _ _ Hcsv)); try congruence;
    simplify_eq; try congruence.
  exists out. split; [done|]. split; [done|].
  by apply at_path_with_file, open_write_resolve.
Qed.

(** A standard output that encodes ASCII only. *)
Lemma convert_unprintable_report_witness :
  let w := ascii_console (only_input sample_csv) in
  exists out,
    Utf8.encode (Json.dumps (DictReader.records sample_fieldnames sample_rows))
    = Some out /\
    csv_to_json CSV_FILE JSON_FILE w = (inl Printing, with_file w 2%N out) /\
    at_path (csv_to_json CSV_FILE JSON_FILE w).2 JSON_FILE
    = Some (File out).
Proof.
  intros w.
  apply (convert_unprintable_report CSV_FILE JSON_FILE w
           sample_fieldnames sample_rows 2%N).
  - exists sample_csv. split; [reflexivity|exact sample_parses].
  - reflexivity.
  - vm_compute. reflexivity.
Defined.

Lemma parses_scalar content fieldnames rows :
  parses content fieldnames rows ->
  Forall (Forall (Forall Utf8.scalar)) (fieldnames :: rows).
Proof.
  intros (text & Hdec & Hrows).
  pose proof (Reader_rows_Forall Utf8.scalar (readlines text)
                Csv.parse_reset) as Hall.
  unfold Csv.reader in Hrows. rewrite Hrows in Hall. apply Hall.
  - by apply readlines_Forall, Utf8Facts.decode_scalar with content.
  - apply holds_reset.
Qed.

Lemma plain_non_ascii c : 127 < c -> plain c.
Proof. unfold plain, QUOTE, BACKSLASH. lia. Qed.

(** ** Further properties of the records *)

Lemma dict_setitem_not_nil d k v : dict_setitem d k v <> [].
Proof. destruct d as [|[k1 v1] d]; simpl; [done|]. by case_decide. Qed.

Lemma update_not_nil pairs : forall d,
  d <> [] \/ pairs <> [] -> update d pairs <> [].
Proof.
  induction pairs as [|[k1 v1] pairs IH]; intros d Hne.
  - by destruct Hne.
  - unfold update in *. cbn [foldl]. apply IH. left.
    apply dict_setitem_not_nil.
Qed.

Lemma NoDup_dict_keys_setitem d k v :
  NoDup (dict_keys d) -> NoDup (dict_keys (dict_setitem d k v)).
Proof.
  intros Hnd. rewrite dict_keys_setitem. case_decide as Hin; [done|].
  apply NoDup_app. split; [done|]. split; [|apply NoDup_singleton].
  intros k' Hk' ->%list_elem_of_singleton. done.
Qed.

Lemma NoDup_dict_keys_update pairs : forall d,
  NoDup (dict_keys d) -> NoDup (dict_keys (update d pairs)).
Proof.
  induction pairs as [|[k1 v1] pairs IH]; intros d Hnd; [done|].
  unfold update in *. cbn [foldl]. by apply IH, NoDup_dict_keys_setitem.
Qed.

Lemma row_to_dict_NoDup fieldnames row :
  NoDup (dict_keys (DictReader.row_to_dict fieldnames row)).
Proof.
  assert (NoDup (dict_keys (dict (DictReader.zipped fieldnames row)))) as Hz.
  { rewrite dict_unfold. apply NoDup_dict_keys_update. constructor. }
  destruct (decide (length fieldnames < length row)%nat).
  - rewrite DictReaderFacts.row_to_dict_long by done.
    by apply NoDup_dict_keys_setitem.
  - rewrite DictReaderFacts.row_to_dict_short by lia.
    by apply NoDup_dict_keys_update.
Qed.

Lemma row_to_dict_not_nil fieldnames row :
  row <> [] -> DictReader.row_to_dict fieldnames row <> [].
Proof.
  intros Hrow.
  destruct (decide (length fieldnames < length row)%nat).
  - rewrite DictReaderFacts.row_to_dict_long by done.
    apply dict_setitem_not_nil.
  - rewrite DictReaderFacts.row_to_dict_short by lia.
    apply update_not_nil. left. rewrite dict_unfold.
    apply update_not_nil. right.
    destruct fieldnames, row; simpl in *; try done. lia.
Qed.

Lemma row_to_dict_keys_origin fieldnames row k :
  k ∈ dict_keys (DictReader.row_to_dict fieldnames row) ->
  k = KNone \/ k ∈ KStr <$> fieldnames.
Proof.
  destruct (decide (length fieldnames < length row)%nat) as [Hlt|Hge].
  - destruct (DictReaderFacts.row_to_dict_long_keys fieldnames row Hlt)
      as [-> Hks].
    rewrite elem_of_app, list_elem_of_singleton, Hks. tauto.
  - rewrite DictReaderFacts.row_to_dict_short_keys by lia. tauto.
Qed.

(** X5. Every record that a run converts is well formed as a dictionary,
    whatever the rows look like (short, long, duplicate header fields): it
    has at least one key, no key twice, and each key is a header field or
    [None].
    Here the output can be opened and standard output can encode the
    report. *)
Theorem records_well_formed csv_file json_file w fieldnames rows :
  input_file csv_file w fieldnames rows ->
  writable json_file w ->
  reports csv_file json_file w ->
  exists data,
    converted csv_file json_file w data /\
    Forall (fun d => d <> [] /\ NoDup (dict_keys d) /\
                     forall k, k ∈ dict_keys d ->
                               k = KNone \/ k ∈ KStr <$> fieldnames)
           data.
Proof.
  intros Hin Hw Hprint. exists (DictReader.records fieldnames rows).
  split; [by apply input_file_converted|].
  rewrite DictReaderFacts.records_filter. apply Forall_fmap, Forall_forall.
  intros row [Hrow _]%list_elem_of_filter. simpl.
  split; [by apply row_to_dict_not_nil|].
  split; [apply row_to_dict_NoDup|apply row_to_dict_keys_origin].
Qed.

Lemma records_well_formed_witness :
  exists data,
    converted CSV_FILE JSON_FILE (only_input long_csv) data /\
    Forall (fun d => d <> [] /\ NoDup (dict_keys d) /\
                     forall k, k ∈ dict_keys d ->
                               k = KNone \/ k ∈ KStr <$> [lit "a"; lit "b"])
           data.
Proof.
  apply (records_well_formed CSV_FILE JSON_FILE (only_input long_csv)
           [lit "a"; lit "b"] [[lit "1"; lit "2"; lit "3"]]).
  - exact long_input.
  - apply sample_writable.
  - apply sample_reports.
Defined.

Lemma update_app d pairs1 pairs2 :
  update d (pairs1 ++ pairs2) = update (update d pairs1) pairs2.
Proof. unfold update. apply foldl_app. Qed.

(** The last assignment to a key is the one that counts. *)
Lemma dict_getitem_update_last d pairs1 k v pairs2 :
  k ∉ pairs2.*1 ->
  dict_getitem (update d (pairs1 ++ (k, v) :: pairs2)) k = Some v.
Proof.
  intros Hlast. rewrite update_app.
  change (update ?d ((k, v) :: pairs2))
    with (update (dict_setitem d k v) pairs2).
  rewrite dict_getitem_update_old by done. apply dict_getitem_setitem.
Qed.

Lemma zipped_split fieldnames : forall row j k cell,
  fieldnames !! j = Some k -> row !! j = Some cell ->
  DictReader.zipped fieldnames row
  = DictReader.zipped (take j fieldnames) (take j row)
    ++ (KStr k, VStr cell)
    :: DictReader.zipped (drop (S j) fieldnames) (drop (S j) row).
Proof.
  unfold DictReader.zipped.
  induction fieldnames as [|k1 ks IH]; intros [|c row] [|j] k cell Hk Hc;
    simplify_eq/=; [done|].
  f_equal. by apply IH.
Qed.

Lemma zipped_keys_sub fieldnames row k :
  k ∈ (DictReader.zipped fieldnames row).*1 -> k ∈ KStr <$> fieldnames.
Proof.
  rewrite DictReaderFacts.zipped_keys.
  intros (s & -> & Hs)%list_elem_of_fmap. apply list_elem_of_fmap_2.
  eapply elem_of_sublist; [done|]. apply sublist_take.
Qed.

(** The cell under the last occurrence of a header field is the value of
    that field. *)
Lemma row_to_dict_last_wins fieldnames row j k cell :
  fieldnames !! j = Some k -> row !! j = Some cell ->
  (forall j', (j < j')%nat -> fieldnames !! j' <> Some k) ->
  dict_getitem (DictReader.row_to_dict fieldnames row) (KStr k)
  = Some (VStr cell).
Proof.
  intros Hk Hc Hlast.
  assert (forall n, (j < n)%nat -> KStr k ∉ KStr <$> drop n fieldnames)
    as Hafter.
  { intros n Hn (s & [= <-] & Hin)%list_elem_of_fmap.
    apply list_elem_of_lookup in Hin as [i Hi]. rewrite lookup_drop in Hi.
    apply (Hlast (n + i)%nat); [lia|done]. }
  assert (dict_getitem (dict (DictReader.zipped fieldnames row)) (KStr k)
          = Some (VStr cell)) as Hz.
  { rewrite dict_unfold, (zipped_split fieldnames row j k cell) by done.
    apply dict_getitem_update_last. intros Hin%zipped_keys_sub.
    by apply (Hafter (S j)); [lia|]. }
  destruct (decide (length fieldnames < length row)%nat) as [Hlt|Hge].
  - rewrite DictReaderFacts.row_to_dict_long by done.
    by rewrite dict_getitem_setitem_ne.
  - rewrite DictReaderFacts.row_to_dict_short by lia.
    rewrite dict_getitem_update_old; [done|].
    rewrite DictReaderFacts.filled_keys. apply Hafter.
    by apply lookup_lt_Some in Hc.
Qed.

(** X6. Duplicate header fields: the last one wins.  When a field name
    occurs more than once in the header, the record of a data row holds,
    under that name, the cell of the last column with that name (the cells
    of the earlier columns with that name are dropped), and the object of
    that record in the output file has a member of that name with that
    cell.
    Here the output can be opened and standard output can encode the
    report. *)
Theorem duplicate_header_last_wins
    csv_file json_file w fieldnames rows row j k cell :
  input_file csv_file w fieldnames rows ->
  writable json_file w ->
  reports csv_file json_file w ->
  row ∈ rows ->
  fieldnames !! j = Some k -> row !! j = Some cell ->
  (forall j', (j < j')%nat -> fieldnames !! j' <> Some k) ->
  exists data d objects members,
    converted csv_file json_file w data /\
    d ∈ data /\ d = DictReader.row_to_dict fieldnames row /\
    dict_getitem d (KStr k) = Some (VStr cell) /\
    output_reads csv_file json_file w objects /\
    JsonText.JObject members ∈ objects /\
    members.*1 = JsonText.member_name <$> dict_keys d /\
    (k, JsonText.JString cell) ∈ members.
Proof.
  intros Hin Hw Hprint Hrow Hk Hc Hlast.
  pose proof (input_file_converted _ _ _ _ _ Hin Hw Hprint) as Hconv.
  assert (dict_getitem (DictReader.row_to_dict fieldnames row) (KStr k)
          = Some (VStr cell)) as Hget by (by eapply row_to_dict_last_wins).
  destruct (member_of_pair _ _ _ (elem_of_dict_getitem _ _ _ Hget))
    as (members & Hobj & Hmem).
  assert (DictReader.row_to_dict fieldnames row
            ∈ DictReader.records fieldnames rows) as Hd
    by (apply elem_of_records; [done|]; by intros ->).
  exists (DictReader.records fieldnames rows),
         (DictReader.row_to_dict fieldnames row),
         (JsonText.of_dict <$> DictReader.records fieldnames rows), members.
  split; [done|]. split; [done|]. split; [done|]. split; [done|].
  split; [by apply converted_reads|].
  split; [rewrite <- Hobj; by apply list_elem_of_fmap_2|].
  split; [|done].
  injection Hobj as <-. unfold dict_keys. by rewrite <- !list_fmap_compose.
Qed.

Lemma dup_input :
  input_file CSV_FILE (only_input dup_csv)
    [lit "a"; lit "b"; lit "a"] [[lit "1"; lit "2"; lit "3"]].
Proof.
  exists dup_csv. split; [reflexivity|].
  exists dup_csv. split; vm_compute; reflexivity.
Defined.

Lemma duplicate_header_last_wins_witness :
  exists data d objects members,
    converted CSV_FILE JSON_FILE (only_input dup_csv) data /\
    d ∈ data /\
    d = DictReader.row_to_dict [lit "a"; lit "b"; lit "a"]
          [lit "1"; lit "2"; lit "3"] /\
    dict_getitem d (KStr (lit "a")) = Some (VStr (lit "3")) /\
    output_reads CSV_FILE JSON_FILE (only_input dup_csv) objects /\
    JsonText.JObject members ∈ objects /\
    members.*1 = JsonText.member_name <$> dict_keys d /\
    (lit "a", JsonText.JString (lit "3")) ∈ members.
Proof.
  apply (duplicate_header_last_wins CSV_FILE JSON_FILE (only_input dup_csv)
           [lit "a"; lit "b"; lit "a"] [[lit "1"; lit "2"; lit "3"]]
           [lit "1"; lit "2"; lit "3"] 2%nat (lit "a") (lit "3")).
  - exact dup_input.
  - apply sample_writable.
  - apply sample_reports.
  - by left.
  - reflexivity.
  - reflexivity.
  - intros [|[|[|j']]] Hj'; try lia; discriminate.
Defined.

(** X7. A header field called [null] and a data row longer than the header
    give an object in which the member name [null] is written twice: once
    for the header field and once for the key [None] of the surplus cells.
    The record itself has no key twice.  The output file reads as an array
    that holds this object: its last member is named [null] and holds the
    array of the surplus cells, and one of the members before it is named
    [null] as well.
    Here the output can be opened and standard output can encode the
    report. *)
Theorem null_header_duplicate_member
    csv_file json_file w fieldnames rows row :
  input_file csv_file w fieldnames rows ->
  writable json_file w ->
  reports csv_file json_file w ->
  row ∈ rows ->
  lit "null" ∈ fieldnames ->
  (length fieldnames < length row)%nat ->
  exists data d objects members,
    converted csv_file json_file w data /\
    d ∈ data /\ d = DictReader.row_to_dict fieldnames row /\
    NoDup (dict_keys d) /\
    ~ NoDup (Json.key_text <$> dict_keys d) /\
    output_reads csv_file json_file w objects /\
    JsonText.JObject
      (members
       ++ [(lit "null",
            JsonText.JArray
              (JsonText.JString <$> drop (length fieldnames) row))])
      ∈ objects /\
    lit "null" ∈ members.*1.
Proof.
  intros Hin Hw Hprint Hrow Hnull Hlt.
  pose proof (input_file_converted _ _ _ _ _ Hin Hw Hprint) as Hconv.
  destruct (object_of_long_row fieldnames row Hlt)
    as (members & Hobj & Hnames & _).
  assert (DictReader.row_to_dict fieldnames row
            ∈ DictReader.records fieldnames rows) as Hd
    by (apply elem_of_records; [done|]; intros ->; simpl in Hlt; lia).
  exists (DictReader.records fieldnames rows),
         (DictReader.row_to_dict fieldnames row),
         (JsonText.of_dict <$> DictReader.records fieldnames rows), members.
  split; [done|]. split; [done|].
  split; [done|]. split; [apply row_to_dict_NoDup|].
  split.
  { destruct (DictReaderFacts.row_to_dict_long_keys fieldnames row Hlt)
      as [-> Hks].
    rewrite fmap_app. intros (_ & Hdisjoint & _)%NoDup_app.
    apply (Hdisjoint (lit "null")).
    - apply (list_elem_of_fmap_2 Json.key_text _ (KStr (lit "null"))).
      apply Hks. by apply list_elem_of_fmap_2.
    - by left. }
  split; [by apply converted_reads|].
  split; [rewrite <- Hobj; by apply list_elem_of_fmap_2|].
  by apply Hnames.
Qed.

Lemma null_input :
  input_file CSV_FILE (only_input null_csv)
    [lit "id"; lit "null"] [[lit "1"; lit "2"; lit "3"]].
Proof.
  exists null_csv. split; [reflexivity|].
  exists null_csv. split; vm_compute; reflexivity.
Defined.

Lemma null_header_duplicate_member_witness :
  exists data d objects members,
    converted CSV_FILE JSON_FILE (only_input null_csv) data /\
    d ∈ data /\
    d = DictReader.row_to_dict [lit "id"; lit "null"]
          [lit "1"; lit "2"; lit "3"] /\
    NoDup (dict_keys d) /\
    ~ NoDup (Json.key_text <$> dict_keys d) /\
    output_reads CSV_FILE JSON_FILE (only_input null_csv) objects /\
    JsonText.JObject
      (members
       ++ [(lit "null",
            JsonText.JArray
              (JsonText.JString
                 <$> drop (length [lit "id"; lit "null"])
                       [lit "1"; lit "2"; lit "3"]))])
      ∈ objects /\
    lit "null" ∈ members.*1.
Proof.
  apply (null_header_duplicate_member CSV_FILE JSON_FILE
           (only_input null_csv) [lit "id"; lit "null"]
           [[lit "1"; lit "2"; lit "3"]] [lit "1"; lit "2"; lit "3"]).
  - exact null_input.
  - apply sample_writable.
  - apply sample_reports.
  - by left.
  - right. by left.
  - simpl. lia.
Defined.

(** ** The codec, both ways *)

Module Utf8RoundTrip.
Import Utf8 Utf8Facts.

Lemma encode_char_2 b0 b1 :
  in_range 194 223 b0 = true -> is_cont b1 = true ->
  encode_char ((b0 - 192) * 64 + (b1 - 128)) = Some [b0; b1].
Proof.
  unfold is_cont. intros H0%in_range_spec H1%in_range_spec.
  unfold encode_char.
  rewrite (in_range_false 0 127) by lia.
  rewrite (in_range_true 128 2047) by lia.
  do 2 f_equal; [|f_equal]; Z.div_mod_to_equations; lia.
Qed.

Lemma second_ok_cont b0 b1 : second_ok b0 b1 = true -> 128 <= b1 <= 191.
Proof.
  unfold second_ok, is_cont.
  repeat case_match; intros ?%in_range_spec; lia.
Qed.

Lemma encode_char_3 b0 b1 b2 :
  in_range 224 239 b0 = true -> second_ok b0 b1 = true ->
  is_cont b2 = true ->
  encode_char ((b0 - 224) * 4096 + (b1 - 128) * 64 + (b2 - 128))
  = Some [b0; b1; b2].
Proof.
  intros H0 H1 H2.
  pose proof (second_ok_3 b0 b1 b2 H0 H1 H2) as Hscalar.
  pose proof (second_ok_cont b0 b1 H1) as Hb1.
  assert (2048 <= (b0 - 224) * 4096 + (b1 - 128) * 64 + (b2 - 128)) as Hlow.
  { revert H1. unfold second_ok, is_cont in *.
    apply in_range_spec in H0, H2.
    repeat case_match; bool_to_prop; intros ?%in_range_spec; lia. }
  unfold is_cont in H2. apply in_range_spec in H0, H2.
  unfold scalar in Hscalar. unfold encode_char.
  rewrite (in_range_false 0 127) by lia.
  rewrite (in_range_false 128 2047) by lia.
  rewrite (in_range_true 2048 65535) by lia.
  rewrite (in_range_false 55296 57343) by lia.
  do 2 f_equal; [|f_equal; [|f_equal]]; Z.div_mod_to_equations; lia.
Qed.

Lemma encode_char_4 b0 b1 b2 b3 :
  in_range 240 244 b0 = true -> second_ok b0 b1 = true ->
  is_cont b2 = true -> is_cont b3 = true ->
  encode_char ((b0 - 240) * 262144 + (b1 - 128) * 4096
               + (b2 - 128) * 64 + (b3 - 128))
  = Some [b0; b1; b2; b3].
Proof.
  intros H0 H1 H2 H3.
  pose proof (second_ok_4 b0 b1 b2 b3 H0 H1 H2 H3) as Hscalar.
  pose proof (second_ok_cont b0 b1 H1) as Hb1.
  assert (65536 <= (b0 - 240) * 262144 + (b1 - 128) * 4096
                   + (b2 - 128) * 64 + (b3 - 128)) as Hlow.
  { revert H1. unfold second_ok, is_cont in *.
    apply in_range_spec in H0, H2, H3.
    repeat case_match; bool_to_prop; intros ?%in_range_spec; lia. }
  unfold is_cont in H2, H3. apply in_range_spec in H0, H2, H3.
  unfold scalar in Hscalar. unfold encode_char.
  rewrite (in_range_false 0 127) by lia.
  rewrite (in_range_false 128 2047) by lia.
  rewrite (in_range_false 2048 65535) by lia.
  rewrite (in_range_true 65536 1114111) by lia.
  do 2 f_equal; [|f_equal; [|f_equal; [|f_equal]]];
    Z.div_mod_to_equations; lia.
Qed.

Lemma encode_decode_le n : forall bs t,
  (length bs <= n)%nat -> decode bs = Some t -> encode t = Some bs.
Proof.
  induction n as [|n IH]; intros bs t Hn Hd.
  - destruct bs; simpl in *; [|lia]. by simplify_eq.
  - destruct bs as [|b0 bs1]; simpl in Hd; [by simplify_eq|].
    simpl in Hn.
    destruct (in_range 0 127 b0) eqn:E1.
    { destruct (decode bs1) as [t1|] eqn:D; simplify_eq/=.
      unfold encode_char. rewrite E1. by rewrite (IH bs1 t1) by (lia || done). }
    destruct (in_range 194 223 b0) eqn:E2.
    { destruct bs1 as [|b1 bs2]; [done|].
      destruct (is_cont b1) eqn:C1; [|done].
      destruct (decode bs2) as [t1|] eqn:D; simplify_eq/=.
      rewrite encode_char_2 by done.
      by rewrite (IH bs2 t1) by (simpl in *; lia || done). }
    destruct (in_range 224 239 b0) eqn:E3.
    { destruct bs1 as [|b1 [|b2 bs3]]; [done..|].
      destruct (second_ok b0 b1) eqn:C1; [|done].
      destruct (is_cont b2) eqn:C2; [|done]. simpl in Hd.
      destruct (decode bs3) as [t1|] eqn:D; simplify_eq/=.
      rewrite encode_char_3 by done.
      by rewrite (IH bs3 t1) by (simpl in *; lia || done). }
    destruct (in_range 240 244 b0) eqn:E4; [|done].
    destruct bs1 as [|b1 [|b2 [|b3 bs4]]]; [done..|].
    destruct (second_ok b0 b1) eqn:C1; [|done].
    destruct (is_cont b2) eqn:C2; [|done].
    destruct (is_cont b3) eqn:C3; [|done]. simpl in Hd.
    destruct (decode bs4) as [t1|] eqn:D; simplify_eq/=.
    rewrite encode_char_4 by done.
    by rewrite (IH bs4 t1) by (simpl in *; lia || done).
Qed.

End Utf8RoundTrip.

(** X8. The codec of the two [open] calls loses nothing: bytes decode to a
    text exactly when that text encodes to these bytes.  So the bytes of any
    text that is read and written back unchanged are the bytes that were
    read. *)
Theorem utf8_decode_iff_encode bs t :
  Utf8.decode bs = Some t <-> Utf8.encode t = Some bs.
Proof.
  split.
  - by apply (Utf8RoundTrip.encode_decode_le (length bs)).
  - apply Utf8Facts.decode_encode.
Qed.

(** ** The string encoder loses nothing *)

Lemma unhex_hex_digit n :
  0 <= n < 16 -> JsonText.unhex (Json.hex_digit n) = Some n.
Proof.
  intros Hn. unfold JsonText.unhex, Json.hex_digit.
  repeat case_match; bool_to_prop; try lia; f_equal; lia.
Qed.

Lemma unescape_replace c rest :
  JsonText.unescape (Json.replace c ++ rest)
  = cons c <$> JsonText.unescape rest.
Proof.
  unfold Json.replace, Json.ESCAPE_DCT.
  destruct (c =? BACKSLASH) eqn:E1;
    [apply Z.eqb_eq in E1 as ->; reflexivity|].
  destruct (c =? QUOTE) eqn:E2;
    [apply Z.eqb_eq in E2 as ->; reflexivity|].
  destruct (c =? 8) eqn:E3; [apply Z.eqb_eq in E3 as ->; reflexivity|].
  destruct (c =? 12) eqn:E4; [apply Z.eqb_eq in E4 as ->; reflexivity|].
  destruct (c =? LF) eqn:E5; [apply Z.eqb_eq in E5 as ->; reflexivity|].
  destruct (c =? CR) eqn:E6; [apply Z.eqb_eq in E6 as ->; reflexivity|].
  destruct (c =? 9) eqn:E7; [apply Z.eqb_eq in E7 as ->; reflexivity|].
  destruct ((0 <=? c) && (c <? 32)) eqn:E8.
  - bool_to_prop.
    change (JsonText.unescape
              (default [c]
                 (Some (lit "\u00"
                        ++ [Json.hex_digit (c / 16);
                            Json.hex_digit (c mod 16)])) ++ rest))
      with (match JsonText.unhex (Json.hex_digit (c / 16)),
                  JsonText.unhex (Json.hex_digit (c mod 16)) with
            | Some x, Some y => cons (16 * x + y) <$> JsonText.unescape rest
            | _, _ => None
            end).
    rewrite !unhex_hex_digit by (Z.div_mod_to_equations; lia).
    replace (16 * (c / 16) + c mod 16) with c
      by (Z.div_mod_to_equations; lia).
    done.
  - cbn [default app JsonText.unescape]. by rewrite E1.
Qed.

Lemma unescape_body s :
  JsonText.unescape (s ≫= Json.replace) = Some s.
Proof.
  induction s as [|c s IH]; [done|].
  cbn [mbind list_bind]. by rewrite unescape_replace, IH.
Qed.

(** X9. [py_encode_basestring] is one-to-one: two different strings (keys
    or cells) are never written as the same JSON string, whatever control
    characters, quotes and backslashes they hold. *)
Theorem py_encode_basestring_inj s1 s2 :
  s1 <> s2 ->
  Json.py_encode_basestring s1 <> Json.py_encode_basestring s2.
Proof.
  unfold Json.py_encode_basestring. intros Hne Heq. apply Hne.
  apply (inj (app [QUOTE])) in Heq. apply app_inv_tail in Heq.
  apply (f_equal JsonText.unescape) in Heq.
  rewrite !unescape_body in Heq. by simplify_eq.
Qed.

(** A line feed and the two characters that stand for it. *)
Lemma py_encode_basestring_inj_witness :
  Json.py_encode_basestring [LF]
  <> Json.py_encode_basestring [BACKSLASH; 110].
Proof.
  apply (py_encode_basestring_inj [LF] [BACKSLASH; 110]). discriminate.
Defined.

(** ** Reading back written files, in general *)

Module WrittenFacts.
Import Csv Written.

(** Inside quotes, the doubled quotes of a cell are read as its quotes. *)
Lemma process_chars_in_quotes s : forall fs f,
  Z.of_nat (length (f ++ s)) <= field_limit ->
  process_chars (mkReader IN_QUOTED_FIELD fs f) (double_quotes s)
  = Some (mkReader IN_QUOTED_FIELD fs (f ++ s)).
Proof.
  unfold double_quotes.
  induction s as [|c s IH]; intros fs f Hlen.
  - by rewrite app_nil_r.
  - cbn [mbind list_bind]. rewrite CsvFacts.process_chars_app.
    rewrite length_app in Hlen. cbn [length] in Hlen.
    assert (process_chars (mkReader IN_QUOTED_FIELD fs f)
              (if c =? QUOTE then [QUOTE; QUOTE] else [c])
            = Some (mkReader IN_QUOTED_FIELD fs (f ++ [c]))) as ->.
    { destruct (c =? QUOTE) eqn:E.
      - apply Z.eqb_eq in E as ->. cbn [process_chars].
        unfold parse_process_char at 1. cbn [state]. rewrite Z.eqb_refl.
        unfold parse_process_char, set_state, parse_add_char, field_len.
        cbn [state fields field]. rewrite Z.eqb_refl.
        by rewrite (proj2 (Z.leb_gt _ _)) by lia.
      - cbn [process_chars].
        unfold parse_process_char, parse_add_char, field_len.
        cbn [state fields field]. rewrite E.
        by rewrite (proj2 (Z.leb_gt _ _)) by lia. }
    rewrite IH; [by rewrite <- app_assoc|].
    rewrite <- app_assoc, length_app. cbn [app length]. lia.
Qed.

(** A written cell, read from the start of a field. *)
Lemma process_chars_written_cell c fs :
  well_written_cell c ->
  process_chars (mkReader START_FIELD fs []) (cell_source c)
  = Some (mkReader (state_after c) fs (cell_text c)).
Proof.
  destruct c as [s|s]; intros Hc.
  - cbn [cell_source cell_text].
    rewrite (CsvFacts.process_chars_cell s fs Hc). by destruct s.
  - cbn [well_written_cell] in Hc. cbn [cell_source app process_chars].
    unfold parse_process_char at 1, start_field.
    cbn [state is_newline]. 
    change (is_newline QUOTE) with false. rewrite Z.eqb_refl.
    unfold set_state. cbn [state fields field].
    rewrite CsvFacts.process_chars_app, process_chars_in_quotes by done.
    cbn [app process_chars]. unfold parse_process_char.
    cbn [state]. by rewrite Z.eqb_refl.
Qed.

Lemma comma_after_cell c fs f :
  parse_process_char (mkReader (state_after c) fs f) (Ch COMMA)
  = Some (mkReader START_FIELD (fs ++ [f]) []).
Proof. by destruct c as [[|? ?]|?]. Qed.

Lemma line_end_after_cell c fs f e :
  process_line (mkReader (state_after c) fs f) (line_end_text e)
  = Some (mkReader START_RECORD (fs ++ [f]) []).
Proof. by destruct c as [[|? ?]|?], e. Qed.

Lemma process_line_app s1 s2 self :
  process_line self (s1 ++ s2)
  = match process_chars self s1 with
    | Some self' => process_line self' s2
    | None => None
    end.
Proof.
  unfold process_line. rewrite CsvFacts.process_chars_app.
  by destruct (process_chars self s1).
Qed.

End WrittenFacts.

Ltac solve_well_written :=
  repeat first
    [ split
    | constructor
    | discriminate
    | progress (unfold cell_char, Written.no_line_break, COMMA, QUOTE, LF, CR,
                       Csv.field_limit; cbn [length]); lia ].

(** ** Inputs without a header *)

Lemma decode_ascii s :
  Forall (fun c => 0 <= c <= 127) s -> Utf8.decode s = Some s.
Proof. intros. by apply Utf8Facts.decode_encode, Utf8Facts.encode_ascii. Qed.

Lemma readlines_from_not_nil_le n : forall t cur,
  (length t <= n)%nat -> Forall (fun line => line <> []) (readlines_from cur t).
Proof.
  assert (forall (cur : list Z) c, cur ++ [c] <> []) as Hsnoc
    by (by intros [|? ?] ?).
  induction n as [|n IH]; intros t cur Hn.
  - destruct t; simpl in *; [|lia]. destruct cur; by repeat constructor.
  - destruct t as [|c t']; simpl in *.
    { destruct cur; by repeat constructor. }
    destruct (c =? LF); [constructor; [done|apply IH; lia]|].
    destruct (c =? CR); [|apply IH; lia].
    destruct t' as [|c' t'']; [by repeat constructor|]. simpl in Hn.
    destruct (c' =? LF).
    + constructor; [by destruct cur|apply IH; lia].
    + constructor; [done|apply IH; simpl; lia].
Qed.

Lemma line_break_is_newline c : line_break c -> Csv.is_newline c = true.
Proof. by intros [-> | ->]. Qed.

Lemma process_chars_eat_crnl line fs f :
  Forall line_break line ->
  Csv.process_chars (Csv.mkReader Csv.EAT_CRNL fs f) line
  = Some (Csv.mkReader Csv.EAT_CRNL fs f).
Proof.
  induction 1 as [|c line Hc _ IH]; [done|].
  cbn [Csv.process_chars]. unfold Csv.parse_process_char. cbn [Csv.state].
  by rewrite line_break_is_newline.
Qed.

(** A line of line breaks only is read as an empty row. *)
Lemma process_line_blank line :
  line <> [] -> Forall line_break line ->
  Csv.process_line Csv.parse_reset line = Some Csv.parse_reset.
Proof.
  intros Hne Hline. destruct Hline as [|c line Hc Hline]; [done|].
  unfold Csv.process_line. cbn [Csv.process_chars].
  unfold Csv.parse_process_char at 1. cbn [Csv.state Csv.parse_reset].
  rewrite line_break_is_newline by done.
  unfold Csv.set_state. cbn [Csv.fields Csv.field].
  by rewrite process_chars_eat_crnl.
Qed.

Lemma Reader_rows_blank lines :
  Forall (fun line => line <> [] /\ Forall line_break line) lines ->
  Csv.Reader_rows Csv.parse_reset lines
  = (replicate (length lines) [], Csv.StopIteration).
Proof.
  induction 1 as [|line lines [Hne Hline] _ IH]; [done|].
  cbn [Csv.Reader_rows]. rewrite process_line_blank by done.
  cbn [Csv.state Csv.parse_reset bool_decide decide_rel].
  rewrite bool_decide_true by done. by rewrite IH.
Qed.

Lemma load_line_breaks content :
  Forall line_break content -> load content = Some [].
Proof.
  intros Hcontent. unfold load.
  rewrite decode_ascii
    by (eapply Forall_impl; [exact Hcontent|];
        intros c [-> | ->]; unfold LF, CR; lia).
  unfold DictReader.read_all, Csv.reader.
  rewrite Reader_rows_blank.
  - destruct (length (readlines content)) as [|n]; [done|].
    cbn [replicate]. f_equal. apply DictReaderFacts.records_blank.
    by apply Forall_replicate.
  - pose proof (readlines_Forall line_break content Hcontent) as Hbreaks.
    pose proof (readlines_from_not_nil_le (length content) content []
                  (le_n _)) as Hfull.
    fold (readlines content) in Hfull.
    apply Forall_forall. intros line Hin. split.
    + by apply (proj1 (Forall_forall _ _) Hfull).
    + by apply (proj1 (Forall_forall _ _) Hbreaks).
Qed.

(** X10. An input without any cell, that is an empty file or a file of
    line breaks only, is converted to the empty array: when the output can
    be opened and the report can be printed, the run returns 0, writes the
    two bytes of that array and reports 0 rows.  The first blank line, if
    any, is taken as a header without fields. *)
Theorem convert_line_breaks_only csv_file json_file w content l :
  open_read w csv_file = Some content ->
  Forall line_break content ->
  open_write w json_file = Some l ->
  can_print w (converted_message 0 csv_file json_file) = true ->
  csv_to_json csv_file json_file w
  = (inr 0,
     with_line (with_file w l (lit "[]"))
               (converted_message 0 csv_file json_file)).
Proof.
  intros Hcsv Hcontent Hl Hprint. apply load_line_breaks in Hcontent.
  destruct (csv_to_json_cases csv_file json_file w) as
    [Hat Hp|Hat Hp|Hat Hno|c Hc Hload|c d Hc Hload Hno
    |c d l' out Hc Hload Hl' Hout Hp|c d l' out Hc Hload Hl' Hout Hp];
    try (pose proof (open_read_at_path _ _ _ Hcsv)); try congruence;
    simplify_eq; cbn [length] in *; [|congruence].
  change (Utf8.encode (Json.dumps [])) with (Some (lit "[]")) in Hout.
  by simplify_eq.
Qed.

Lemma convert_line_breaks_only_witness :
  csv_to_json CSV_FILE JSON_FILE (only_input [CR; LF; LF; CR])
  = (inr 0,
     with_line (with_file (only_input [CR; LF; LF; CR]) 2%N (lit "[]"))
               (converted_message 0 CSV_FILE JSON_FILE)).
Proof.
  apply (convert_line_breaks_only CSV_FILE JSON_FILE
           (only_input [CR; LF; LF; CR]) [CR; LF; LF; CR] 2%N).
  - reflexivity.
  - repeat constructor; (by left) || (by right).
  - reflexivity.
  - reflexivity.
Defined.

(** ** The field limit *)

Lemma readlines_from_skip s : forall cur rest,
  Forall Written.no_line_break s ->
  readlines_from cur (s ++ rest) = readlines_from (cur ++ s) rest.
Proof.
  induction s as [|c s IH]; intros cur rest Hs.
  - by rewrite app_nil_r.
  - inversion Hs as [|? ? [Hlf Hcr] Hs']; subst.
    rewrite <- app_comm_cons. cbn [readlines_from].
    rewrite !(proj2 (Z.eqb_neq _ _)) by done.
    rewrite IH by done. by rewrite <- app_assoc.
Qed.

Lemma readlines_from_first t : forall cur,
  cur <> [] ->
  exists tail lines, readlines_from cur t = (cur ++ tail) :: lines.
Proof.
  induction t as [|c t IH]; intros cur Hcur.
  - exists [], []. destruct cur; [done|]. by rewrite app_nil_r.
  - cbn [readlines_from]. destruct (c =? LF); [by eauto|].
    destruct (c =? CR).
    + destruct t as [|c' t]; [by eauto|]. destruct (c' =? LF); by eauto.
    + destruct (IH (cur ++ [c])) as (tail & lines & ->);
        [by destruct cur|].
      exists (c :: tail), lines. by rewrite <- app_assoc.
Qed.

Lemma process_chars_first_char c s :
  Csv.is_newline c = false ->
  Csv.process_chars Csv.parse_reset (c :: s)
  = Csv.process_chars (Csv.mkReader Csv.START_FIELD [] []) (c :: s).
Proof.
  intros Hnl. cbn [Csv.process_chars].
  unfold Csv.parse_process_char. cbn [Csv.state Csv.parse_reset].
  by rewrite Hnl.
Qed.

(** A run of more cell characters than the limit allows stops the reader,
    whatever follows on the line. *)
Lemma process_line_too_long cell tail :
  Forall cell_char cell ->
  Csv.field_limit < Z.of_nat (length cell) ->
  Csv.process_line Csv.parse_reset (cell ++ tail) = None.
Proof.
  intros Hcell Hlen.
  assert (Csv.process_chars Csv.parse_reset cell = None) as Hstop.
  { set (n := Z.to_nat Csv.field_limit).
    assert (Z.of_nat n = Csv.field_limit) as Hn
      by (unfold n, Csv.field_limit; lia).
    assert (n < length cell)%nat as Hlt by lia.
    rewrite <- (take_drop n cell) in Hcell |- *.
    apply Forall_app in Hcell as [Hhead Hrest].
    destruct (drop n cell) as [|c rest] eqn:Hdrop.
    { apply (f_equal length) in Hdrop. rewrite length_drop in Hdrop.
      simpl in Hdrop. lia. }
    assert (length (take n cell) = n) as Htake
      by (rewrite length_take; lia).
    destruct (take n cell) as [|c0 s0] eqn:Hhd.
    { simpl in Htake. unfold Csv.field_limit in Hn. lia. }
    inversion Hhead as [|? ? Hc0 _]; subst.
    destruct (CsvFacts.cell_char_tests c0 Hc0) as (Hnl0 & _).
    rewrite <- app_comm_cons, process_chars_first_char by done.
    rewrite app_comm_cons, CsvFacts.process_chars_app.
    rewrite (CsvFacts.process_chars_cell (c0 :: s0) [])
      by (split; [done|lia]).
    cbn [Csv.process_chars].
    inversion Hrest as [|? ? Hc _]; subst.
    destruct (CsvFacts.cell_char_tests c Hc) as (Hnl & _ & Hco & _).
    unfold Csv.parse_process_char, Csv.parse_add_char, Csv.field_len.
    cbn [Csv.state Csv.field]. rewrite Hnl, Hco.
    by rewrite (proj2 (Z.leb_le _ _)) by lia. }
  unfold Csv.process_line. rewrite CsvFacts.process_chars_app.
  by rewrite Hstop.
Qed.

Lemma cell_char_no_line_break c : cell_char c -> Written.no_line_break c.
Proof. by intros (_ & _ & ? & ?). Qed.

Lemma load_too_long content cell rest :
  Utf8.decode content = Some (cell ++ rest) ->
  Forall cell_char cell ->
  Csv.field_limit < Z.of_nat (length cell) ->
  load content = None.
Proof.
  intros Hdec Hcell Hlen. unfold load. rewrite Hdec.
  unfold DictReader.read_all, Csv.reader, readlines.
  rewrite readlines_from_skip
    by (eapply Forall_impl; [done|apply cell_char_no_line_break]).
  destruct (readlines_from_first rest ([] ++ cell)) as (tail & lines & ->).
  { destruct cell; [|done]. simpl in Hlen. unfold Csv.field_limit in Hlen.
    lia. }
  cbn [app Csv.Reader_rows]. by rewrite process_line_too_long.
Qed.

(** X11. The field limit of the reader.  When the input starts with more
    than 131072 characters of one unquoted cell, the run raises while
    reading, whatever the rest of the file holds; nothing is printed and
    nothing on disk changes, so no output file appears. *)
Theorem convert_field_too_long csv_file json_file w content cell rest :
  open_read w csv_file = Some content ->
  Utf8.decode content = Some (cell ++ rest) ->
  Forall cell_char cell ->
  131072 < Z.of_nat (length cell) ->
  csv_to_json csv_file json_file w = (inl Reading, w).
Proof.
  intros Hcsv Hdec Hcell Hlen.
  pose proof (load_too_long content cell rest Hdec Hcell Hlen) as Hload.
  destruct (csv_to_json_cases csv_file json_file w);
    try (pose proof (open_read_at_path _ _ _ Hcsv)); congruence.
Qed.

Lemma convert_field_too_long_witness :
  csv_to_json CSV_FILE JSON_FILE
    (only_input (replicate (Z.to_nat 131073) 97 ++ [LF]))
  = (inl Reading, only_input (replicate (Z.to_nat 131073) 97 ++ [LF])).
Proof.
  apply (convert_field_too_long CSV_FILE JSON_FILE
           (only_input (replicate (Z.to_nat 131073) 97 ++ [LF]))
           (replicate (Z.to_nat 131073) 97 ++ [LF])
           (replicate (Z.to_nat 131073) 97) [LF]).
  - unfold open_read, only_input. cbn [resolve fs may_read].
    change (lookup_name sample_names CSV_FILE) with (Some 1%N).
    cbv beta iota. by rewrite lookup_singleton_eq.
  - apply decode_ascii. apply Forall_app. split.
    + apply Forall_replicate. lia.
    + repeat constructor; unfold LF; lia.
  - apply Forall_replicate. unfold cell_char, COMMA, QUOTE, LF, CR. lia.
  - rewrite length_replicate. lia.
Defined.

(** ** A byte order mark *)

Lemma update_head pairs : forall k v d,
  exists v' d', update ((k, v) :: d) pairs = (k, v') :: d'.
Proof.
  induction pairs as [|[k1 v1] pairs IH]; intros k v d; [by eauto|].
  unfold update in *. cbn [foldl dict_setitem fst snd].
  destruct (decide (k = k1)); apply IH.
Qed.

(** The first header field is the first key of every record. *)
Lemma row_to_dict_head k ks c cs :
  exists v rest,
    DictReader.row_to_dict (k :: ks) (c :: cs) = (KStr k, v) :: rest.
Proof.
  destruct (update_head (DictReader.zipped ks cs) (KStr k) (VStr c) [])
    as (v0 & d0 & Hz).
  assert (dict (DictReader.zipped (k :: ks) (c :: cs)) = (KStr k, v0) :: d0)
    as Hdict.
  { rewrite dict_unfold. unfold DictReader.zipped.
    cbn [fmap list_fmap zip zip_with]. unfold update at 1. cbn [foldl].
    cbn [dict_setitem fst snd]. exact Hz. }
  destruct (decide (length (k :: ks) < length (c :: cs))%nat).
  - rewrite DictReaderFacts.row_to_dict_long, Hdict by done.
    cbn [dict_setitem]. rewrite decide_False by done. eauto.
  - rewrite DictReaderFacts.row_to_dict_short, Hdict by lia.
    apply update_head.
Qed.

Lemma simple_row_not_nil row : simple_row row -> row <> [].
Proof. by intros (_ & ? & _). Qed.

(** X12. A byte order mark is not removed.  When a file of unquoted cells
    starts with the three bytes of U+FEFF, the run succeeds and that
    character stays in front of the first header field: it is the first
    character of the first key of every record, and of the name of the
    first member of every object that the output file holds.
    Here the output can be opened and standard output can encode the
    report. *)
Theorem convert_bom_kept csv_file json_file w field1 fields rows body :
  Forall simple_row ((field1 :: fields) :: rows) ->
  Z.of_nat (length field1) < Csv.field_limit ->
  Utf8.encode (write_rows ((field1 :: fields) :: rows)) = Some body ->
  open_read w csv_file = Some (BOM_bytes ++ body) ->
  writable json_file w ->
  reports csv_file json_file w ->
  exists data objects,
    converted csv_file json_file w data /\
    data = DictReader.row_to_dict ((BOM :: field1) :: fields) <$> rows /\
    Forall (fun d => exists v rest, d = (KStr (BOM :: field1), v) :: rest)
           data /\
    output_reads csv_file json_file w objects /\
    length objects = length rows /\
    Forall (fun object =>
              exists v members,
                object = JsonText.JObject ((BOM :: field1, v) :: members))
           objects.
Proof.
  intros Hrows Hlen Henc Hcsv Hw Hprint.
  inversion Hrows as [|? ? (Hcells & _ & Hblank) Hdata]; subst.
  inversion Hcells as [|? ? [Hchars _] Hfields]; subst.
  assert (Forall simple_row (((BOM :: field1) :: fields) :: rows)) as Hrows'.
  { constructor; [|done]. split; [|split; [done|by intros [=]]].
    constructor; [|done]. split.
    - constructor; [|done]. unfold cell_char, BOM, COMMA, QUOTE, LF, CR. lia.
    - cbn [length]. lia. }
  assert (write_rows (((BOM :: field1) :: fields) :: rows)
          = BOM :: write_rows ((field1 :: fields) :: rows)) as Htext.
  { unfold write_rows. cbn [fmap list_fmap concat]. unfold write_row at 1 3.
    by destruct fields. }
  assert (parses (BOM_bytes ++ body) ((BOM :: field1) :: fields) rows)
    as Hparse.
  { apply CsvFacts.written_parses; [done|]. rewrite Htext.
    cbn [Utf8.encode]. by rewrite Henc. }
  assert (converted csv_file json_file w
            (DictReader.records ((BOM :: field1) :: fields) rows)) as Hconv
    by (apply input_file_converted;
        [by exists (BOM_bytes ++ body)|done|done]).
  exists (DictReader.records ((BOM :: field1) :: fields) rows),
         (JsonText.of_dict
            <$> DictReader.records ((BOM :: field1) :: fields) rows).
  split; [done|].
  assert (Forall (fun row => row <> []) rows) as Hfull
    by (eapply Forall_impl; [exact Hdata|apply simple_row_not_nil]).
  assert (Forall (fun d => exists v rest,
                      d = (KStr (BOM :: field1), v) :: rest)
            (DictReader.row_to_dict ((BOM :: field1) :: fields) <$> rows))
    as Hhead.
  { apply Forall_fmap. eapply Forall_impl; [exact Hfull|].
    intros [|c cs] Hne; [done|]. apply row_to_dict_head. }
  split; [by apply DictReaderFacts.records_no_blank|].
  split; [by rewrite DictReaderFacts.records_no_blank|].
  split; [by apply converted_reads|].
  rewrite DictReaderFacts.records_no_blank by done.
  split; [by rewrite !length_fmap|].
  apply Forall_fmap. eapply Forall_impl; [exact Hhead|].
  intros d (v & rest & ->). by eexists _, _.
Qed.

Lemma convert_bom_kept_witness :
  exists data objects,
    converted CSV_FILE JSON_FILE
      (only_input (BOM_bytes ++ lit "id,name" ++ [LF] ++ lit "1,Ann" ++ [LF]))
      data /\
    data = DictReader.row_to_dict [BOM :: lit "id"; lit "name"]
             <$> [[lit "1"; lit "Ann"]] /\
    Forall (fun d => exists v rest, d = (KStr (BOM :: lit "id"), v) :: rest)
           data /\
    output_reads CSV_FILE JSON_FILE
      (only_input (BOM_bytes ++ lit "id,name" ++ [LF] ++ lit "1,Ann" ++ [LF]))
      objects /\
    length objects = length [[lit "1"; lit "Ann"]] /\
    Forall (fun object =>
              exists v members,
                object = JsonText.JObject ((BOM :: lit "id", v) :: members))
           objects.
Proof.
  apply (convert_bom_kept CSV_FILE JSON_FILE
           (only_input
              (BOM_bytes ++ lit "id,name" ++ [LF] ++ lit "1,Ann" ++ [LF]))
           (lit "id") [lit "name"] [[lit "1"; lit "Ann"]]
           (lit "id,name" ++ [LF] ++ lit "1,Ann" ++ [LF])).
  - repeat (constructor; [solve_well_written|]). constructor.
  - vm_compute. reflexivity.
  - vm_compute. reflexivity.
  - reflexivity.
  - apply sample_writable.
  - apply sample_reports.
Defined.

(** ** No control character reaches the output *)

Module LayoutFacts.
Import Json.

Lemma visible_literal s :
  Forall (fun c => 32 <= c) (lit s) -> Forall visible_or_lf (lit s).
Proof. intros Hs. eapply Forall_impl; [exact Hs|]. by left. Qed.

Ltac solve_visible :=
  apply visible_literal;
  repeat (constructor; [by (cbv; discriminate)|]); constructor.

Lemma hex_digit_visible n : 0 <= n -> 32 <= hex_digit n.
Proof. unfold hex_digit. intros. case_match; lia. Qed.

(** A character is replaced by visible characters, or is visible itself. *)
Lemma replace_visible c : 0 <= c -> Forall (fun x => 32 <= x) (replace c).
Proof.
  intros Hc. unfold replace, ESCAPE_DCT, BACKSLASH, QUOTE, LF, CR.
  repeat case_match; bool_to_prop; simplify_eq/=;
    repeat (constructor;
            [first [ lia
                   | by (cbv; discriminate)
                   | apply hex_digit_visible; Z.div_mod_to_equations; lia ]|]);
    constructor.
Qed.

Lemma py_encode_basestring_visible s :
  Forall (fun c => 0 <= c) s -> Forall visible_or_lf (py_encode_basestring s).
Proof.
  intros Hs. unfold py_encode_basestring.
  assert (visible_or_lf QUOTE) by (left; unfold QUOTE; lia).
  apply Forall_app; split; [constructor; [done|constructor]|].
  apply Forall_app; split; [|constructor; [done|constructor]].
  induction Hs as [|c s Hc _ IH]; [constructor|].
  cbn [mbind list_bind]. apply Forall_app; split; [|done].
  eapply Forall_impl; [by apply replace_visible|]. by left.
Qed.

Lemma newline_indent_visible level : Forall visible_or_lf (newline_indent level).
Proof.
  unfold newline_indent. constructor; [by right|].
  induction level as [|n IH]; simpl; [constructor|].
  repeat (constructor; [left; by (cbv; discriminate)|]). exact IH.
Qed.

Lemma separator_visible level :
  Forall visible_or_lf (item_separator ++ newline_indent level).
Proof.
  apply Forall_app; split; [solve_visible|apply newline_indent_visible].
Qed.

Lemma iterencode_list_visible {A} (Q : A -> Prop) item lst level :
  (forall v lvl, Q v -> Forall visible_or_lf (item v lvl)) -> Forall Q lst ->
  Forall visible_or_lf (iterencode_list item lst level).
Proof.
  intros Hitem Hlst. unfold iterencode_list.
  destruct lst as [|v lst]; [solve_visible|].
  apply Forall_app; split; [solve_visible|].
  apply Forall_app; split; [apply newline_indent_visible|].
  apply Forall_app; split;
    [|apply Forall_app; split; [apply newline_indent_visible|solve_visible]].
  apply (JsonFacts.separated_chars visible_or_lf);
    [apply separator_visible|].
  apply Forall_fmap. eapply Forall_impl; [exact Hlst|]. simpl. auto.
Qed.

Lemma iterencode_value_visible v level :
  value_chars zero_up v -> Forall visible_or_lf (iterencode_value v level).
Proof.
  destruct v as [s| |l]; simpl; intros Hv.
  - by apply py_encode_basestring_visible.
  - solve_visible.
  - apply (iterencode_list_visible (Forall zero_up)); [|done].
    intros. by apply py_encode_basestring_visible.
Qed.

Lemma iterencode_dict_visible d level :
  dict_chars zero_up d -> Forall visible_or_lf (iterencode_dict d level).
Proof.
  intros Hd. unfold iterencode_dict.
  destruct d as [|kv d]; [solve_visible|].
  apply Forall_app; split; [solve_visible|].
  apply Forall_app; split; [apply newline_indent_visible|].
  apply Forall_app; split;
    [|apply Forall_app; split; [apply newline_indent_visible|solve_visible]].
  apply (JsonFacts.separated_chars visible_or_lf);
    [apply separator_visible|].
  apply Forall_fmap. eapply Forall_impl; [exact Hd|]. simpl.
  intros [k v] [Hk Hv]. unfold iterencode_item.
  apply Forall_app; split.
  { apply py_encode_basestring_visible.
    destruct k; simpl in *; [done|].
    repeat (constructor; [by (cbv; discriminate)|]). constructor. }
  apply Forall_app; split; [solve_visible|].
  by apply iterencode_value_visible.
Qed.

Lemma dumps_visible data :
  Forall (dict_chars zero_up) data -> Forall visible_or_lf (dumps data).
Proof.
  intros. apply (iterencode_list_visible (dict_chars zero_up)); [|done].
  intros. by apply iterencode_dict_visible.
Qed.

Lemma encode_char_visible c b :
  Utf8.encode_char c = Some b -> visible_or_lf c -> Forall visible_or_lf b.
Proof.
  unfold Utf8.encode_char, Utf8.in_range, visible_or_lf, LF.
  intros Henc Hc.
  repeat case_match; bool_to_prop; simplify_eq;
    repeat (constructor; [left; Z.div_mod_to_equations; lia|]);
    try constructor; try done.
Qed.

Lemma encode_visible s : forall bs,
  Utf8.encode s = Some bs -> Forall visible_or_lf s ->
  Forall visible_or_lf bs.
Proof.
  induction s as [|c s IH]; intros bs Henc Hs; simpl in Henc.
  - simplify_eq. constructor.
  - destruct (Utf8.encode_char c) as [b|] eqn:Hc; [|done].
    destruct (Utf8.encode s) as [bs'|]; [|done]. simplify_eq.
    inversion Hs; subst. apply Forall_app; split.
    + by eapply encode_char_visible.
    + by apply IH.
Qed.

End LayoutFacts.

(** Once the table is read and the output is opened, the output is written,
    whatever happens to the report. *)
Lemma csv_to_json_written csv_file json_file w content data l :
  open_read w csv_file = Some content ->
  load content = Some data ->
  open_write w json_file = Some l ->
  exists out,
    Utf8.encode (Json.dumps data) = Some out /\
    at_path (csv_to_json csv_file json_file w).2 json_file
    = Some (File out) /\
    fs (csv_to_json csv_file json_file w).2 = <[l := File out]> (fs w).
Proof.
  intros Hcsv Hload Hl.
  pose proof (open_write_resolve _ _ _ Hl) as Hres.
  destruct (csv_to_json_cases csv_file json_file w) as
    [Hat Hp|Hat Hp|Hat Hno|c Hc Hload'|c d Hc Hload' Hno
    |c d l' out Hc Hload' Hl' Hout Hp|c d l' out Hc Hload' Hl' Hout Hp];
    try (pose proof (open_read_at_path _ _ _ Hcsv)); try congruence;
    simplify_eq; exists out; cbn [snd]; rewrite ?at_path_with_line;
    (split; [done|]); (split; [by apply at_path_with_file|done]).
Qed.

(** X13. No control character reaches the output file as it is.  Whatever
    the cells hold (tabs, line breaks inside quoted cells, other control
    characters), once the table is read and the output is opened the bytes
    that are written are UTF-8 for a text that reads as the JSON array of
    the records, with a reader that accepts no control character inside a
    string; and every byte written is at least 32 or is a line feed.  So
    the line feeds of the file are those of the layout, between the tokens,
    and every control character of a cell is written as an escape. *)
Theorem output_has_no_control_bytes csv_file json_file w content data l :
  open_read w csv_file = Some content ->
  load content = Some data ->
  open_write w json_file = Some l ->
  exists out text,
    at_path (csv_to_json csv_file json_file w).2 json_file
    = Some (File out) /\
    Utf8.decode out = Some text /\
    JsonText.read text = Some (JsonText.of_data data) /\
    Forall visible_or_lf out.
Proof.
  intros Hcsv Hload Hl.
  destruct (csv_to_json_written _ _ _ _ _ _ Hcsv Hload Hl)
    as (out & Hout & Hat & _).
  destruct (written_reads _ _ _ Hload Hout) as [Hdec Hread].
  exists out, (Json.dumps data). split; [done|]. split; [done|].
  split; [done|].
  eapply LayoutFacts.encode_visible; [done|].
  by apply LayoutFacts.dumps_visible, loaded_zero_up with content.
Qed.

Lemma output_has_no_control_bytes_witness :
  exists out text,
    at_path (csv_to_json CSV_FILE JSON_FILE (only_input control_csv)).2
      JSON_FILE = Some (File out) /\
    Utf8.decode out = Some text /\
    JsonText.read text
    = Some (JsonText.of_data
              [[(KStr (lit "a"), VStr (lit "x" ++ [9; LF; 1] ++ lit "y"))]]) /\
    Forall visible_or_lf out.
Proof.
  apply (output_has_no_control_bytes CSV_FILE JSON_FILE
           (only_input control_csv) control_csv
           [[(KStr (lit "a"), VStr (lit "x" ++ [9; LF; 1] ++ lit "y"))]]
           2%N).
  - reflexivity.
  - vm_compute. reflexivity.
  - reflexivity.
Defined.

(** ** Reading back written files: rows over several lines *)

Module StreamFacts.
Import Csv Written.

(** *** The reader over the lines of a text

    [Reader_rows self0 (readlines_from cur t)] is the reader at the point
    where the lines before have left it in [self0], the line being read has
    the characters [cur] so far, and [t] is still to come. *)

(** A line break inside quotes ends the line, not the record: the reader
    goes on with the next line, the line break being part of the field. *)
Lemma Reader_rows_break_in_quotes self0 cur fs f brk K :
  process_chars self0 cur = Some (mkReader IN_QUOTED_FIELD fs f) ->
  readlines_from cur (brk ++ K) = (cur ++ brk) :: readlines_from [] K ->
  double_quotes brk = brk ->
  Z.of_nat (length (f ++ brk)) <= field_limit ->
  Reader_rows self0 (readlines_from cur (brk ++ K))
  = Reader_rows (mkReader IN_QUOTED_FIELD fs (f ++ brk)) (readlines_from [] K).
Proof.
  intros Hcur Hsplit Hplain Hlen. rewrite Hsplit. cbn [Reader_rows].
  rewrite WrittenFacts.process_line_app, Hcur.
  unfold process_line. rewrite <- Hplain at 1.
  rewrite WrittenFacts.process_chars_in_quotes by done.
  unfold parse_process_char. cbn [state].
  by rewrite bool_decide_false.
Qed.

Lemma readlines_from_step c cur t :
  no_line_break c ->
  readlines_from cur (c :: t) = readlines_from (cur ++ [c]) t.
Proof.
  intros [Hlf Hcr]. cbn [readlines_from].
  by rewrite !(proj2 (Z.eqb_neq _ _)) by done.
Qed.

Lemma readlines_from_lf cur t :
  readlines_from cur (LF :: t) = (cur ++ [LF]) :: readlines_from [] t.
Proof. done. Qed.

Lemma readlines_from_crlf cur t :
  readlines_from cur (CR :: LF :: t) = (cur ++ [CR; LF]) :: readlines_from [] t.
Proof. done. Qed.

Lemma readlines_from_cr cur c t :
  c <> LF ->
  readlines_from cur (CR :: c :: t) = (cur ++ [CR]) :: readlines_from [] (c :: t).
Proof.
  intros Hc. cbn [readlines_from].
  change (CR =? LF) with false. change (CR =? CR) with true. cbv iota.
  by rewrite (proj2 (Z.eqb_neq _ _)) by done.
Qed.

Lemma double_quotes_cons c s :
  double_quotes (c :: s) = double_quotes [c] ++ double_quotes s.
Proof. unfold double_quotes. cbn [mbind list_bind]. by rewrite app_nil_r. Qed.

Ltac solve_len :=
  repeat match goal with
         | H : context [length (_ ++ _)] |- _ => rewrite length_app in H
         end;
  rewrite ?length_app; cbn [length] in *; lia.

(** The content of a quoted cell, line breaks included, up to the closing
    quote. *)
Lemma Reader_rows_in_quotes n : forall s self0 cur fs f,
  (length s <= n)%nat ->
  process_chars self0 cur = Some (mkReader IN_QUOTED_FIELD fs f) ->
  Z.of_nat (length (f ++ s)) <= field_limit ->
  exists self0' cur',
    process_chars self0' cur' = Some (mkReader IN_QUOTED_FIELD fs (f ++ s)) /\
    forall K,
      Reader_rows self0 (readlines_from cur (double_quotes s ++ QUOTE :: K))
      = Reader_rows self0' (readlines_from cur' (QUOTE :: K)).
Proof.
  assert (QUOTE <> LF) as Hq by done.
  induction n as [|n IH]; intros s self0 cur fs f Hn Hcur Hlen.
  { destruct s; [|simpl in Hn; lia]. exists self0, cur.
    rewrite app_nil_r. by split. }
  destruct s as [|c s].
  { exists self0, cur. rewrite app_nil_r. by split. }
  cbn [length] in Hn.
  assert (forall u, f ++ c :: u = (f ++ [c]) ++ u) as Hassoc
    by (intros; by rewrite <- app_assoc).
  destruct (decide (c = LF)) as [->|Hlf].
  { (* a line feed *)
    destruct (IH s (mkReader IN_QUOTED_FIELD fs (f ++ [LF])) [] fs (f ++ [LF]))
      as (self0' & cur' & Hcur' & Hgo);
      [lia|done|by rewrite <- Hassoc|].
    exists self0', cur'. split; [by rewrite Hassoc|]. intros K.
    rewrite <- Hgo.
    change (double_quotes (LF :: s) ++ QUOTE :: K)
      with ([LF] ++ (double_quotes s ++ QUOTE :: K)).
    apply Reader_rows_break_in_quotes; [done|done|done|].
    solve_len. }
  destruct (decide (c = CR)) as [->|Hcr].
  { (* a carriage return: alone, or with the line feed after it *)
    destruct s as [|c' s].
    - exists (mkReader IN_QUOTED_FIELD fs (f ++ [CR])), [].
      split; [done|]. intros K.
      change (double_quotes [CR] ++ QUOTE :: K) with ([CR] ++ QUOTE :: K).
      apply Reader_rows_break_in_quotes; [done| |done|done].
      by apply readlines_from_cr.
    - destruct (decide (c' = LF)) as [->|Hlf'].
      + destruct (IH s (mkReader IN_QUOTED_FIELD fs (f ++ [CR; LF])) [] fs
                    (f ++ [CR; LF]))
          as (self0' & cur' & Hcur' & Hgo);
          [simpl in Hn; lia|done|by rewrite <- app_assoc|].
        exists self0', cur'.
        split; [by rewrite Hcur', <- app_assoc|]. intros K.
        rewrite <- Hgo.
        change (double_quotes (CR :: LF :: s) ++ QUOTE :: K)
          with ([CR; LF] ++ (double_quotes s ++ QUOTE :: K)).
        apply Reader_rows_break_in_quotes; [done|done|done|].
        solve_len.
      + destruct (IH (c' :: s) (mkReader IN_QUOTED_FIELD fs (f ++ [CR])) []
                    fs (f ++ [CR]))
          as (self0' & cur' & Hcur' & Hgo);
          [simpl in *; lia|done|by rewrite <- Hassoc|].
        exists self0', cur'. split; [by rewrite Hassoc|]. intros K.
        rewrite <- Hgo.
        change (double_quotes (CR :: c' :: s) ++ QUOTE :: K)
          with ([CR] ++ (double_quotes (c' :: s) ++ QUOTE :: K)).
        apply Reader_rows_break_in_quotes; [done| |done|].
        * unfold double_quotes. cbn [mbind list_bind app].
          destruct (c' =? QUOTE); rewrite <- !app_comm_cons;
            by apply readlines_from_cr.
        * solve_len. }
  (* any other character, a quote being doubled *)
  assert (process_chars (mkReader IN_QUOTED_FIELD fs f) (double_quotes [c])
          = Some (mkReader IN_QUOTED_FIELD fs (f ++ [c]))) as Hstep.
  { apply WrittenFacts.process_chars_in_quotes.
    solve_len. }
  destruct (IH s self0 (cur ++ double_quotes [c]) fs (f ++ [c]))
    as (self0' & cur' & Hcur' & Hgo);
    [lia|by rewrite CsvFacts.process_chars_app, Hcur|by rewrite <- Hassoc|].
  exists self0', cur'. split; [by rewrite Hassoc|]. intros K.
  rewrite <- Hgo.
  rewrite double_quotes_cons, <- app_assoc.
  f_equal. apply readlines_from_skip.
  unfold double_quotes. cbn [mbind list_bind app].
  destruct (c =? QUOTE); repeat constructor; done.
Qed.

(** A written cell, wherever the line being read started. *)
Lemma Reader_rows_cell c self0 cur fs :
  well_written_cell c ->
  process_chars self0 cur = Some (mkReader START_FIELD fs []) ->
  exists self0' cur',
    process_chars self0' cur'
    = Some (mkReader (state_after c) fs (cell_text c)) /\
    forall K,
      Reader_rows self0 (readlines_from cur (cell_source c ++ K))
      = Reader_rows self0' (readlines_from cur' K).
Proof.
  intros Hc Hcur. destruct c as [s|s].
  - exists self0, (cur ++ s). split.
    + rewrite CsvFacts.process_chars_app, Hcur.
      rewrite (CsvFacts.process_chars_cell s fs Hc). by destruct s.
    + intros K. cbn [cell_source]. f_equal. apply readlines_from_skip.
      destruct Hc as [Hs _]. eapply Forall_impl; [exact Hs|].
      apply cell_char_no_line_break.
  - assert (no_line_break QUOTE) as Hq by done.
    assert (process_chars self0 (cur ++ [QUOTE])
            = Some (mkReader IN_QUOTED_FIELD fs [])) as Hopen.
    { by rewrite CsvFacts.process_chars_app, Hcur. }
    destruct (Reader_rows_in_quotes (length s) s self0 (cur ++ [QUOTE]) fs [])
      as (self0' & cur' & Hcur' & Hgo); [done|done|done|].
    exists self0', (cur' ++ [QUOTE]). split.
    + rewrite CsvFacts.process_chars_app, Hcur'. cbn [process_chars].
      unfold parse_process_char. cbn [state]. by rewrite Z.eqb_refl.
    + intros K. cbn [cell_source].
      rewrite <- app_assoc. cbn [app].
      rewrite readlines_from_step by done.
      rewrite <- app_assoc. cbn [app].
      rewrite Hgo. by rewrite readlines_from_step.
Qed.

(** The end of a row, after its last cell. *)
Lemma Reader_rows_line_end c self0 cur fs f e rest :
  process_chars self0 cur = Some (mkReader (state_after c) fs f) ->
  Reader_rows self0 (readlines_from cur (line_end_text e ++ rest))
  = (let (rows, en) := Reader_rows parse_reset (readlines_from [] rest) in
     ((fs ++ [f]) :: rows, en)).
Proof.
  intros Hcur.
  assert (readlines_from cur (line_end_text e ++ rest)
          = (cur ++ line_end_text e) :: readlines_from [] rest) as ->
    by (by destruct e).
  cbn [Reader_rows]. rewrite WrittenFacts.process_line_app, Hcur.
  rewrite WrittenFacts.line_end_after_cell. cbn [state fields].
  by rewrite bool_decide_true.
Qed.

(** The cells of a row and its line end. *)
Lemma Reader_rows_cells cs : forall self0 cur fs e rest,
  Forall well_written_cell cs -> cs <> [] ->
  process_chars self0 cur = Some (mkReader START_FIELD fs []) ->
  Reader_rows self0
    (readlines_from cur
       (join_cells (cell_source <$> cs) ++ line_end_text e ++ rest))
  = (let (rows, en) := Reader_rows parse_reset (readlines_from [] rest) in
     ((fs ++ (cell_text <$> cs)) :: rows, en)).
Proof.
  induction cs as [|c cs IH]; intros self0 cur fs e rest Hcs Hne Hcur;
    [done|].
  inversion Hcs as [|? ? Hc Hcs']; subst.
  destruct (Reader_rows_cell c self0 cur fs Hc Hcur)
    as (self0' & cur' & Hcur' & Hgo).
  destruct cs as [|c2 cs].
  - cbn [fmap list_fmap join_cells]. rewrite Hgo.
    by apply Reader_rows_line_end with c.
  - change (cell_source <$> c :: c2 :: cs)
      with (cell_source c :: cell_source c2 :: (cell_source <$> cs)).
    rewrite CsvFacts.join_cells_cons, <- app_assoc, Hgo.
    rewrite <- app_comm_cons, readlines_from_step by done.
    change (cell_source c2 :: (cell_source <$> cs))
      with (cell_source <$> c2 :: cs).
    rewrite (IH self0' (cur' ++ [COMMA]) (fs ++ [cell_text c])); [|done..|].
    + by rewrite <- app_assoc.
    + rewrite CsvFacts.process_chars_app, Hcur'. cbn [process_chars].
      by rewrite WrittenFacts.comma_after_cell.
Qed.

(** From the start of a record, a character that is no line break is read
    as from the start of a field. *)
Lemma Reader_rows_first_char x t :
  is_newline x = false ->
  Reader_rows parse_reset (readlines_from [] (x :: t))
  = Reader_rows (mkReader START_FIELD [] []) (readlines_from [] (x :: t)).
Proof.
  intros Hnl.
  assert (no_line_break x) as Hx.
  { unfold is_newline in Hnl. apply orb_false_iff in Hnl as [? ?].
    split; by apply Z.eqb_neq. }
  rewrite readlines_from_step by done.
  destruct (readlines_from_first t ([] ++ [x])) as (tail & lines & ->);
    [done|].
  cbn [app Reader_rows]. unfold process_line.
  by rewrite process_chars_first_char.
Qed.

Lemma row_source_first r rest :
  well_written r -> cells r <> [] ->
  exists x t, row_source r ++ rest = x :: t /\ is_newline x = false.
Proof.
  destruct r as [cs e]. unfold well_written, row_source. cbn [cells ending].
  intros [Hcs Hblank] Hne.
  destruct cs as [|c cs]; [done|].
  inversion Hcs as [|? ? Hc _]; subst.
  destruct c as [[|x s]|s].
  - destruct cs as [|c2 cs]; [done|].
    change (cell_source <$> Plain [] :: c2 :: cs)
      with (cell_source (Plain []) :: cell_source c2 :: (cell_source <$> cs)).
    rewrite CsvFacts.join_cells_cons. cbn [cell_source app]. eauto.
  - destruct Hc as [Hs _]. inversion Hs as [|? ? Hx _]; subst.
    destruct (CsvFacts.cell_char_tests x Hx) as (Hnl & _).
    destruct cs as [|c2 cs].
    + cbn [fmap list_fmap join_cells cell_source].
      rewrite <- !app_comm_cons. eauto.
    + change (cell_source <$> Plain (x :: s) :: c2 :: cs)
        with (cell_source (Plain (x :: s)) :: cell_source c2
              :: (cell_source <$> cs)).
      rewrite CsvFacts.join_cells_cons. cbn [cell_source].
      rewrite <- !app_comm_cons. eauto.
  - destruct cs as [|c2 cs].
    + cbn [fmap list_fmap join_cells cell_source].
      rewrite <- !app_comm_cons. cbn [app]. eauto.
    + change (cell_source <$> Quoted s :: c2 :: cs)
        with (cell_source (Quoted s) :: cell_source c2
              :: (cell_source <$> cs)).
      rewrite CsvFacts.join_cells_cons. cbn [cell_source].
      rewrite <- !app_comm_cons. cbn [app]. eauto.
Qed.

(** A written row, then the rest of the file. *)
Lemma Reader_rows_row r rest :
  well_written r ->
  Reader_rows parse_reset (readlines_from [] (row_source r ++ rest))
  = (let (rows, en) := Reader_rows parse_reset (readlines_from [] rest) in
     (row_texts r :: rows, en)).
Proof.
  intros Hr. destruct (decide (cells r = [])) as [Hnil|Hne].
  - unfold row_source, row_texts. rewrite Hnil. by destruct (ending r).
  - destruct (row_source_first r rest Hr Hne) as (x & t & Hsrc & Hnl).
    rewrite Hsrc, Reader_rows_first_char, <- Hsrc by done.
    destruct Hr as [Hcs _]. unfold row_source. rewrite <- app_assoc.
    by rewrite (Reader_rows_cells (cells r) _ [] []).
Qed.

Lemma Reader_rows_file rows :
  Forall well_written rows ->
  reader (readlines (file_source rows)) = (row_texts <$> rows, StopIteration).
Proof.
  unfold reader, readlines, file_source.
  induction 1 as [|r rows Hr _ IH]; [done|].
  cbn [fmap list_fmap concat]. rewrite Reader_rows_row by done.
  by rewrite IH.
Qed.

(** A written file is read back as the texts of its rows, a blank line as
    an empty row. *)
Lemma written_file_parses header rows content :
  Forall well_written (header :: rows) ->
  Utf8.encode (file_source (header :: rows)) = Some content ->
  parses content (row_texts header) (row_texts <$> rows).
Proof.
  intros Hrows Henc. exists (file_source (header :: rows)).
  split; [by apply Utf8Facts.decode_encode|].
  by rewrite Reader_rows_file.
Qed.

End StreamFacts.

Lemma written_file_converted csv_file json_file w header rows content :
  Forall Written.well_written (header :: rows) ->
  Utf8.encode (Written.file_source (header :: rows)) = Some content ->
  open_read w csv_file = Some content ->
  writable json_file w ->
  reports csv_file json_file w ->
  converted csv_file json_file w
    (DictReader.row_to_dict (Written.row_texts header)
       <$> filter (fun row => row <> []) (Written.row_texts <$> rows)).
Proof.
  intros Hrows Henc Hcsv Hw Hprint.
  rewrite <- DictReaderFacts.records_filter.
  apply input_file_converted; [|done|done].
  exists content. split; [done|].
  by apply StreamFacts.written_file_parses.
Qed.

(** X14. A file written by the usual rules is converted cell for cell.  The
    cells may be written as they are or in quotes with doubled quotes (then
    holding commas, quotes and line breaks, so that a row may span several
    lines), the rows may end with LF or CR LF, and there may be blank lines:
    the dataset has one record per row that is not blank, built from the
    texts of its cells, with nothing trimmed, and the output file reads as
    the array of the objects of these records.
    Here the output can be opened and standard output can encode the
    report. *)
Theorem convert_written_file csv_file json_file w header rows content :
  Forall Written.well_written (header :: rows) ->
  Utf8.encode (Written.file_source (header :: rows)) = Some content ->
  open_read w csv_file = Some content ->
  writable json_file w ->
  reports csv_file json_file w ->
  converted csv_file json_file w
    (DictReader.row_to_dict (Written.row_texts header)
       <$> filter (fun row => row <> []) (Written.row_texts <$> rows)) /\
  output_reads csv_file json_file w
    (JsonText.of_dict
       <$> (DictReader.row_to_dict (Written.row_texts header)
              <$> filter (fun row => row <> [])
                    (Written.row_texts <$> rows))).
Proof.
  intros Hrows Henc Hcsv Hw Hprint.
  pose proof (written_file_converted _ _ _ _ _ _ Hrows Henc Hcsv Hw Hprint).
  split; [done|]. by apply converted_reads.
Qed.

Lemma table_plain_well_written :
  Forall Written.well_written (table_plain_header :: table_plain_rows).
Proof.
  unfold table_plain_header, table_plain_rows.
  repeat (constructor; [solve_well_written|]). constructor.
Defined.

Lemma table_quoted_well_written :
  Forall Written.well_written (table_quoted_header :: table_quoted_rows).
Proof.
  unfold table_quoted_header, table_quoted_rows.
  repeat (constructor; [solve_well_written|]). constructor.
Defined.

Lemma convert_written_file_witness :
  converted CSV_FILE JSON_FILE
    (only_input
       (Written.file_source (table_quoted_header :: table_quoted_rows)))
    (DictReader.row_to_dict (Written.row_texts table_quoted_header)
       <$> filter (fun row => row <> [])
             (Written.row_texts <$> table_quoted_rows)) /\
  output_reads CSV_FILE JSON_FILE
    (only_input
       (Written.file_source (table_quoted_header :: table_quoted_rows)))
    (JsonText.of_dict
       <$> (DictReader.row_to_dict (Written.row_texts table_quoted_header)
              <$> filter (fun row => row <> [])
                    (Written.row_texts <$> table_quoted_rows))).
Proof.
  apply (convert_written_file CSV_FILE JSON_FILE
           (only_input
              (Written.file_source
                 (table_quoted_header :: table_quoted_rows)))
           table_quoted_header table_quoted_rows
           (Written.file_source (table_quoted_header :: table_quoted_rows))).
  - exact table_quoted_well_written.
  - vm_compute. reflexivity.
  - reflexivity.
  - apply sample_writable.
  - apply sample_reports.
Defined.

(** X15. The output does not depend on how the table is written.  Two
    written files whose header cells have the same texts and whose rows
    that are not blank have the same cell texts, in the same order, are
    converted to the same bytes: quoting a cell, ending rows with CR LF
    instead of LF and adding blank lines change nothing.
    Here the output can be opened and standard output can encode the
    report. *)
Theorem convert_rendering_independent
    csv_file json_file w1 w2 header1 rows1 header2 rows2 content1 content2 :
  Forall Written.well_written (header1 :: rows1) ->
  Forall Written.well_written (header2 :: rows2) ->
  Utf8.encode (Written.file_source (header1 :: rows1)) = Some content1 ->
  Utf8.encode (Written.file_source (header2 :: rows2)) = Some content2 ->
  open_read w1 csv_file = Some content1 ->
  open_read w2 csv_file = Some content2 ->
  writable json_file w1 -> writable json_file w2 ->
  reports csv_file json_file w1 -> reports csv_file json_file w2 ->
  Written.row_texts header1 = Written.row_texts header2 ->
  filter (fun row => row <> []) (Written.row_texts <$> rows1)
  = filter (fun row => row <> []) (Written.row_texts <$> rows2) ->
  (csv_to_json csv_file json_file w1).1 = inr 0 /\
  (csv_to_json csv_file json_file w2).1 = inr 0 /\
  at_path (csv_to_json csv_file json_file w1).2 json_file
  = at_path (csv_to_json csv_file json_file w2).2 json_file.
Proof.
  intros Hrows1 Hrows2 Henc1 Henc2 Hcsv1 Hcsv2 Hw1 Hw2 Hp1 Hp2 Hheader Hsame.
  pose proof (written_file_converted csv_file json_file w1 header1 rows1
                content1 Hrows1 Henc1 Hcsv1 Hw1 Hp1)
    as (c1 & out1 & l1 & _ & _ & Hout1 & Hl1 & Hrun1).
  pose proof (written_file_converted csv_file json_file w2 header2 rows2
                content2 Hrows2 Henc2 Hcsv2 Hw2 Hp2)
    as (c2 & out2 & l2 & _ & _ & Hout2 & Hl2 & Hrun2).
  rewrite Hheader, Hsame in Hout1, Hrun1.
  rewrite Hrun1, Hrun2. cbn [fst snd]. rewrite !at_path_with_line.
  rewrite !at_path_with_file by (by apply open_write_resolve).
  split; [done|]. split; [done|]. congruence.
Qed.

Lemma convert_rendering_independent_witness :
  let w1 := only_input
              (Written.file_source
                 (table_plain_header :: table_plain_rows)) in
  let w2 := only_input
              (Written.file_source
                 (table_quoted_header :: table_quoted_rows)) in
  (csv_to_json CSV_FILE JSON_FILE w1).1 = inr 0 /\
  (csv_to_json CSV_FILE JSON_FILE w2).1 = inr 0 /\
  at_path (csv_to_json CSV_FILE JSON_FILE w1).2 JSON_FILE
  = at_path (csv_to_json CSV_FILE JSON_FILE w2).2 JSON_FILE.
Proof.
  intros w1 w2.
  apply (convert_rendering_independent CSV_FILE JSON_FILE w1 w2
           table_plain_header table_plain_rows
           table_quoted_header table_quoted_rows
           (Written.file_source (table_plain_header :: table_plain_rows))
           (Written.file_source
              (table_quoted_header :: table_quoted_rows))).
  - exact table_plain_well_written.
  - exact table_quoted_well_written.
  - vm_compute. reflexivity.
  - vm_compute. reflexivity.
  - reflexivity.
  - reflexivity.
  - apply sample_writable.
  - apply sample_writable.
  - apply sample_reports.
  - apply sample_reports.
  - reflexivity.
  - vm_compute. reflexivity.
Defined.

(** ** A cell, from the bytes of the input to the bytes of the output *)

Lemma encode_app_inv s1 : forall s2 b,
  Utf8.encode (s1 ++ s2) = Some b ->
  exists b1 b2,
    Utf8.encode s1 = Some b1 /\ Utf8.encode s2 = Some b2 /\ b = b1 ++ b2.
Proof.
  induction s1 as [|c s1 IH]; intros s2 b Henc.
  - by exists [], b.
  - cbn [app Utf8.encode] in *.
    destruct (Utf8.encode_char c) as [bc|]; [|done].
    destruct (Utf8.encode (s1 ++ s2)) as [b'|] eqn:Hrest; [|done].
    destruct (IH s2 b' Hrest) as (b1 & b2 & -> & H2 & ->). simplify_eq.
    exists (bc ++ b1), b2. by rewrite app_assoc.
Qed.

(** An item of a container stands in the text of the container. *)
Lemma separated_lookup separator items : forall i x,
  items !! i = Some x ->
  exists before after, Json.separated separator items = before ++ x ++ after.
Proof.
  induction items as [|y items IH]; intros [|i] x Hx; simplify_eq/=.
  - destruct items as [|z items].
    + exists [], []. by rewrite app_nil_r.
    + by exists [], (separator ++ Json.separated separator (z :: items)).
  - destruct (IH i x Hx) as (before & after & Heq).
    destruct items as [|z items]; [done|].
    exists (y ++ separator ++ before), after.
    rewrite Heq. by rewrite <- !app_assoc.
Qed.

Lemma iterencode_list_lookup {A} (item : A -> nat -> list Z) lst level i x :
  lst !! i = Some x ->
  exists before after,
    Json.iterencode_list item lst level
    = before ++ item x (S level) ++ after.
Proof.
  intros Hx. unfold Json.iterencode_list.
  destruct lst as [|y lst]; [done|].
  destruct (separated_lookup
              (Json.item_separator ++ Json.newline_indent (S level))
              ((fun v => item v (S level)) <$> y :: lst) i
              (item x (S level))) as (before & after & ->).
  { by rewrite list_lookup_fmap, Hx. }
  exists (lit "[" ++ Json.newline_indent (S level) ++ before),
         (after ++ Json.newline_indent level ++ lit "]").
  by rewrite <- !app_assoc.
Qed.

Lemma iterencode_dict_lookup dct level i kv :
  dct !! i = Some kv ->
  exists before after,
    Json.iterencode_dict dct level
    = before ++ Json.iterencode_item kv (S level) ++ after.
Proof.
  intros Hx. unfold Json.iterencode_dict.
  destruct dct as [|y dct]; [done|].
  destruct (separated_lookup
              (Json.item_separator ++ Json.newline_indent (S level))
              ((fun kv => Json.iterencode_item kv (S level)) <$> y :: dct) i
              (Json.iterencode_item kv (S level)))
    as (before & after & ->).
  { by rewrite list_lookup_fmap, Hx. }
  exists (lit "{" ++ Json.newline_indent (S level) ++ before),
         (after ++ Json.newline_indent level ++ lit "}").
  by rewrite <- !app_assoc.
Qed.

(** The text of a member whose name and value need no escape. *)
Lemma iterencode_item_plain k cell level :
  Forall plain k -> Forall plain cell ->
  Json.iterencode_item (KStr k, VStr cell) level
  = [QUOTE] ++ k ++ [QUOTE] ++ lit ": " ++ [QUOTE] ++ cell ++ [QUOTE].
Proof.
  intros Hk Hcell. unfold Json.iterencode_item.
  cbn [fst snd Json.key_text Json.iterencode_value].
  rewrite !py_encode_basestring_plain by done.
  by rewrite <- !app_assoc.
Qed.

Lemma filter_not_nil_all {A} (l : list (list A)) :
  Forall (fun x => x <> []) l -> filter (fun x => x <> []) l = l.
Proof.
  induction 1 as [|x l Hx _ IH]; [done|].
  by rewrite filter_cons_True, IH.
Qed.

(** C4. In a valid input file, written by the usual rules with distinct
    header fields and no blank line, take the cell that stands in the
    [i]-th data row under the [j]-th header field.  The output file reads
    as an array whose [i]-th object has as [j]-th member the header field
    with the text of that cell, as a string and unchanged: for a cell
    written as it is, the text is what stands between the delimiters in the
    input, blanks included; nothing is trimmed and nothing is converted.
    When the header field and the cell hold only characters from U+0020 on
    other than the quote and the backslash (every character that is not
    ASCII is such a character), the bytes of the output hold the member as
    the UTF-8 bytes of the name and of the cell, each between two quotes: no
    character is written as an escape.
    Here the output can be opened and standard output can encode the
    report. *)
Theorem convert_cell_verbatim
    csv_file json_file w header rows content i r j c k :
  Forall Written.well_written (header :: rows) ->
  Forall (fun r => Written.cells r <> []) rows ->
  NoDup (Written.row_texts header) ->
  Utf8.encode (Written.file_source (header :: rows)) = Some content ->
  open_read w csv_file = Some content ->
  writable json_file w ->
  reports csv_file json_file w ->
  rows !! i = Some r ->
  Written.cells r !! j = Some c ->
  Written.row_texts header !! j = Some k ->
  exists out text objects members cell_bytes,
    at_path (csv_to_json csv_file json_file w).2 json_file
    = Some (File out) /\
    Utf8.decode out = Some text /\
    JsonText.read text = Some (JsonText.JArray objects) /\
    length objects = length rows /\
    objects !! i = Some (JsonText.JObject members) /\
    members !! j = Some (k, JsonText.JString (Written.cell_text c)) /\
    Utf8.encode (Written.cell_text c) = Some cell_bytes /\
    (forall x, 127 < x -> plain x) /\
    (Forall plain k -> Forall plain (Written.cell_text c) ->
     exists key_bytes before after,
       Utf8.encode k = Some key_bytes /\
       out = before ++ [QUOTE] ++ key_bytes ++ [QUOTE] ++ lit ": "
                    ++ [QUOTE] ++ cell_bytes ++ [QUOTE] ++ after).
Proof.
  intros Hrows Hfull Hnd Henc Hcsv Hw Hprint Hr Hc Hk.
  set (fieldnames := Written.row_texts header) in *.
  set (cell := Written.cell_text c).
  assert (filter (fun row => row <> []) (Written.row_texts <$> rows)
          = Written.row_texts <$> rows) as Hfilter.
  { apply filter_not_nil_all, Forall_fmap.
    eapply Forall_impl; [exact Hfull|]. intros r' Hne Hnil.
    apply Hne. unfold Written.row_texts in Hnil.
    by apply fmap_nil_inv in Hnil. }
  pose proof (written_file_converted _ _ _ _ _ _ Hrows Henc Hcsv Hw Hprint)
    as Hconv.
  rewrite Hfilter in Hconv. fold fieldnames in Hconv.
  set (data := DictReader.row_to_dict fieldnames
                 <$> (Written.row_texts <$> rows)) in *.
  set (d := DictReader.row_to_dict fieldnames (Written.row_texts r)).
  assert (data !! i = Some d) as Hd
    by (unfold data; by rewrite !list_lookup_fmap, Hr).
  assert (Written.row_texts r !! j = Some cell) as Hcell
    by (unfold Written.row_texts; by rewrite list_lookup_fmap, Hc).
  assert (d !! j = Some (KStr k, VStr cell)) as Hkv.
  { unfold d. rewrite row_to_dict_distinct by done.
    rewrite lookup_app_l.
    - by apply zipped_lookup.
    - apply lookup_lt_Some with (KStr k, VStr cell). by apply zipped_lookup. }
  destruct (converted_reads _ _ _ _ Hconv) as (out & text & Hat & Hdec & Hread).
  assert (Forall Utf8.scalar cell) as Hscalar.
  { pose proof (StreamFacts.written_file_parses header rows content Hrows
                  Henc) as Hparse.
    apply parses_scalar in Hparse. inversion Hparse as [|? ? _ Hall]; subst.
    apply list_elem_of_lookup_2 in Hcell.
    assert (Written.row_texts r ∈ Written.row_texts <$> rows) as Hin
      by (apply list_elem_of_fmap_2; by eapply list_elem_of_lookup_2).
    apply (proj1 (Forall_forall _ _) Hall) in Hin.
    by apply (proj1 (Forall_forall _ _) Hin). }
  destruct (Utf8Facts.encode_scalar cell Hscalar) as [cell_bytes Hbytes].
  exists out, text, (JsonText.of_dict <$> data),
         ((fun kv => (JsonText.member_name kv.1, JsonText.of_value kv.2))
            <$> d), cell_bytes.
  split; [done|]. split; [done|]. split; [done|].
  split; [unfold data; by rewrite !length_fmap|].
  split; [by rewrite list_lookup_fmap, Hd|].
  split; [by rewrite list_lookup_fmap, Hkv|].
  split; [done|]. split; [apply plain_non_ascii|].
  intros Hplain_k Hplain_c.
  destruct Hconv as (content' & out' & l & _ & _ & Hout & Hl & Hrun).
  assert (out' = out) as ->.
  { rewrite Hrun in Hat. cbn [snd] in Hat. rewrite at_path_with_line in Hat.
    rewrite at_path_with_file in Hat by (by apply open_write_resolve).
    by simplify_eq. }
  destruct (iterencode_list_lookup Json.iterencode_dict data 0 i d Hd)
    as (b1 & a1 & Htext).
  destruct (iterencode_dict_lookup d 1 j _ Hkv) as (b2 & a2 & Hobj).
  unfold Json.dumps in Hout. rewrite Htext, Hobj in Hout.
  rewrite iterencode_item_plain in Hout by done.
  rewrite <- !app_assoc in Hout.
  apply encode_app_inv in Hout as (x1 & y1 & _ & Hout & ->).
  apply encode_app_inv in Hout as (x2 & y2 & _ & Hout & ->).
  apply encode_app_inv in Hout as (q1 & y3 & Hq1 & Hout & ->).
  apply encode_app_inv in Hout as (key_bytes & y4 & Hkey & Hout & ->).
  apply encode_app_inv in Hout as (q2 & y5 & Hq2 & Hout & ->).
  apply encode_app_inv in Hout as (sep & y6 & Hsep & Hout & ->).
  apply encode_app_inv in Hout as (q3 & y7 & Hq3 & Hout & ->).
  apply encode_app_inv in Hout as (cb & y8 & Hcb & Hout & ->).
  apply (encode_app_inv [QUOTE]) in Hout as (q4 & y9 & Hq4 & Hout & ->).
  assert (cb = cell_bytes) as -> by congruence.
  change (Utf8.encode [QUOTE]) with (Some [QUOTE]) in *.
  change (Utf8.encode (lit ": ")) with (Some (lit ": ")) in *.
  simplify_eq.
  exists key_bytes, (x1 ++ x2), y9. split; [done|].
  by rewrite <- !app_assoc.
Qed.

(** The second data row of the sample: its first cell ends with U+00E9. *)
Lemma convert_cell_verbatim_witness :
  let header := Written.mkRow [Written.Plain (lit "symbol");
                               Written.Plain (lit "price")] Written.Unix in
  let rows := [ Written.mkRow [Written.Plain (lit "AAPL");
                               Written.Plain (lit "$189.50")] Written.Unix;
                Written.mkRow [Written.Plain (lit "caf" ++ [233]);
                               Written.Plain (lit " 7 ")] Written.Unix ] in
  exists out text objects members cell_bytes,
    at_path (csv_to_json CSV_FILE JSON_FILE (only_input sample_csv)).2
      JSON_FILE = Some (File out) /\
    Utf8.decode out = Some text /\
    JsonText.read text = Some (JsonText.JArray objects) /\
    length objects = length rows /\
    objects !! 1%nat = Some (JsonText.JObject members) /\
    members !! 0%nat
    = Some (lit "symbol",
            JsonText.JString
              (Written.cell_text (Written.Plain (lit "caf" ++ [233])))) /\
    Utf8.encode (Written.cell_text (Written.Plain (lit "caf" ++ [233])))
    = Some cell_bytes /\
    (forall x, 127 < x -> plain x) /\
    (Forall plain (lit "symbol") ->
     Forall plain (Written.cell_text (Written.Plain (lit "caf" ++ [233]))) ->
     exists key_bytes before after,
       Utf8.encode (lit "symbol") = Some key_bytes /\
       out = before ++ [QUOTE] ++ key_bytes ++ [QUOTE] ++ lit ": "
                    ++ [QUOTE] ++ cell_bytes ++ [QUOTE] ++ after).
Proof.
  intros header rows.
  apply (convert_cell_verbatim CSV_FILE JSON_FILE (only_input sample_csv)
           header rows sample_csv 1%nat
           (Written.mkRow [Written.Plain (lit "caf" ++ [233]);
                           Written.Plain (lit " 7 ")] Written.Unix)
           0%nat (Written.Plain (lit "caf" ++ [233])) (lit "symbol")).
  - repeat (constructor; [solve_well_written|]). constructor.
  - repeat (constructor; [discriminate|]). constructor.
  - refine (bool_decide_unpack _ _). vm_compute. exact I.
  - vm_compute. reflexivity.
  - reflexivity.
  - apply sample_writable.
  - apply sample_reports.
  - reflexivity.
  - reflexivity.
  - reflexivity.
Defined.

(** ** A quote that is never closed *)

Module UnclosedFacts.
Import Csv Written StreamFacts.

Lemma Reader_rows_end_in_quotes self0 cur fs f :
  process_chars self0 cur = Some (mkReader IN_QUOTED_FIELD fs f) ->
  Reader_rows self0 (readlines_from cur []) = ([fs ++ [f]], StopIteration).
Proof.
  intros Hcur.
  assert (Reader_rows (mkReader IN_QUOTED_FIELD fs f) []
          = ([fs ++ [f]], StopIteration)) as Hend.
  { cbn [Reader_rows state]. rewrite bool_decide_true by done.
    by rewrite orb_true_r. }
  destruct cur as [|c cur].
  - cbn [readlines_from]. by simplify_eq/=.
  - cbn [readlines_from Reader_rows]. unfold process_line. rewrite Hcur.
    unfold parse_process_char. cbn [state].
    by rewrite bool_decide_false.
Qed.

Lemma double_quotes_no_quote s :
  Forall (fun c => c <> QUOTE) s -> double_quotes s = s.
Proof.
  unfold double_quotes. induction 1 as [|c s Hc _ IH]; [done|].
  cbn [mbind list_bind]. rewrite IH.
  by rewrite (proj2 (Z.eqb_neq _ _)) by done.
Qed.

(** Inside quotes, a text without quotes runs to the end of the file. *)
Lemma Reader_rows_in_quotes_eof n : forall s self0 cur fs f,
  (length s <= n)%nat ->
  process_chars self0 cur = Some (mkReader IN_QUOTED_FIELD fs f) ->
  Forall (fun c => c <> QUOTE) s ->
  Z.of_nat (length (f ++ s)) <= field_limit ->
  Reader_rows self0 (readlines_from cur s)
  = ([fs ++ [f ++ s]], StopIteration).
Proof.
  induction n as [|n IH]; intros s self0 cur fs f Hn Hcur Hs Hlen.
  { destruct s; [|simpl in Hn; lia]. rewrite app_nil_r.
    by apply Reader_rows_end_in_quotes. }
  destruct s as [|c s].
  { rewrite app_nil_r. by apply Reader_rows_end_in_quotes. }
  cbn [length] in Hn. inversion Hs as [|? ? Hc Hs']; subst.
  assert (forall u, f ++ c :: u = (f ++ [c]) ++ u) as Hassoc
    by (intros; by rewrite <- app_assoc).
  destruct (decide (c = LF)) as [->|Hlf].
  { change (LF :: s) with ([LF] ++ s).
    etrans; [apply (Reader_rows_break_in_quotes self0 cur fs f [LF] s);
             [done|done|done|solve_len]|].
    rewrite (IH s _ [] fs (f ++ [LF]));
      [by rewrite <- app_assoc|lia|done|done|].
    by rewrite <- app_assoc. }
  destruct (decide (c = CR)) as [->|Hcr].
  { destruct s as [|c' s].
    - change [CR] with ([CR] ++ []) at 1.
      etrans; [apply (Reader_rows_break_in_quotes self0 cur fs f [CR] []);
               [done|done|done|solve_len]|].
      by apply Reader_rows_end_in_quotes.
    - inversion Hs' as [|? ? Hc' Hs'']; subst.
      destruct (decide (c' = LF)) as [->|Hlf'].
      + change (CR :: LF :: s) with ([CR; LF] ++ s).
        etrans;
          [apply (Reader_rows_break_in_quotes self0 cur fs f [CR; LF] s);
           [done|done|done|solve_len]|].
        rewrite (IH s _ [] fs (f ++ [CR; LF]));
          [by rewrite <- app_assoc|simpl in Hn; lia|done|done|].
        by rewrite <- app_assoc.
      + change (CR :: c' :: s) with ([CR] ++ c' :: s).
        etrans;
          [apply (Reader_rows_break_in_quotes self0 cur fs f [CR] (c' :: s));
           [done|by apply readlines_from_cr|done|solve_len]|].
        rewrite (IH (c' :: s) _ [] fs (f ++ [CR]));
          [by rewrite <- app_assoc|simpl in *; lia|done|done|].
        by rewrite <- app_assoc. }
  rewrite readlines_from_step by done.
  rewrite (IH s self0 (cur ++ [c]) fs (f ++ [c]));
    [by rewrite (Hassoc s)|lia| |done|by rewrite <- Hassoc].
  rewrite CsvFacts.process_chars_app, Hcur.
  pose proof (WrittenFacts.process_chars_in_quotes [c] fs f) as Hstep.
  rewrite double_quotes_no_quote in Hstep by (by constructor).
  apply Hstep. solve_len.
Qed.

(** Written cells, each followed by a comma. *)
Lemma Reader_rows_cells_comma cs : forall self0 cur fs,
  Forall well_written_cell cs ->
  process_chars self0 cur = Some (mkReader START_FIELD fs []) ->
  exists self0' cur',
    process_chars self0' cur'
    = Some (mkReader START_FIELD (fs ++ (cell_text <$> cs)) []) /\
    forall K,
      Reader_rows self0
        (readlines_from cur
           (concat ((fun c => cell_source c ++ [COMMA]) <$> cs) ++ K))
      = Reader_rows self0' (readlines_from cur' K).
Proof.
  induction cs as [|c cs IH]; intros self0 cur fs Hcs Hcur.
  - exists self0, cur. rewrite app_nil_r. by split.
  - inversion Hcs as [|? ? Hc Hcs']; subst.
    destruct (Reader_rows_cell c self0 cur fs Hc Hcur)
      as (self1 & cur1 & Hcur1 & Hgo1).
    destruct (IH self1 (cur1 ++ [COMMA]) (fs ++ [cell_text c]) Hcs')
      as (self2 & cur2 & Hcur2 & Hgo2).
    { rewrite CsvFacts.process_chars_app, Hcur1. cbn [process_chars].
      by rewrite WrittenFacts.comma_after_cell. }
    exists self2, cur2. split.
    + rewrite Hcur2. cbn [fmap list_fmap]. by rewrite <- app_assoc.
    + intros K. cbn [fmap list_fmap concat].
      rewrite <- !app_assoc, Hgo1. cbn [app].
      rewrite readlines_from_step by done. apply Hgo2.
Qed.

Lemma unclosed_source_first cs s :
  Forall well_written_cell cs ->
  exists x t, unclosed_source cs s = x :: t /\ is_newline x = false.
Proof.
  unfold unclosed_source. intros Hcs.
  destruct cs as [|c cs]; [cbn [fmap list_fmap concat app]; by eauto|].
  inversion Hcs as [|? ? Hc _]; subst.
  cbn [fmap list_fmap concat]. destruct c as [[|x u]|u].
  - cbn [cell_source app]. by eauto.
  - destruct Hc as [Hu _]. inversion Hu as [|? ? Hx _]; subst.
    destruct (CsvFacts.cell_char_tests x Hx) as (Hnl & _).
    cbn [cell_source]. rewrite <- !app_comm_cons. by eauto.
  - cbn [cell_source app]. by eauto.
Qed.

(** The last line with its unclosed quote, at the end of the input. *)
Lemma Reader_rows_unclosed cs s :
  Forall well_written_cell cs ->
  Forall (fun c => c <> QUOTE) s ->
  Z.of_nat (length s) <= field_limit ->
  Reader_rows parse_reset (readlines_from [] (unclosed_source cs s))
  = ([(cell_text <$> cs) ++ [s]], StopIteration).
Proof.
  intros Hcs Hs Hlen.
  destruct (unclosed_source_first cs s Hcs) as (x & t & Hsrc & Hnl).
  rewrite Hsrc, Reader_rows_first_char, <- Hsrc by done.
  destruct (Reader_rows_cells_comma cs (mkReader START_FIELD [] []) [] [] Hcs)
    as (self1 & cur1 & Hcur1 & Hgo); [done|].
  unfold unclosed_source. rewrite Hgo.
  assert (no_line_break QUOTE) as Hq by done.
  rewrite readlines_from_step by done.
  apply (Reader_rows_in_quotes_eof (length s) s self1 (cur1 ++ [QUOTE])
           (cell_text <$> cs) []); [done| |done|done].
  rewrite CsvFacts.process_chars_app, Hcur1. cbn [process_chars app].
  unfold parse_process_char, start_field. cbn [state].
  change (is_newline QUOTE) with false. by rewrite Z.eqb_refl.
Qed.

Lemma Reader_rows_file_then rows rest :
  Forall well_written rows ->
  Reader_rows parse_reset (readlines_from [] (file_source rows ++ rest))
  = (let (more, en) := Reader_rows parse_reset (readlines_from [] rest) in
     ((row_texts <$> rows) ++ more, en)).
Proof.
  unfold file_source. induction 1 as [|r rows Hr _ IH].
  - cbn [fmap list_fmap concat app].
    by destruct (Reader_rows parse_reset (readlines_from [] rest)).
  - cbn [fmap list_fmap concat]. rewrite <- app_assoc.
    rewrite Reader_rows_row, IH by done.
    by destruct (Reader_rows parse_reset (readlines_from [] rest)).
Qed.

Lemma unclosed_parses header rows cs s content :
  Forall well_written (header :: rows) ->
  Forall well_written_cell cs ->
  Forall (fun c => c <> QUOTE) s ->
  Z.of_nat (length s) <= field_limit ->
  Utf8.encode (file_source (header :: rows) ++ unclosed_source cs s)
  = Some content ->
  parses content (row_texts header)
    ((row_texts <$> rows) ++ [(cell_text <$> cs) ++ [s]]).
Proof.
  intros Hrows Hcs Hs Hlen Henc.
  exists (file_source (header :: rows) ++ unclosed_source cs s).
  split; [by apply Utf8Facts.decode_encode|].
  unfold reader, readlines.
  rewrite Reader_rows_file_then, Reader_rows_unclosed by done.
  done.
Qed.

End UnclosedFacts.

(** X16. A quote that is opened and never closed is not an error: the
    reader is not strict.  When the last line of a written file has some
    cells followed by an opening quote, and no quote follows, the run
    succeeds, and the last record gets one more cell that holds everything
    from that quote to the end of the file, line breaks included.
    Here the output can be opened and standard output can encode the
    report. *)
Theorem convert_unclosed_quote
    csv_file json_file w header rows cs s content :
  Forall Written.well_written (header :: rows) ->
  Forall Written.well_written_cell cs ->
  Forall (fun c => c <> QUOTE) s ->
  Z.of_nat (length s) <= Csv.field_limit ->
  Utf8.encode (Written.file_source (header :: rows) ++ unclosed_source cs s)
  = Some content ->
  open_read w csv_file = Some content ->
  writable json_file w ->
  reports csv_file json_file w ->
  converted csv_file json_file w
    (DictReader.row_to_dict (Written.row_texts header)
       <$> (filter (fun row => row <> []) (Written.row_texts <$> rows)
            ++ [(Written.cell_text <$> cs) ++ [s]])).
Proof.
  intros Hrows Hcs Hs Hlen Henc Hcsv Hw Hprint.
  replace (filter (fun row => row <> []) (Written.row_texts <$> rows)
           ++ [(Written.cell_text <$> cs) ++ [s]])
    with (filter (fun row => row <> [])
            ((Written.row_texts <$> rows)
             ++ [(Written.cell_text <$> cs) ++ [s]])).
  - rewrite <- DictReaderFacts.records_filter.
    apply input_file_converted; [|done|done].
    exists content. split; [done|].
    by apply UnclosedFacts.unclosed_parses.
  - rewrite filter_app. f_equal. rewrite filter_cons_True; [done|].
    by destruct (Written.cell_text <$> cs).
Qed.

Lemma convert_unclosed_quote_witness :
  converted CSV_FILE JSON_FILE (only_input unclosed_csv)
    (DictReader.row_to_dict [lit "a"; lit "b"]
       <$> (filter (fun row => row <> []) [[lit "1"; lit "2"]]
            ++ [[lit "3"] ++ [lit "4" ++ [LF] ++ lit "5,6" ++ [LF]]])).
Proof.
  apply (convert_unclosed_quote CSV_FILE JSON_FILE (only_input unclosed_csv)
           (Written.mkRow [Written.Plain (lit "a"); Written.Plain (lit "b")]
                          Written.Unix)
           [Written.mkRow [Written.Plain (lit "1"); Written.Plain (lit "2")]
                          Written.Unix]
           [Written.Plain (lit "3")]
           (lit "4" ++ [LF] ++ lit "5,6" ++ [LF])
           unclosed_csv).
  - repeat (constructor; [solve_well_written|]). constructor.
  - repeat (constructor; [solve_well_written|]). constructor.
  - repeat (constructor; [discriminate|]). constructor.
  - vm_compute. discriminate.
  - vm_compute. reflexivity.
  - reflexivity.
  - apply sample_writable.
  - apply sample_reports.
Defined.
